(** * scHPF: Hierarchical Poisson Factorization by coordinate-ascent
      variational inference (src/schpf/scHPF_.py)

    A shallow embedding of the module [scHPF_.py]: the variational Gamma
    blocks ([HPF_Gamma]), the estimator object ([scHPF]) and its methods
    [_setup], [_fit], [fit], [project], [_initialize], [pois_llh_pointwise],
    [pois_llh], [cell_score], [gene_score].

    - float64 values are Rocq's primitive binary64 floats, so [<], [/],
      [abs] are IEEE-754 operations, as in numpy;
    - Python objects that are mutated in place (numpy arrays and
      [HPF_Gamma] instances) live in a store and are named by address;
    - the methods run in a state-and-exception monad: a raised exception
      keeps the store as it was when it was raised;
    - what the module imports (numpy's reductions and random source,
      scipy's special functions, the kernels of [schpf.hpf_numba]) is
      taken as the fields of the class [Imports]; an imported function
      reads the values it is given and mutates nothing. *)

From Stdlib Require Import ZArith List Floats Lia Bool String.
From stdpp Require Import base option list.
Import ListNotations.

#[local] Set Warnings "-inexact-float,-clear-no-such-hyp".

Local Open Scope Z_scope.

(** ** float64 *)

Abbreviation float64 := float.

(** [x > 0] on float64; false on NaN. *)
Definition pos (x : float64) : bool := (0 <? x)%float.

(** [float(n)] for a Python int that is a size or a count (below 2^63). *)
Definition float_of_nat (n : nat) : float64 :=
  of_uint63 (Uint63.of_Z (Z.of_nat n)).

(** ** Python lists: [l[i]] with a possibly negative index *)

Definition py_index {A} (l : list A) (i : Z) : option A :=
  let n := Z.of_nat (length l) in
  let j := if i <? 0 then i + n else i in
  if (j <? 0) || (n <=? j) then None else l !! Z.to_nat j.

(** ** Exceptions *)

(** The exceptions of Python and numpy that the module can meet.
    [BroadcastError] stands for an elementwise operation on arrays of
    different shapes, which the model does not broadcast; [InvalidAddress]
    for an address that the store does not hold, which no run from a
    well-formed store reaches. *)
Inductive exn : Type :=
| AssertionError
| ValueError (msg : string)
| IndexError
| UnboundLocalError
| ZeroDivisionError
| AxisError
| AttributeError
| BroadcastError
| InvalidAddress
| OverflowError.

Definition result (A : Type) : Type := exn + A.

Definition is_ValueError {A} (r : result A) : bool :=
  match r with inl (ValueError _) => true | _ => false end.

(** ** numpy arrays (values) *)

Record ndarray : Type := NDArray { shape : list nat; data : list float64 }.

(** [np.all(x > 0)] *)
Definition all_pos (x : ndarray) : bool := forallb pos (data x).

(** [x / y] for arrays of one shape.  numpy would broadcast arrays of
    different shapes; the blocks of this module never need it (the
    constructor asserts equal shapes), and the model reports it. *)
Definition np_div (x y : ndarray) : result ndarray :=
  if decide (shape x = shape y)
  then inr (NDArray (shape x) (zip_with PrimFloat.div (data x) (data y)))
  else inl BroadcastError.

(** [s + x] for a scalar [s]. *)
Definition np_add_scalar (s : float64) (x : ndarray) : ndarray :=
  NDArray (shape x) (map (PrimFloat.add s) (data x)).

(** the value [x[:] = v] leaves in [x] *)
Definition np_fill (x : ndarray) (v : float64) : ndarray :=
  NDArray (shape x) (map (fun _ => v) (data x)).

(** row [i] of a 2-D array with [k] columns, stored row-major *)
Definition row (k : nat) (d : list float64) (i : nat) : list float64 :=
  take k (drop (i * k) d).

(** ** Objects *)

Definition loc := nat.

Module HPF_Gamma.
(** An [HPF_Gamma] instance: its fields hold references to arrays. *)
Record obj : Type := Obj { vi_shape : loc; vi_rate : loc; dims : list nat }.
End HPF_Gamma.

Module scHPF.
(** An [scHPF] instance. *)
Record obj : Type := Obj {
  nfactors : nat;
  a : float64;
  ap : float64;
  bp : option float64;
  c : float64;
  cp : float64;
  dp : option float64;
  min_iter : Z;
  max_iter : Z;
  check_freq : Z;
  epsilon : float64;
  better_than_n_ago : Z;
  xi : option loc;
  eta : option loc;
  theta : option loc;
  beta : option loc;
  loss : list float64
}.

Definition set_loss (l : list float64) (s : obj) : obj :=
  Obj (nfactors s) (a s) (ap s) (bp s) (c s) (cp s) (dp s) (min_iter s)
      (max_iter s) (check_freq s) (epsilon s) (better_than_n_ago s)
      (xi s) (eta s) (theta s) (beta s) l.

(** the assignments at the end of [fit] and [_initialize] *)
Definition set_fitted (b d : float64) (x e t be : loc) (s : obj) : obj :=
  Obj (nfactors s) (a s) (ap s) (Some b) (c s) (cp s) (Some d) (min_iter s)
      (max_iter s) (check_freq s) (epsilon s) (better_than_n_ago s)
      (Some x) (Some e) (Some t) (Some be) (loss s).
End scHPF.

(** A sparse count matrix in coordinate format. *)
Record coo_matrix : Type := COO {
  X_shape : nat * nat;
  X_data : list float64;
  X_row : list nat;
  X_col : list nat
}.

(** What the module prints. *)
Inductive event : Type :=
| Clipping_dp (old_val new_val : float64)
| Iter_msg (t : Z) (curr pct : float64)
| Said_converged
| Said_getting_worse_break.

(** ** What the module imports

    numpy's random source and reductions, scipy's special functions and
    the compiled kernels of [schpf.hpf_numba].  A kernel is a function of
    the values of the arrays it is given and returns a new array.
    [compute_pois_llh] is [None] when [hpf_numba] does not export the name
    (the [NameError] that [pois_llh_pointwise] catches). *)
Class Imports : Type := {
  rng : Type;
  (** [np.random.uniform(low, high, dims)]: the [size] numbers drawn, once
      the range is known to be finite (see [uniform]) *)
  np_random_uniform : float64 -> float64 -> nat -> rng -> list float64 * rng;
  (** [np.random.dirichlet(alpha, n)]: [n] rows of [length alpha] numbers *)
  np_random_dirichlet : list float64 -> nat -> rng -> list float64 * rng;
  (** [.sum()] over the numbers of an array or of one of its rows *)
  np_sum : list float64 -> float64;
  np_mean : list float64 -> float64;
  np_var : list float64 -> float64;
  (** [X.sum(axis=axis)] of a sparse matrix *)
  coo_sum : coo_matrix -> nat -> list float64;
  np_log : float64 -> float64;
  gammaln : float64 -> float64;
  compute_Xphi_data :
    list float64 -> list nat -> list nat ->
    ndarray -> ndarray -> ndarray -> ndarray -> ndarray;
  compute_loading_shape_update :
    ndarray -> list nat -> nat -> float64 -> ndarray;
  compute_loading_rate_update :
    ndarray -> ndarray -> ndarray -> ndarray -> ndarray;
  compute_pois_llh :
    option (list float64 -> list nat -> list nat ->
            ndarray -> ndarray -> ndarray -> ndarray -> ndarray)
}.

(** ** An executable instance of the imports

    Used to run the model on concrete inputs: sequential sums and moments,
    a random source that always draws the midpoint of the interval (its
    state counts the draws), and stand-ins of the right shapes for the
    compiled kernels and the special functions. *)

Definition seq_sum (l : list float64) : float64 :=
  fold_left PrimFloat.add l 0%float.

Definition seq_mean (l : list float64) : float64 :=
  (seq_sum l / float_of_nat (length l))%float.

Definition seq_var (l : list float64) : float64 :=
  let m := seq_mean l in
  seq_mean (map (fun x => ((x - m) * (x - m))%float) l).

(** the entries of [X] as [(row, col, value)] *)
Definition entries (X : coo_matrix) : list (nat * nat * float64) :=
  zip (zip (X_row X) (X_col X)) (X_data X).

Definition seq_axis_sum (X : coo_matrix) (axis : nat) : list float64 :=
  let '(nrows, ncols) := X_shape X in
  match axis with
  | O =>
      map (fun j => seq_sum (map snd
             (filter (fun e => e.1.2 = j) (entries X)))) (seq 0 ncols)
  | _ =>
      map (fun i => seq_sum (map snd
             (filter (fun e => e.1.1 = i) (entries X)))) (seq 0 nrows)
  end.

Definition midpoint_uniform (low high : float64) (size : nat) (r : nat)
  : list float64 * nat :=
  (repeat ((low + high) / 2)%float size, S r).

Definition even_dirichlet (alpha : list float64) (n : nat) (r : nat)
  : list float64 * nat :=
  (repeat (1 / float_of_nat (length alpha))%float (n * length alpha), S r).

Definition even_Xphi (d : list float64) (r c : list nat)
    (ts tr bs br : ndarray) : ndarray :=
  match shape ts with
  | [_; k] =>
      NDArray [length d; k]
        (concat (map (fun v => repeat (v / float_of_nat k)%float k) d))
  | _ => NDArray [length d; 0%nat] []
  end.

Definition flat_shape_update (Xphi : ndarray) (idx : list nat) (n : nat)
    (prior : float64) : ndarray :=
  match shape Xphi with
  | [_; k] => NDArray [n; k] (repeat (prior + 1)%float (n * k))
  | _ => NDArray [n; 0%nat] []
  end.

Definition flat_rate_update (ps pr os or : ndarray) : ndarray :=
  match shape ps, shape os with
  | [n], [_; k] => NDArray [n; k] (repeat 1%float (n * k))
  | _, _ => NDArray [0%nat; 0%nat] []
  end.

Definition reference : Imports := {|
  rng := nat;
  np_random_uniform := midpoint_uniform;
  np_random_dirichlet := even_dirichlet;
  np_sum := seq_sum;
  np_mean := seq_mean;
  np_var := seq_var;
  coo_sum := seq_axis_sum;
  np_log := fun x => (x - 1)%float;
  gammaln := fun _ => 0%float;
  compute_Xphi_data := even_Xphi;
  compute_loading_shape_update := flat_shape_update;
  compute_loading_rate_update := flat_rate_update;
  compute_pois_llh := None
|}.

Section HPF.
Context `{Imports}.

(** ** The store *)

Record state : Type := State {
  arrays : list ndarray;          (** numpy arrays, by address *)
  gammas : list HPF_Gamma.obj;    (** [HPF_Gamma] instances, by address *)
  self : scHPF.obj;               (** the estimator *)
  random : rng;                   (** [np.random]'s state *)
  stdout : list event             (** what was printed, oldest first *)
}.

(** ** The monad of methods *)

Definition M (A : Type) : Type := state -> result A * state.

#[export] Instance M_ret : MRet M := fun A x σ => (inr x, σ).
#[export] Instance M_bind : MBind M := fun A B f m σ =>
  match m σ with
  | (inl e, σ') => (inl e, σ')
  | (inr x, σ') => f x σ'
  end.

Definition raise {A} (e : exn) : M A := fun σ => (inl e, σ).

Definition lift {A} (r : result A) : M A := fun σ => (r, σ).

Definition get_array (l : loc) : M ndarray := fun σ =>
  match arrays σ !! l with
  | Some x => (inr x, σ)
  | None => (inl InvalidAddress, σ)
  end.

(** a new array object *)
Definition new_array (x : ndarray) : M loc := fun σ =>
  (inr (length (arrays σ)),
   State (arrays σ ++ [x]) (gammas σ) (self σ) (random σ) (stdout σ)).

(** in-place write of an array object *)
Definition set_array (l : loc) (x : ndarray) : M unit := fun σ =>
  (inr tt,
   State (<[l := x]> (arrays σ)) (gammas σ) (self σ) (random σ) (stdout σ)).

Definition get_gamma (g : loc) : M HPF_Gamma.obj := fun σ =>
  match gammas σ !! g with
  | Some o => (inr o, σ)
  | None => (inl InvalidAddress, σ)
  end.

Definition new_gamma (o : HPF_Gamma.obj) : M loc := fun σ =>
  (inr (length (gammas σ)),
   State (arrays σ) (gammas σ ++ [o]) (self σ) (random σ) (stdout σ)).

Definition set_gamma (g : loc) (o : HPF_Gamma.obj) : M unit := fun σ =>
  (inr tt,
   State (arrays σ) (<[g := o]> (gammas σ)) (self σ) (random σ) (stdout σ)).

Definition get_self : M scHPF.obj := fun σ => (inr (self σ), σ).

Definition put_self (s : scHPF.obj) : M unit := fun σ =>
  (inr tt, State (arrays σ) (gammas σ) s (random σ) (stdout σ)).

Definition print (e : event) : M unit := fun σ =>
  (inr tt, State (arrays σ) (gammas σ) (self σ) (random σ) (stdout σ ++ [e])).

Definition draw {A} (f : rng -> A * rng) : M A := fun σ =>
  let '(x, r) := f (random σ) in
  (inr x, State (arrays σ) (gammas σ) (self σ) r (stdout σ)).

(** [self.loss.append(x)] *)
Definition loss_append (x : float64) : M unit :=
  s ← get_self;
  put_self (scHPF.set_loss (scHPF.loss s ++ [x]) s).

(** [assert(b)] *)
Definition assert (b : bool) : M unit :=
  if b then mret tt else raise AssertionError.

(** ** HPF_Gamma *)

(** [g.vi_shape = x]: the field is bound to a new array *)
Definition set_vi_shape (g : loc) (x : ndarray) : M unit :=
  o ← get_gamma g;
  l ← new_array x;
  set_gamma g (HPF_Gamma.Obj l (HPF_Gamma.vi_rate o) (HPF_Gamma.dims o)).

(** [g.vi_rate = x] *)
Definition set_vi_rate (g : loc) (x : ndarray) : M unit :=
  o ← get_gamma g;
  l ← new_array x;
  set_gamma g (HPF_Gamma.Obj (HPF_Gamma.vi_shape o) l (HPF_Gamma.dims o)).

(** [g.vi_shape[:] = v]: the array itself is overwritten *)
Definition fill_vi_shape (g : loc) (v : float64) : M unit :=
  o ← get_gamma g;
  x ← get_array (HPF_Gamma.vi_shape o);
  set_array (HPF_Gamma.vi_shape o) (np_fill x v).

(** the values of [g.vi_shape] and [g.vi_rate] *)
Definition vi_shape (g : loc) : M ndarray :=
  o ← get_gamma g; get_array (HPF_Gamma.vi_shape o).

Definition vi_rate (g : loc) : M ndarray :=
  o ← get_gamma g; get_array (HPF_Gamma.vi_rate o).

(** [HPF_Gamma.__init__(self, vi_shape, vi_rate)] *)
Definition HPF_Gamma_init (vi_shape vi_rate : loc) : M loc :=
  s ← get_array vi_shape;
  r ← get_array vi_rate;
  assert (bool_decide (shape s = shape r));;
  assert (all_pos s);;
  assert (all_pos r);;
  new_gamma (HPF_Gamma.Obj vi_shape vi_rate (shape s)).

(** the number of elements of an array of shape [dims] *)
Definition size_of (dims : list nat) : nat := fold_right Nat.mul 1%nat dims.

(** [np.random.uniform(low, high, size)]: numpy refuses a range
    [high - low] that is not finite with [OverflowError] ('Range exceeds
    valid bounds'), before it draws; otherwise [size] numbers are drawn *)
Definition uniform (low high : float64) (size : nat) : M (list float64) :=
  if is_finite (high - low)
  then draw (np_random_uniform low high size)
  else raise OverflowError.

(** [HPF_Gamma.random_gamma_factory(dims, shape_prior, rate_prior)] *)
Definition random_gamma_factory (dims : list nat)
    (shape_prior rate_prior : float64) : M loc :=
  s ← uniform (0.5 * shape_prior) (1.5 * shape_prior) (size_of dims);
  vi_shape ← new_array (NDArray dims s);
  r ← uniform (0.5 * rate_prior) (1.5 * rate_prior) (size_of dims);
  vi_rate ← new_array (NDArray dims r);
  HPF_Gamma_init vi_shape vi_rate.

(** [g.e_x] *)
Definition e_x (g : loc) : M ndarray :=
  s ← vi_shape g;
  r ← vi_rate g;
  lift (np_div s r).

(** [x.sum(1)] of a 2-D array (the blocks are 1-D or 2-D; a 1-D array has
    no axis 1). *)
Definition np_sum_axis1 (x : ndarray) : result ndarray :=
  match shape x with
  | [n; k] =>
      inr (NDArray [n] (map (fun i => np_sum (row k (data x) i)) (seq 0 n)))
  | _ => inl AxisError
  end.

(** [x[idx]]: the rows of a 2-D array picked by an index array *)
Definition np_take_rows (x : ndarray) (idx : list nat)
  : result (nat * list (list float64)) :=
  match shape x with
  | [n; k] =>
      if forallb (fun i => i <? n)%nat idx
      then inr (k, map (row k (data x)) idx)
      else inl IndexError
  | _ => inl AxisError
  end.

(** [d[:,None] * phi] for [phi] of shape [(len(d), k)]: row [i] of [phi]
    scaled by [d[i]] *)
Definition scale_rows (d : list float64) (k : nat) (phi : list float64)
  : ndarray :=
  NDArray [length d; k]
    (concat (imap (fun i v => map (PrimFloat.mul v) (row k phi i)) d)).

(** reading an attribute of a variable that may hold [None] *)
Definition attr (o : option loc) : M loc :=
  match o with
  | Some l => mret l
  | None => raise AttributeError
  end.

(** ** scHPF *)

(** [scHPF.__init__] *)
Definition scHPF_init (nfactors : nat) (a ap : float64) (bp : option float64)
    (c cp : float64) (dp : option float64) (min_iter max_iter check_freq : Z)
    (epsilon : float64) (better_than_n_ago : Z)
    (xi theta eta beta : option loc) (loss : option (list float64))
  : scHPF.obj :=
  scHPF.Obj nfactors a ap bp c cp dp min_iter max_iter check_freq epsilon
    better_than_n_ago None None None None [].

(** the Poisson log-likelihood of one entry of value [v] at rate [r] *)
Definition pois_llh_entry (v r : float64) : float64 :=
  (v * np_log r - r - gammaln (v + 1))%float.

(** the rate of the entry at row [r], column [c]: the dot product over
    the [k] factors of the expectations [shape / rate] of the cell loading
    (row [r] of [ts], [tr]) and of the gene loading (row [c] of [bs],
    [br]) *)
Definition dot_rate (k : nat) (ts tr bs br : list float64) (r c : nat)
  : float64 :=
  np_sum (zip_with PrimFloat.mul
            (zip_with PrimFloat.div (row k ts r) (row k tr r))
            (zip_with PrimFloat.div (row k bs c) (row k br c))).

(** Modelled from the spec: the kernel [compute_pois_llh] of
    [schpf.hpf_numba], which [pois_llh_pointwise] calls first and which is
    not among the sources.  By section 4.5 of the spec it gives, for each
    observed entry, [value * log(rate) - rate - logGamma(value + 1)] with
    [rate] the dot product over factors of the cell-loading and
    gene-loading expectations of the entry's row and column. *)
Definition compute_pois_llh_spec (d : list float64) (r c : list nat)
    (ts tr bs br : ndarray) : ndarray :=
  let k := match shape ts with [_; k] => k | _ => 0%nat end in
  NDArray [length d]
    (zip_with pois_llh_entry d
       (zip_with (dot_rate k (data ts) (data tr) (data bs) (data br)) r c)).

(** the [except NameError] branch of [pois_llh_pointwise] *)
Definition pois_llh_numpy (X : coo_matrix) (theta_e_x beta_e_x : ndarray)
  : result ndarray :=
  match np_take_rows theta_e_x (X_row X) with
  | inl e => inl e
  | inr (kt, trows) =>
    match np_take_rows beta_e_x (X_col X) with
    | inl e => inl e
    | inr (kb, brows) =>
      if bool_decide (length trows = length brows /\ kt = kb)
      then
        let e_rate :=
          zip_with (fun t b => np_sum (zip_with PrimFloat.mul t b))
                   trows brows in
        if bool_decide (length (X_data X) = length e_rate)
        then inr (NDArray [length e_rate]
                    (zip_with pois_llh_entry (X_data X) e_rate))
        else inl BroadcastError
      else inl BroadcastError
    end
  end.

(** [scHPF.pois_llh_pointwise(self, X, theta=None, beta=None)] *)
Definition pois_llh_pointwise (X : coo_matrix) (theta beta : option loc)
  : M ndarray :=
  s ← get_self;
  let theta := match theta with None => scHPF.theta s | Some t => Some t end in
  let beta := match beta with None => scHPF.beta s | Some b => Some b end in
  match compute_pois_llh with
  | Some kernel =>
      t ← attr theta; ts ← vi_shape t; tr ← vi_rate t;
      b ← attr beta; bs ← vi_shape b; br ← vi_rate b;
      mret (kernel (X_data X) (X_row X) (X_col X) ts tr bs br)
  | None =>
      t ← attr theta; te ← e_x t;
      b ← attr beta; be ← e_x b;
      lift (pois_llh_numpy X te be)
  end.

(** [scHPF.pois_llh(self, X, **params)] *)
Definition pois_llh (X : coo_matrix) (theta beta : option loc) : M float64 :=
  llh ← pois_llh_pointwise X theta beta;
  mret (np_sum (data llh)).

(** [mean_var_ratio], local to [_setup] *)
Definition mean_var_ratio (X : coo_matrix) (axis : nat) : float64 :=
  let axis_sum := coo_sum X axis in
  (np_mean axis_sum / np_var axis_sum)%float.

Definition msg_dp : string :=
  "dp is None and cannot  dp when freeze_genes is True.".

Definition msg_freeze : string :=
  "To fit with frozen gene variational distributions (`freeze_genes`==True), eta and beta must be set to valid HPF_Gamma instances.".

(** [if reinit or (g is None): g = make] *)
Definition reinit_or (reinit : bool) (g : option loc) (make : M loc) : M loc :=
  match g with
  | Some l => if reinit then make else mret l
  | None => make
  end.

(** [# empirically set bp and dp]: the hyperparameters [_setup] resolves
    for the estimator [s], read at its entry *)
Definition setup_hyperparameters (s : scHPF.obj) (X : coo_matrix)
    (freeze_genes clip : bool) : M (float64 * float64) :=
  let bp :=
    match scHPF.bp s with
    | None => (scHPF.ap s * mean_var_ratio X 1)%float
    | Some b => b
    end in
  dp ← match scHPF.dp s with
       | Some d => mret d
       | None =>
           if freeze_genes then raise (ValueError msg_dp)
           else
             let dp := (scHPF.cp s * mean_var_ratio X 0)%float in
             if clip && (1000 * dp <? bp)%float
             then
               let old_val := dp in
               let dp := (bp / 1000)%float in
               print (Clipping_dp old_val dp);; mret dp
             else mret dp
       end;
  mret (bp, dp).

(** the rest of [_setup]: the four blocks, created or reused *)
Definition setup_blocks (s : scHPF.obj) (X : coo_matrix)
    (freeze_genes reinit : bool) (bp dp : float64)
  : M (float64 * float64 * loc * loc * loc * loc) :=
  let nfactors := scHPF.nfactors s in
  let '(ncells, ngenes) := X_shape X in
  xi ← reinit_or reinit (scHPF.xi s)
         (random_gamma_factory [ncells] (scHPF.ap s) bp);
  theta ← reinit_or reinit (scHPF.theta s)
            (random_gamma_factory [ncells; nfactors] (scHPF.a s) bp);
  '(eta, beta) ←
    (if freeze_genes
     then
       match scHPF.eta s, scHPF.beta s with
       | Some eta, Some beta => mret (eta, beta)
       | _, _ => raise (ValueError msg_freeze)
       end
     else
       eta ← reinit_or reinit (scHPF.eta s)
               (random_gamma_factory [ngenes] (scHPF.cp s) dp);
       beta ← reinit_or reinit (scHPF.beta s)
                (random_gamma_factory [ngenes; nfactors] (scHPF.c s) dp);
       mret (eta, beta));
  mret (bp, dp, xi, eta, theta, beta).

(** [scHPF._setup(self, X, freeze_genes=False, reinit=True, clip=True)] *)
Definition _setup (X : coo_matrix) (freeze_genes reinit clip : bool)
  : M (float64 * float64 * loc * loc * loc * loc) :=
  s ← get_self;
  '(bp, dp) ← setup_hyperparameters s X freeze_genes clip;
  setup_blocks s X freeze_genes reinit bp dp.

(** *** The loss history and the stopping rules of [_fit] *)

(** [try: prev = self.loss[-2]; pct_change.append(100 * (curr - prev) /
    np.abs(prev)) except IndexError: pct_change.append(100)], on the
    history [loss] that already ends with [curr]: the new [pct_change] and
    the binding of [prev] ([None]: not bound yet). *)
Definition record_pct_change (loss pct_change : list float64)
    (prev : option float64) (curr : float64)
  : list float64 * option float64 :=
  match py_index loss (-2) with
  | Some p => (pct_change ++ [(100 * (curr - p) / abs p)%float], Some p)
  | None => (pct_change ++ [100%float], prev)
  end.

Inductive outcome : Type :=
| Continue
| Converged        (** [print('converged'); break] *)
| Getting_worse.   (** [print('getting worse break'); break] *)

Definition index {A} (l : list A) (i : Z) : result A :=
  match py_index l i with
  | Some x => inr x
  | None => inl IndexError
  end.

Definition bound (prev : option float64) : result float64 :=
  match prev with
  | Some p => inr p
  | None => inl UnboundLocalError
  end.

(** The [# check convergence] block of [_fit], for the estimator [s]
    (whose history already ends with [curr]), the local [pct_change],
    [prev], [curr], the iteration [t] and the resolved [min_iter]. *)
Definition check_convergence (s : scHPF.obj) (pct_change : list float64)
    (prev : option float64) (curr : float64) (t min_iter : Z)
  : result outcome :=
  let loss := scHPF.loss s in
  if (3 <? Z.of_nat (length loss)) && (min_iter <=? t) then
    match index pct_change (-1) with
    | inl e => inl e
    | inr p1 =>
    let current_small := (abs p1 <? scHPF.epsilon s)%float in
    match index pct_change (-2) with
    | inl e => inl e
    | inr p2 =>
    let prev_small := (abs p2 <? scHPF.epsilon s)%float in
    match index loss (-3) with
    | inl e => inl e
    | inr l3 =>
    match bound prev with
    | inl e => inl e
    | inr prev =>
    let not_inflection :=
      negb ((abs l3 <? abs prev)%float && (abs curr <? abs prev)%float) in
    let converged := current_small && prev_small && not_inflection in
    if converged then inr Converged
    else
      let n := scHPF.better_than_n_ago s in
      if (n <? Z.of_nat (length loss)) && negb (n =? 0) then
        match index loss (- n) with
        | inl e => inl e
        | inr nprev =>
          let worse_than_n_ago := (abs nprev <? abs curr)%float in
          let getting_worse := (abs prev <? abs curr)%float in
          if worse_than_n_ago && getting_worse then inr Getting_worse
          else inr Continue
        end
      else inr Continue
    end end end end
  else inr Continue.

(** *** The loop *)

Inductive loop_ctl : Type := Next | Break.

(** [for t in ts: l = body(t, l)], left by [break] *)
Fixpoint for_range {L} (ts : list Z) (body : Z -> L -> M (loop_ctl * L))
    (l : L) : M L :=
  match ts with
  | [] => mret l
  | t :: ts' =>
      '(ctl, l') ← body t l;
      match ctl with
      | Break => mret l'
      | Next => for_range ts' body l'
      end
  end.

(** [range(n)] *)
Definition range (n : Z) : list Z := map Z.of_nat (seq 0 (Z.to_nat n)).

(** [g.vi_rate = prior + loading.e_x.sum(1)] *)
Definition update_capacity_rate (g : loc) (prior : float64) (loading : loc)
  : M unit :=
  e ← e_x loading;
  r ← lift (np_sum_axis1 e);
  set_vi_rate g (np_add_scalar prior r).

Section fit_loop.
Variables (X : coo_matrix) (validation_data : option coo_matrix).
Variables (freeze_genes reinit verbose : bool) (min_iter : Z).
Variable message_function : option (loc -> loc -> Z -> M unit).
Variables (nfactors ncells ngenes : nat) (a c bp dp : float64).
Variables (xi eta theta beta : loc).

(** the E-step: [Xphi_data] at iteration [t] *)
Definition responsibilities (t : Z) : M ndarray :=
  if (t =? 0) && reinit
  then
    random_phi ← draw (np_random_dirichlet (repeat (0.25 * 1)%float nfactors)
                         (length (X_data X)));
    mret (scale_rows (X_data X) nfactors random_phi)
  else
    ts ← vi_shape theta; tr ← vi_rate theta;
    bs ← vi_shape beta; br ← vi_rate beta;
    mret (compute_Xphi_data (X_data X) (X_row X) (X_col X) ts tr bs br).

(** [# gene updates (if not frozen)] *)
Definition gene_updates (Xphi_data : ndarray) : M unit :=
  if negb freeze_genes
  then
    set_vi_shape beta
      (compute_loading_shape_update Xphi_data (X_col X) ngenes c);;
    es ← vi_shape eta; er ← vi_rate eta;
    ts ← vi_shape theta; tr ← vi_rate theta;
    set_vi_rate beta (compute_loading_rate_update es er ts tr);;
    update_capacity_rate eta dp beta
  else mret tt.

(** [# cell updates] *)
Definition cell_updates (Xphi_data : ndarray) : M unit :=
  set_vi_shape theta
    (compute_loading_shape_update Xphi_data (X_row X) ncells a);;
  xs ← vi_shape xi; xr ← vi_rate xi;
  bs ← vi_shape beta; br ← vi_rate beta;
  set_vi_rate theta (compute_loading_rate_update xs xr bs br);;
  update_capacity_rate xi bp theta.

(** [# record llh/percent change and check for convergence]: the body of
    [if t % self.check_freq == 0], on the locals [pct_change] and [prev] *)
Definition record_and_check (t : Z) (l : list float64 * option float64)
  : M (loop_ctl * (list float64 * option float64)) :=
  let '(pct_change, prev) := l in
  let vX := match validation_data with Some v => v | None => X end in
  llh ← pois_llh vX (Some theta) (Some beta);
  let curr := ((- llh) / float_of_nat (length (X_data vX)))%float in
  loss_append curr;;
  s ← get_self;
  let '(pct_change, prev) :=
    record_pct_change (scHPF.loss s) pct_change prev curr in
  (if verbose
   then
     p ← lift (index pct_change (-1));
     print (Iter_msg t curr p)
   else mret tt);;
  match message_function with
  | Some f => f theta beta t
  | None => mret tt
  end;;
  s ← get_self;
  o ← lift (check_convergence s pct_change prev curr t min_iter);
  match o with
  | Converged => print Said_converged;; mret (Break, (pct_change, prev))
  | Getting_worse =>
      print Said_getting_worse_break;; mret (Break, (pct_change, prev))
  | Continue => mret (Next, (pct_change, prev))
  end.

(** the body of [for t in range(self.max_iter)] *)
Definition iteration (t : Z) (l : list float64 * option float64)
  : M (loop_ctl * (list float64 * option float64)) :=
  Xphi_data ← responsibilities t;
  gene_updates Xphi_data;;
  cell_updates Xphi_data;;
  s ← get_self;
  '(ctl, l) ←
    (if scHPF.check_freq s =? 0 then raise ZeroDivisionError
     else if t mod scHPF.check_freq s =? 0 then record_and_check t l
     else mret (Next, l));
  match ctl with
  | Break => mret (Break, l)
  | Next =>
      s ← get_self;
      if scHPF.max_iter s <=? t then mret (Break, l) else mret (Next, l)
  end.

End fit_loop.

(** [scHPF._fit(self, X, validation_data=None, freeze_genes=False,
    reinit=True, verbose=True, min_iter=None, message_function=None)] *)
Definition _fit (X : coo_matrix) (validation_data : option coo_matrix)
    (freeze_genes reinit verbose : bool) (min_iter : option Z)
    (message_function : option (loc -> loc -> Z -> M unit))
  : M (float64 * float64 * loc * loc * loc * loc) :=
  s ← get_self;
  let nfactors := scHPF.nfactors s in
  let '(ncells, ngenes) := X_shape X in
  let '(a, ap, c, cp) :=
    (scHPF.a s, scHPF.ap s, scHPF.c s, scHPF.cp s) in
  '(bp, dp, xi, eta, theta, beta) ← _setup X freeze_genes reinit true;
  fill_vi_shape xi (ap + float_of_nat nfactors * a)%float;;
  update_capacity_rate xi bp theta;;
  (if negb freeze_genes
   then
     fill_vi_shape eta (cp + float_of_nat nfactors * c)%float;;
     update_capacity_rate eta dp beta
   else mret tt);;
  let pct_change := [] in
  s ← get_self;
  let min_iter :=
    match min_iter with None => scHPF.min_iter s | Some m => m end in
  for_range (range (scHPF.max_iter s))
    (iteration X validation_data freeze_genes reinit verbose min_iter
       message_function nfactors ncells ngenes a c bp dp xi eta theta beta)
    (pct_change, None);;
  mret (bp, dp, xi, eta, theta, beta).

(** [scHPF.fit(self, X, validation_data=None, **params)] *)
Definition fit (X : coo_matrix) (validation_data : option coo_matrix)
    (freeze_genes reinit verbose : bool) (min_iter : option Z)
    (message_function : option (loc -> loc -> Z -> M unit)) : M unit :=
  '(bp, dp, xi, eta, theta, beta) ←
    _fit X validation_data freeze_genes reinit verbose min_iter
      message_function;
  s ← get_self;
  put_self (scHPF.set_fitted bp dp xi eta theta beta s).

(** [scHPF.project(self, X, validation_data=None, min_iter=10)] *)
Definition project (X : coo_matrix) (validation_data : option coo_matrix)
    (min_iter : Z) : M (float64 * loc * loc) :=
  '(bp, _, xi, _, theta, _) ←
    _fit X validation_data true true true None None;
  mret (bp, xi, theta).

(** [scHPF._initialize(self, X, freeze_genes=False)] *)
Definition _initialize (X : coo_matrix) (freeze_genes : bool) : M unit :=
  '(bp, dp, xi, eta, theta, beta) ← _setup X freeze_genes true true;
  s ← get_self;
  put_self (scHPF.set_fitted bp dp xi eta theta beta s).

(** [x * d[:,None]] for a 2-D [x] and a 1-D [d] with one entry for each
    row of [x]: row [i] of [x] times [d[i]].  numpy would also stretch a
    dimension of length 1 and take arrays of other ranks; the blocks of an
    estimator never need it, and the model reports it. *)
Definition np_mul_column (x d : ndarray) : result ndarray :=
  match shape x, shape d with
  | [n; k], [m] =>
      if decide (n = m)
      then inr (NDArray [n; k]
                  (concat (imap (fun i v =>
                                   map (fun u => (u * v)%float)
                                       (row k (data x) i))
                                (data d))))
      else inl BroadcastError
  | _, _ => inl BroadcastError
  end.

(** [scHPF._score(self, capacity, loading)]:
    [loading.e_x * capacity.e_x[:,None]] *)
Definition _score (capacity loading : option loc) : M ndarray :=
  l ← attr loading; le ← e_x l;
  c ← attr capacity; ce ← e_x c;
  lift (np_mul_column le ce).

(** [scHPF.cell_score(self, xi=None, theta=None)] *)
Definition cell_score (xi theta : option loc) : M ndarray :=
  s ← get_self;
  let xi := match xi with None => scHPF.xi s | Some x => Some x end in
  let theta := match theta with None => scHPF.theta s | Some t => Some t end in
  _score xi theta.

(** [scHPF.gene_score(self, eta=None, beta=None)] *)
Definition gene_score (eta beta : option loc) : M ndarray :=
  s ← get_self;
  let eta := match eta with None => scHPF.eta s | Some e => Some e end in
  let beta := match beta with None => scHPF.beta s | Some b => Some b end in
  _score eta beta.

End HPF.

(** * The vocabulary of the properties *)

Section Vocabulary.
Context `{Imports}.

(** a command that prints nothing, leaves the estimator as it is, and
    raises nothing but [AssertionError] and [OverflowError] *)
Definition quiet {A} (m : M A) : Prop :=
  forall σ, stdout (m σ).2 = stdout σ /\ self (m σ).2 = self σ
            /\ forall e, (m σ).1 = inl e ->
                 e = AssertionError \/ e = OverflowError.

(** what a run of [_setup] returns for [d'], if it returns *)
Definition returns_dp
    (r : result (float64 * float64 * loc * loc * loc * loc)) (d : float64)
  : Prop :=
  forall bp dp xi eta theta beta,
    r = inr (bp, dp, xi, eta, theta, beta) -> dp = d.

(** the [b'] that [_setup] resolves for the estimator [s] and the data
    [X]: its own when it has one, the estimate otherwise *)
Definition resolved_bp (s : scHPF.obj) (X : coo_matrix) : float64 :=
  match scHPF.bp s with
  | None => (scHPF.ap s * mean_var_ratio X 1)%float
  | Some b => b
  end.

(** two estimators that differ in their loss history at most *)
Definition same_config (s s0 : scHPF.obj) : Prop :=
  scHPF.set_loss [] s = scHPF.set_loss [] s0.

(** a command that only reads the store *)
Definition reads {A} (m : M A) : Prop := forall σ, (m σ).2 = σ.

(** What a run leaves untouched, relative to a store [σ0] and to two
    addresses [n0], [m0]: the arrays below [n0] and the blocks below [m0]
    are those of [σ0], a block at or above [m0] refers to arrays at or
    above [n0] only, the estimator has the configuration and the blocks
    it had in [σ0], and its loss history extends the one of [σ0]. *)
Definition kept_in (σ0 : state) (n0 m0 : nat) (σ : state) : Prop :=
  take n0 (arrays σ) = take n0 (arrays σ0)
  /\ (n0 <= length (arrays σ))%nat
  /\ take m0 (gammas σ) = take m0 (gammas σ0)
  /\ (m0 <= length (gammas σ))%nat
  /\ (forall g o, (m0 <= g)%nat -> gammas σ !! g = Some o ->
        (n0 <= HPF_Gamma.vi_shape o)%nat /\ (n0 <= HPF_Gamma.vi_rate o)%nat)
  /\ same_config (self σ) (self σ0)
  /\ scHPF.loss (self σ0) `prefix_of` scHPF.loss (self σ).

(** [m] keeps the frame, and what it returns satisfies [Φ] *)
Definition ok_in (σ0 : state) (n0 m0 : nat) {A} (m : M A) (Φ : A -> Prop)
  : Prop :=
  forall σ, kept_in σ0 n0 m0 σ ->
    kept_in σ0 n0 m0 (m σ).2 /\ forall x, (m σ).1 = inr x -> Φ x.

(** what [_setup] and [_fit] return inside a frame: the resolved [b'] and
    blocks at or above [m0] (the gene blocks too, unless frozen) *)
Definition new_blocks_in (σ0 : state) (m0 : nat) (X : coo_matrix)
    (freeze_genes : bool) (r : float64 * float64 * loc * loc * loc * loc)
  : Prop :=
  let '(bp, dp, xi, eta, theta, beta) := r in
  bp = resolved_bp (self σ0) X
  /\ (m0 <= xi)%nat /\ (m0 <= theta)%nat
  /\ (freeze_genes = false -> (m0 <= eta)%nat /\ (m0 <= beta)%nat).

(** a callback that keeps the frame *)
Definition keeps_frame_in (σ0 : state) (n0 m0 : nat)
    (message_function : option (loc -> loc -> Z -> M unit)) : Prop :=
  forall f, message_function = Some f ->
    forall theta beta t, ok_in σ0 n0 m0 (f theta beta t) (fun _ => True).

(** a command that leaves the estimator as it is *)
Definition keeps_self {A} (m : M A) : Prop :=
  forall σ, self (m σ).2 = self σ.

(** a command that writes to no array and to no block that the store
    holds, and leaves the estimator as it is: all it may do to the objects
    is to create new ones *)
Definition allocates {A} (m : M A) : Prop :=
  forall σ, arrays σ `prefix_of` arrays (m σ).2
            /\ gammas σ `prefix_of` gammas (m σ).2
            /\ self (m σ).2 = self σ.

(** the estimator [s'] is [s] with at most [n] values appended to its loss
    history, and nothing else changed *)
Definition appended (n : nat) (s s' : scHPF.obj) : Prop :=
  exists new, s' = scHPF.set_loss (scHPF.loss s ++ new) s
              /\ (length new <= n)%nat.

(** the iterations of a run of [max_iter] iterations at which the loss is
    checked: the multiples of [check_freq] *)
Definition checks (check_freq max_iter : Z) : list Z :=
  filter (fun t => t mod check_freq = 0) (range max_iter).

(** the cell side of [_setup]: [xi] and [theta], reused or created, which
    come before the test of the frozen gene side *)
Definition cell_blocks (s : scHPF.obj) (X : coo_matrix) (reinit : bool)
    (bp : float64) : M (loc * loc) :=
  xi ← reinit_or reinit (scHPF.xi s)
         (random_gamma_factory [(X_shape X).1] (scHPF.ap s) bp);
  theta ← reinit_or reinit (scHPF.theta s)
            (random_gamma_factory [(X_shape X).1; scHPF.nfactors s]
               (scHPF.a s) bp);
  mret (xi, theta).

(** the updates of iteration [t]: the statements of the loop body of
    [_fit] that come before [if t % self.check_freq == 0] *)
Definition updates (X : coo_matrix) (freeze_genes reinit : bool)
    (nfactors ncells ngenes : nat) (a c bp dp : float64)
    (xi eta theta beta : loc) (t : Z) : M unit :=
  Xphi_data ← responsibilities X reinit nfactors theta beta t;
  gene_updates X freeze_genes ngenes c dp eta theta beta Xphi_data;;
  cell_updates X ncells a bp xi theta beta Xphi_data.

(** the store [σ] once a check has recorded the loss [curr] and printed
    [msgs] *)
Definition recorded (σ : state) (curr : float64) (msgs : list event)
  : state :=
  State (arrays σ) (gammas σ)
    (scHPF.set_loss (scHPF.loss (self σ) ++ [curr]) (self σ))
    (random σ) (stdout σ ++ msgs).

(** the callback of [_fit], if there is one, returns when it is called
    with the store [σ] and leaves the store as it is *)
Definition callback_returns
    (message_function : option (loc -> loc -> Z -> M unit))
    (theta beta : loc) (t : Z) (σ : state) : Prop :=
  forall f, message_function = Some f -> f theta beta t σ = (inr tt, σ).

End Vocabulary.

(** * Concrete inputs

    Stores and estimators on which the properties are run, with the
    executable instance [reference] of the imports. *)

(** a 2 x 2 count matrix with entries [X[0,0] = 2] and [X[1,1] = 1] *)
Definition X22 : coo_matrix :=
  COO (2%nat, 2%nat) [2%float; 1%float] [0; 1]%nat [0; 1]%nat.

(** a 2 x 2 count matrix with the single entry [X[1,1] = 2]: the sums
    along either axis have mean 1 and variance 1 *)
Definition X_unit : coo_matrix :=
  COO (2%nat, 2%nat) [2%float] [1%nat] [1%nat].

(** [scHPF(nfactors=2, min_iter=1, max_iter=3, check_freq=1, ap=ap, bp=bp,
    dp=dp)] *)
Definition estimator (ap : float64) (bp dp : option float64) : scHPF.obj :=
  scHPF_init 2 0.3 ap bp 0.3 1 dp 1 3 1 0.001 5 None None None None None.

(** a store that holds only the estimator *)
Definition fresh_store (s : scHPF.obj) : state (H := reference) :=
  State (H := reference) [] [] s 0%nat [].

(** an estimator whose loss history is [loss] *)
Definition with_loss (loss : list float64) (n : Z) : scHPF.obj :=
  scHPF.set_loss loss
    (scHPF_init 2 0.3 1 None 0.3 1 None 30 1000 10 0.001 n None None None
       None None).

(** two 1-D arrays of positive numbers *)
Definition two_arrays : list ndarray :=
  [NDArray [2%nat] [1%float; 2%float]; NDArray [2%nat] [3%float; 4%float]].

(** a store with two loading blocks of 2 factors: [theta] at address 0
    and [beta] at address 1 *)
Definition scored_store : state (H := reference) :=
  State (H := reference)
    [NDArray [2; 2]%nat [1%float; 2%float; 3%float; 4%float];
     NDArray [2; 2]%nat [2%float; 2%float; 2%float; 2%float];
     NDArray [2; 2]%nat [1%float; 1%float; 1%float; 1%float];
     NDArray [2; 2]%nat [4%float; 4%float; 4%float; 4%float]]
    [HPF_Gamma.Obj 0%nat 1%nat [2; 2]%nat; HPF_Gamma.Obj 2%nat 3%nat [2; 2]%nat]
    (estimator 1 None None) 0%nat [].

(** the store after a first [fit(X)] of a new estimator *)
Definition fitted_once : state (H := reference) :=
  (fit X22 None false true true None None
     (fresh_store (estimator 1 None None))).2.

(** an estimator bound to blocks at addresses 0 to 3, with [bp = dp = 6] *)
Definition bound_store : state (H := reference) :=
  State (H := reference) [] []
    (scHPF.set_fitted 6 6 0%nat 2%nat 1%nat 3%nat (estimator 1 None None))
    0%nat [].

(** a store with a capacity block [xi] (address 0) over 2 cells and two
    loading blocks of 2 factors, [theta] (address 1) and [beta]
    (address 2); the estimator holds three losses equal to 0 and has
    [check_freq = 10], [max_iter = 1000] and [better_than_n_ago = 2] *)
Definition loop_store : state (H := reference) :=
  State (H := reference)
    [NDArray [2]%nat [1%float; 3%float];
     NDArray [2]%nat [1%float; 2%float];
     NDArray [2; 2]%nat [1%float; 2%float; 3%float; 4%float];
     NDArray [2; 2]%nat [2%float; 2%float; 2%float; 2%float];
     NDArray [2; 2]%nat [1%float; 1%float; 1%float; 1%float];
     NDArray [2; 2]%nat [4%float; 4%float; 4%float; 4%float]]
    [HPF_Gamma.Obj 0%nat 1%nat [2]%nat;
     HPF_Gamma.Obj 2%nat 3%nat [2; 2]%nat;
     HPF_Gamma.Obj 4%nat 5%nat [2; 2]%nat]
    (with_loss [0%float; 0%float; 0%float] 2) 0%nat [].

(** the store [loop_store] with another loss history and another window
    [better_than_n_ago] *)
Definition store_with_losses (loss : list float64) (n : Z)
  : state (H := reference) :=
  State (H := reference) (arrays loop_store) (gammas loop_store)
    (with_loss loss n) 0%nat [].

(** a 2 x 2 count matrix whose rows have the same sum: the variance of the
    row sums is 0 *)
Definition X_even : coo_matrix :=
  COO (2%nat, 2%nat) [1%float; 1%float] [0; 1]%nat [0; 1]%nat.

(** * Properties *)

Section Properties.
Context `{Imports}.

(** ** The constructor of [HPF_Gamma] *)

Lemma leb_zero_not_pos (x : float64) :
  (x <=? 0)%float = true -> pos x = false.
Proof.
  unfold pos. rewrite leb_spec, ltb_spec.
  change (Prim2SF 0) with (S754_zero false).
  destruct (Prim2SF x) as [s| s | | s m e]; try destruct s; cbn; congruence.
Qed.

Lemma all_pos_Forall (x : ndarray) :
  all_pos x = true <-> Forall (fun v => pos v = true) (data x).
Proof.
  unfold all_pos. rewrite forallb_forall, Forall_forall.
  split; intros Hx v Hv; apply Hx; by apply list_elem_of_In.
Qed.

Lemma all_pos_nonpos (x : ndarray) :
  Exists (fun v => (v <=? 0)%float = true) (data x) -> all_pos x = false.
Proof.
  intros Hex. apply not_true_is_false. rewrite all_pos_Forall.
  intros Hall. apply Exists_exists in Hex as (v & Hv & Hle).
  rewrite Forall_forall in Hall. specialize (Hall v Hv).
  apply leb_zero_not_pos in Hle. congruence.
Qed.

(** C8.  Constructing an [HPF_Gamma] from two arrays raises the validation
    error ([AssertionError], the store untouched) when their shapes differ
    or when an element of either is [<= 0]; when the shapes are equal and
    every element of both is [> 0] the construction succeeds, the new
    object holds the two arrays, and every element of its stored shape and
    rate arrays is [> 0]. *)
Theorem HPF_Gamma_init_validates (σ : state) (ls lr : loc) (s r : ndarray) :
  arrays σ !! ls = Some s ->
  arrays σ !! lr = Some r ->
  ((shape s <> shape r
    \/ Exists (fun v => (v <=? 0)%float = true) (data s)
    \/ Exists (fun v => (v <=? 0)%float = true) (data r)) ->
   HPF_Gamma_init ls lr σ = (inl AssertionError, σ))
  /\
  (shape s = shape r ->
   Forall (fun v => pos v = true) (data s) ->
   Forall (fun v => pos v = true) (data r) ->
   exists g σ',
     HPF_Gamma_init ls lr σ = (inr g, σ')
     /\ gammas σ' !! g = Some (HPF_Gamma.Obj ls lr (shape s))
     /\ vi_shape g σ' = (inr s, σ')
     /\ vi_rate g σ' = (inr r, σ')
     /\ Forall (fun v => (0 <? v)%float = true) (data s)
     /\ Forall (fun v => (0 <? v)%float = true) (data r)).
Proof.
  intros Hs Hr. split.
  - intros Hbad.
    unfold HPF_Gamma_init, get_array, assert, mbind, M_bind. rewrite Hs, Hr.
    destruct (bool_decide (shape s = shape r)) eqn:Hd; [|reflexivity].
    apply bool_decide_eq_true in Hd.
    destruct Hbad as [Hne | [Hex | Hex]]; [contradiction | |].
    + cbn. by rewrite (all_pos_nonpos _ Hex).
    + cbn. destruct (all_pos s); [|reflexivity].
      cbn. by rewrite (all_pos_nonpos _ Hex).
  - intros Heq Hps Hpr.
    exists (length (gammas σ)).
    eexists. split; [|split; [|split; [|split]]].
    + unfold HPF_Gamma_init, get_array, assert, mbind, M_bind.
      rewrite Hs, Hr. rewrite bool_decide_eq_true_2 by done. cbn.
      apply all_pos_Forall in Hps, Hpr. rewrite Hps, Hpr. cbn. reflexivity.
    + cbn. by rewrite lookup_app_r, Nat.sub_diag.
    + unfold vi_shape, get_gamma, get_array, mbind, M_bind. cbn.
      rewrite lookup_app_r, Nat.sub_diag by done. cbn. by rewrite Hs.
    + unfold vi_rate, get_gamma, get_array, mbind, M_bind. cbn.
      rewrite lookup_app_r, Nat.sub_diag by done. cbn. by rewrite Hr.
    + done.
Qed.

(** ** Running the monad *)

Lemma run_bind {A B} (m : M A) (k : A -> M B) (σ : state) :
  (m ≫= k) σ =
  match m σ with
  | (inl e, σ') => (inl e, σ')
  | (inr x, σ') => k x σ'
  end.
Proof. reflexivity. Qed.

Lemma run_ret {A} (x : A) (σ : state) : (mret x : M A) σ = (inr x, σ).
Proof. reflexivity. Qed.

Lemma vi_shape_run (g : loc) (o : HPF_Gamma.obj) (x : ndarray) (σ : state) :
  gammas σ !! g = Some o -> arrays σ !! HPF_Gamma.vi_shape o = Some x ->
  vi_shape g σ = (inr x, σ).
Proof.
  intros Hg Hx. unfold vi_shape, get_gamma, get_array. rewrite run_bind, Hg.
  by rewrite Hx.
Qed.

Lemma vi_rate_run (g : loc) (o : HPF_Gamma.obj) (x : ndarray) (σ : state) :
  gammas σ !! g = Some o -> arrays σ !! HPF_Gamma.vi_rate o = Some x ->
  vi_rate g σ = (inr x, σ).
Proof.
  intros Hg Hx. unfold vi_rate, get_gamma, get_array. rewrite run_bind, Hg.
  by rewrite Hx.
Qed.

Lemma e_x_run (g : loc) (o : HPF_Gamma.obj) (s r : ndarray) (σ : state) :
  gammas σ !! g = Some o ->
  arrays σ !! HPF_Gamma.vi_shape o = Some s ->
  arrays σ !! HPF_Gamma.vi_rate o = Some r ->
  e_x g σ = (np_div s r, σ).
Proof.
  intros Hg Hs Hr. unfold e_x.
  rewrite run_bind, (vi_shape_run _ _ _ _ Hg Hs).
  rewrite run_bind, (vi_rate_run _ _ _ _ Hg Hr). reflexivity.
Qed.

(** ** The constructor of [scHPF] *)

(** freezing the gene side of an estimator without gene blocks *)
Lemma setup_frozen_without_genes (X : coo_matrix) (reinit clip : bool)
    (σ : state) :
  scHPF.eta (self σ) = None ->
  exists e σ', _setup X true reinit clip σ = (inl e, σ').
Proof.
  intros Heta.
  unfold _setup, setup_hyperparameters, setup_blocks.
  rewrite run_bind. cbn [get_self].
  destruct (scHPF.dp (self σ)) as [d|]; [|by eexists _, _].
  rewrite !run_bind, !run_ret. cbn.
  destruct (X_shape X) as [ncells ngenes].
  rewrite run_bind.
  match goal with |- context [reinit_or ?r ?g ?m ?s] =>
    destruct (reinit_or r g m s) as [[e|xi] σ1] end; [by eexists _, _|].
  rewrite run_bind.
  match goal with |- context [reinit_or ?r ?g ?m ?s] =>
    destruct (reinit_or r g m s) as [[e|theta] σ2] end; [by eexists _, _|].
  rewrite Heta. by eexists _, _.
Qed.

Lemma _fit_raises_with_setup (X : coo_matrix)
    (validation_data : option coo_matrix) (freeze_genes reinit verbose : bool)
    (min_iter : option Z)
    (message_function : option (loc -> loc -> Z -> M unit))
    (σ σ' : state) (e : exn) :
  _setup X freeze_genes reinit true σ = (inl e, σ') ->
  _fit X validation_data freeze_genes reinit verbose min_iter
    message_function σ = (inl e, σ').
Proof.
  intros Hsetup. unfold _fit. rewrite run_bind. cbn [get_self].
  destruct (X_shape X) as [ncells ngenes].
  by rewrite run_bind, Hsetup.
Qed.

(** C9.  Whatever is passed for [xi], [theta], [eta], [beta] and [loss],
    the constructed estimator has no block and an empty loss history; so
    on a freshly constructed estimator, whatever the constructor was
    given, setup with the gene side frozen raises, and with it [_fit] with
    the gene side frozen and [project]. *)
Theorem scHPF_init_discards_blocks
    (nfactors : nat) (a ap : float64) (bp : option float64) (c cp : float64)
    (dp : option float64) (min_iter max_iter check_freq : Z)
    (epsilon : float64) (better_than_n_ago : Z)
    (xi theta eta beta : option loc) (loss : option (list float64)) :
  let s := scHPF_init nfactors a ap bp c cp dp min_iter max_iter check_freq
             epsilon better_than_n_ago xi theta eta beta loss in
  scHPF.xi s = None /\ scHPF.eta s = None /\ scHPF.theta s = None
  /\ scHPF.beta s = None /\ scHPF.loss s = []
  /\ forall (arrs : list ndarray) (gs : list HPF_Gamma.obj) (r : rng)
       (out : list event) (X : coo_matrix)
       (validation_data : option coo_matrix) (reinit clip verbose : bool)
       (m : Z) (mi : option Z)
       (message_function : option (loc -> loc -> Z -> M unit)),
       let σ := State arrs gs s r out in
       (exists e σ', _setup X true reinit clip σ = (inl e, σ'))
       /\ (exists e σ',
             _fit X validation_data true reinit verbose mi message_function σ
             = (inl e, σ'))
       /\ (exists e σ', project X validation_data m σ = (inl e, σ')).
Proof.
  cbn zeta. split_and!; try reflexivity.
  intros arrs gs r out X validation_data reinit clip verbose m mi
    message_function.
  set (σ := State arrs gs _ r out).
  split_and!.
  - by apply setup_frozen_without_genes.
  - destruct (setup_frozen_without_genes X reinit true σ eq_refl)
      as (e & σ' & Hsetup).
    exists e, σ'. by apply _fit_raises_with_setup.
  - destruct (setup_frozen_without_genes X true true σ eq_refl)
      as (e & σ' & Hsetup).
    exists e, σ'. unfold project.
    by rewrite run_bind, (_fit_raises_with_setup _ _ _ _ _ _ _ _ _ _ Hsetup).
Qed.

(** ** The stopping rules of the loop *)

Lemma py_index_last {A} (h : list A) (x : A) : py_index (h ++ [x]) (-1) = Some x.
Proof.
  unfold py_index. rewrite length_app. cbn [length].
  destruct (Z.ltb_spec (-1) 0); [|lia].
  destruct (Z.ltb_spec (-1 + Z.of_nat (length h + 1)) 0); [lia|].
  destruct (Z.leb_spec (Z.of_nat (length h + 1))
              (-1 + Z.of_nat (length h + 1))); [lia|].
  cbn. replace (Z.to_nat (-1 + Z.of_nat (length h + 1))) with (length h) by lia.
  by rewrite lookup_app_r, Nat.sub_diag.
Qed.

Lemma py_index_is_Some {A} (l : list A) (i : Z) :
  is_Some (py_index l i) <-> - Z.of_nat (length l) <= i < Z.of_nat (length l).
Proof.
  unfold py_index.
  destruct (Z.ltb_spec i 0);
    match goal with |- context [(?j <? 0) || (?n <=? ?j)] =>
      destruct (Z.ltb_spec j 0); destruct (Z.leb_spec n j) end; cbn;
    rewrite ?lookup_lt_is_Some; split; intros Hx;
    try lia; try (by destruct Hx).
Qed.

Lemma py_index_None {A} (l : list A) (i : Z) :
  py_index l i = None <->
  ~ (- Z.of_nat (length l) <= i < Z.of_nat (length l)).
Proof.
  rewrite <- py_index_is_Some, eq_None_not_Some. done.
Qed.

(** The convergence test on the history [loss] that already ends with
    the current loss [curr], with [pct_change] just extended: it says
    [Converged] exactly when at least 4 loss points exist, [t] is at or
    past the minimum-iteration floor, the magnitudes of the two most
    recent percent changes are both below [epsilon], and the losses are
    not at a local inflection. *)
Lemma check_convergence_Converged_iff (s : scHPF.obj) (h pct0 : list float64)
    (prev0 : option float64) (curr : float64) (t min_iter : Z) :
  scHPF.loss s = h ++ [curr] ->
  let rec := record_pct_change (scHPF.loss s) pct0 prev0 curr in
  check_convergence s rec.1 rec.2 curr t min_iter = inr Converged
  <->
  (4 <= length (scHPF.loss s))%nat /\ min_iter <= t
  /\ exists p1 p2 l3 l2 : float64,
       py_index rec.1 (-1) = Some p1
       /\ py_index rec.1 (-2) = Some p2
       /\ py_index (scHPF.loss s) (-3) = Some l3
       /\ py_index (scHPF.loss s) (-2) = Some l2
       /\ (abs p1 <? scHPF.epsilon s)%float = true
       /\ (abs p2 <? scHPF.epsilon s)%float = true
       /\ ~ ((abs l3 <? abs l2)%float = true
             /\ (abs curr <? abs l2)%float = true).
Proof.
  intros Hloss rec. subst rec.
  unfold check_convergence, record_pct_change, index, bound.
  destruct (Z.ltb_spec 3 (Z.of_nat (length (scHPF.loss s)))) as [Hlen|Hlen];
    cbn [andb]; [|split; [done|lia]].
  destruct (Z.leb_spec min_iter t) as [Ht|Ht]; [|split; [done|lia]].
  destruct (py_index (scHPF.loss s) (-2)) as [l2|] eqn:Hl2;
    [|apply py_index_None in Hl2; lia].
  cbn [fst snd].
  destruct (py_index (pct0 ++ _) (-1)) as [p1|] eqn:Hp1;
    [|split; [done|by intros (_ & _ & ? & ? & ? & ? & ? & ?)]].
  destruct (py_index (pct0 ++ _) (-2)) as [p2|] eqn:Hp2;
    [|split; [done|by intros (_ & _ & ? & ? & ? & ? & ? & ? & ?)]].
  destruct (py_index (scHPF.loss s) (-3)) as [l3|] eqn:Hl3;
    [|apply py_index_None in Hl3; lia].
  destruct (abs p1 <? scHPF.epsilon s)%float eqn:E1;
    destruct (abs p2 <? scHPF.epsilon s)%float eqn:E2;
    destruct (abs l3 <? abs l2)%float eqn:E3;
    destruct (abs curr <? abs l2)%float eqn:E4; cbn [andb negb].
  all: split;
    [ intros Hc
    | intros (_ & _ & q1 & q2 & m3 & m2 & ? & ? & ? & ? & ? & ? & Hni);
      simplify_eq; try done; try (by destruct Hni) ].
  all: try (split; [lia|]; split; [lia|];
            exists p1, p2, l3, l2; repeat split; try done;
            intros [? ?]; congruence).
  all: repeat case_match; simplify_eq; try congruence.
  all: exfalso; apply Hni; split; congruence.
Qed.

(** The degradation rule inside the block of the convergence test: what
    [Getting_worse] implies, and when it is the outcome. *)
Lemma check_convergence_Getting_worse (s : scHPF.obj) (h pct0 : list float64)
    (prev0 : option float64) (curr : float64) (t min_iter : Z) :
  scHPF.loss s = h ++ [curr] ->
  let rec := record_pct_change (scHPF.loss s) pct0 prev0 curr in
  let n := scHPF.better_than_n_ago s in
  let r := check_convergence s rec.1 rec.2 curr t min_iter in
  (r = inr Getting_worse ->
   (4 <= length (scHPF.loss s))%nat /\ min_iter <= t
   /\ n < Z.of_nat (length (scHPF.loss s)) /\ n <> 0
   /\ exists l2 : float64,
        py_index (scHPF.loss s) (-2) = Some l2
        /\ (abs l2 <? abs curr)%float = true)
  /\
  ((4 <= length (scHPF.loss s))%nat -> min_iter <= t ->
   n < Z.of_nat (length (scHPF.loss s)) -> n <> 0 ->
   is_Some (py_index rec.1 (-2)) ->
   r <> inr Converged ->
   (exists l2 : float64,
      py_index (scHPF.loss s) (-2) = Some l2
      /\ (abs l2 <? abs curr)%float = true) ->
   (exists x : float64,
      py_index (scHPF.loss s) (- n) = Some x
      /\ (abs x <? abs curr)%float = true) ->
   (exists y : float64,
      py_index (scHPF.loss s) (- (n + 1)) = Some y
      /\ (abs y <? abs curr)%float = true) ->
   r = inr Getting_worse).
Proof.
  intros Hloss rec n r. subst rec n r.
  unfold check_convergence, record_pct_change, index, bound.
  destruct (Z.ltb_spec 3 (Z.of_nat (length (scHPF.loss s)))) as [Hlen|Hlen];
    cbn [andb]; [|split; [done|lia]].
  destruct (Z.leb_spec min_iter t) as [Ht|Ht]; [|split; [done|lia]].
  destruct (py_index (scHPF.loss s) (-2)) as [l2|] eqn:Hl2;
    [|apply py_index_None in Hl2; lia].
  cbn [fst snd].
  destruct (py_index (scHPF.loss s) (-3)) as [l3|] eqn:Hl3;
    [|apply py_index_None in Hl3; lia].
  split.
  - destruct (py_index (pct0 ++ _) (-1)) as [p1|]; [|done].
    destruct (py_index (pct0 ++ _) (-2)) as [p2|]; [|done].
    match goal with |- context [if ?b then inr Converged else _] =>
      destruct b; [done|] end.
    destruct (Z.ltb_spec (scHPF.better_than_n_ago s)
                (Z.of_nat (length (scHPF.loss s)))) as [Hn|Hn];
      cbn [andb]; [|done].
    destruct (Z.eqb_spec (scHPF.better_than_n_ago s) 0) as [Hz|Hz];
      cbn [negb]; [done|].
    destruct (py_index (scHPF.loss s) (- scHPF.better_than_n_ago s))
      as [x|]; [|done].
    destruct (abs x <? abs curr)%float; cbn [andb]; [|done].
    destruct (abs l2 <? abs curr)%float eqn:Hw; [|done].
    intros _. repeat split; try lia. by exists l2.
  - intros _ _ Hn Hz [p2 Hp2] Hnc (m2 & Hm2 & Hprev) (x & Hx & Hworse) _.
    simplify_eq. rewrite Hp2 in *.
    destruct (py_index (pct0 ++ _) (-1)) as [p1|] eqn:Hp1;
      [|apply py_index_None in Hp1; rewrite length_app in Hp1; cbn in Hp1; lia].
    match goal with |- context [if ?b then inr Converged else _] =>
      destruct b; [done|] end.
    apply Z.ltb_lt in Hn. apply Z.eqb_neq in Hz.
    rewrite Hn, Hz, Hx, Hworse, Hprev. reflexivity.
Qed.

Lemma loss_append_run (x : float64) (σ : state) :
  loss_append x σ =
  (inr tt,
   State (arrays σ) (gammas σ)
     (scHPF.set_loss (scHPF.loss (self σ) ++ [x]) (self σ))
     (random σ) (stdout σ)).
Proof. reflexivity. Qed.

(** How the loop uses the two rules: one check of iteration [t], with no
    callback, once the scorer has returned [llh].  The loss is appended,
    the percent change recorded, the message printed, and the outcome of
    [check_convergence] decides between [break] and going on. *)
Lemma record_and_check_run (X : coo_matrix)
    (validation_data : option coo_matrix) (verbose : bool) (min_iter : Z)
    (theta beta : loc) (t : Z) (pct_change : list float64)
    (prev : option float64) (llh : float64) (σ : state) :
  let vX := match validation_data with Some v => v | None => X end in
  pois_llh vX (Some theta) (Some beta) σ = (inr llh, σ) ->
  let curr := ((- llh) / float_of_nat (length (X_data vX)))%float in
  let s1 := scHPF.set_loss (scHPF.loss (self σ) ++ [curr]) (self σ) in
  let rec := record_pct_change (scHPF.loss s1) pct_change prev curr in
  exists p : float64,
    py_index rec.1 (-1) = Some p
    /\ record_and_check X validation_data verbose min_iter None theta beta t
         (pct_change, prev) σ =
       let out := stdout σ ++ (if verbose then [Iter_msg t curr p] else []) in
       let σ1 := State (arrays σ) (gammas σ) s1 (random σ) out in
       match check_convergence s1 rec.1 rec.2 curr t min_iter with
       | inl e => (inl e, σ1)
       | inr Continue => (inr (Next, rec), σ1)
       | inr Converged =>
           (inr (Break, rec),
            State (arrays σ) (gammas σ) s1 (random σ)
              (out ++ [Said_converged]))
       | inr Getting_worse =>
           (inr (Break, rec),
            State (arrays σ) (gammas σ) s1 (random σ)
              (out ++ [Said_getting_worse_break]))
       end.
Proof.
  intros vX Hllh curr s1 rec.
  assert (Hp : exists p, py_index rec.1 (-1) = Some p).
  { subst rec. unfold record_pct_change.
    destruct (py_index (scHPF.loss s1) (-2)); cbn [fst];
      eexists; apply py_index_last. }
  destruct Hp as [p Hp]. exists p. split; [done|].
  unfold record_and_check. fold vX. rewrite run_bind, Hllh. fold curr.
  rewrite run_bind, loss_append_run. fold s1.
  rewrite run_bind. cbn [get_self self]. fold rec.
  destruct rec as [pct' prev'] eqn:Hrec. cbn [fst snd] in *.
  clear Hrec Hllh. clearbody curr s1.
  unfold mbind, M_bind, mret, M_ret, lift, print, get_self, index.
  destruct verbose; rewrite ?Hp; cbn -[check_convergence];
    rewrite ?(right_id_L [] (++));
    destruct (check_convergence s1 pct' prev' curr t min_iter) as [e|[]];
    reflexivity.
Qed.

(** *** The two stopping rules in the loop *)

Section check.
Variables (X : coo_matrix) (validation_data : option coo_matrix).
Variables (freeze_genes reinit verbose : bool) (min_iter : Z).
Variables (nfactors ncells ngenes : nat) (a c bp dp : float64).
Variables (xi eta theta beta : loc).
Variable message_function : option (loc -> loc -> Z -> M unit).

Local Abbreviation vX :=
  (match validation_data with Some v => v | None => X end).
Local Abbreviation body :=
  (iteration X validation_data freeze_genes reinit verbose min_iter
     message_function nfactors ncells ngenes a c bp dp xi eta theta beta).
Local Abbreviation updated t :=
  (updates X freeze_genes reinit nfactors ncells ngenes a c bp dp xi eta
     theta beta t).
Local Abbreviation iter_msg t curr p :=
  (if verbose then [Iter_msg t curr p] else []).
Local Abbreviation called t σ1 curr p :=
  (callback_returns message_function theta beta t
     (recorded σ1 curr (iter_msg t curr p))).

(** a callback that returns and leaves the store as it is does not change
    what a check does *)
Lemma record_and_check_callback (t : Z) (pct0 : list float64)
    (prev0 : option float64) (σ1 : state) (llh : float64) :
  pois_llh vX (Some theta) (Some beta) σ1 = (inr llh, σ1) ->
  let curr := ((- llh) / float_of_nat (length (X_data vX)))%float in
  let s1 := scHPF.set_loss (scHPF.loss (self σ1) ++ [curr]) (self σ1) in
  let rec := record_pct_change (scHPF.loss s1) pct0 prev0 curr in
  (forall p, py_index rec.1 (-1) = Some p -> called t σ1 curr p) ->
  record_and_check X validation_data verbose min_iter message_function theta
    beta t (pct0, prev0) σ1
  = record_and_check X validation_data verbose min_iter None theta beta t
      (pct0, prev0) σ1.
Proof.
  intros Hllh curr s1 rec Hcb.
  destruct message_function as [f|]; [|done].
  assert (Hp : exists p, py_index rec.1 (-1) = Some p).
  { subst rec. unfold record_pct_change.
    destruct (py_index (scHPF.loss s1) (-2)); cbn [fst];
      eexists; apply py_index_last. }
  destruct Hp as [p Hp]. specialize (Hcb p Hp f eq_refl).
  unfold recorded in Hcb. fold s1 in Hcb.
  unfold record_and_check. rewrite !run_bind, Hllh. fold curr.
  rewrite !run_bind, loss_append_run. fold s1.
  rewrite !run_bind. cbn [get_self self]. fold rec.
  destruct rec as [pct' prev'] eqn:Hrec. cbn [fst snd] in *.
  clear Hrec Hllh. clearbody curr s1.
  unfold mbind, M_bind, mret, M_ret, lift, print, get_self, index.
  destruct verbose; rewrite ?Hp; cbn -[check_convergence] in Hcb |- *;
    rewrite ?(right_id_L [] (++)) in Hcb; by rewrite Hcb.
Qed.

(** An iteration that checks, in one equation: once its updates have gone
    through and the scorer has returned [llh], the body records the loss,
    extends [pct_change], prints the message of the iteration, and ends as
    the convergence check says. *)
Lemma iteration_check_run (t : Z) (pct0 : list float64)
    (prev0 : option float64) (σ σ1 : state) (llh : float64) :
  updated t σ = (inr tt, σ1) ->
  scHPF.check_freq (self σ1) <> 0 ->
  t mod scHPF.check_freq (self σ1) = 0 ->
  pois_llh vX (Some theta) (Some beta) σ1 = (inr llh, σ1) ->
  let curr := ((- llh) / float_of_nat (length (X_data vX)))%float in
  let s1 := scHPF.set_loss (scHPF.loss (self σ1) ++ [curr]) (self σ1) in
  let rec := record_pct_change (scHPF.loss s1) pct0 prev0 curr in
  (forall p, py_index rec.1 (-1) = Some p -> called t σ1 curr p) ->
  exists p : float64,
    py_index rec.1 (-1) = Some p
    /\ body t (pct0, prev0) σ =
       match check_convergence s1 rec.1 rec.2 curr t min_iter with
       | inl e => (inl e, recorded σ1 curr (iter_msg t curr p))
       | inr Continue =>
           (inr (if scHPF.max_iter (self σ1) <=? t then Break else Next,
                 rec),
            recorded σ1 curr (iter_msg t curr p))
       | inr Converged =>
           (inr (Break, rec),
            recorded σ1 curr (iter_msg t curr p ++ [Said_converged]))
       | inr Getting_worse =>
           (inr (Break, rec),
            recorded σ1 curr
              (iter_msg t curr p ++ [Said_getting_worse_break]))
       end.
Proof.
  intros Hup Hz Hmod Hllh curr s1 rec Hcb.
  destruct (record_and_check_run X validation_data verbose min_iter theta
              beta t pct0 prev0 llh σ1 Hllh) as (p & Hp & Hrun).
  rewrite <- (record_and_check_callback t pct0 prev0 σ1 llh Hllh Hcb) in Hrun.
  exists p. split; [exact Hp|].
  unfold iteration. unfold updates in Hup.
  rewrite run_bind in Hup. rewrite run_bind.
  destruct (responsibilities _ _ _ _ _ _ σ) as [[e|Xphi] σa]; [done|].
  rewrite run_bind in Hup. rewrite run_bind.
  destruct (gene_updates _ _ _ _ _ _ _ _ _ σa) as [[e|[]] σb]; [done|].
  rewrite run_bind, Hup.
  rewrite run_bind. cbn [get_self]. rewrite run_bind.
  apply Z.eqb_neq in Hz. apply Z.eqb_eq in Hmod. rewrite Hz, Hmod, Hrun.
  cbn zeta. fold curr s1 rec. unfold recorded. fold s1.
  destruct (check_convergence s1 rec.1 rec.2 curr t min_iter) as [e|[]];
    cbn [fst snd]; rewrite ?(assoc_L (++)); try reflexivity.
  rewrite run_bind. cbn [get_self self].
  replace (scHPF.max_iter s1) with (scHPF.max_iter (self σ1))
    by (subst s1; by destruct (self σ1)).
  by destruct (scHPF.max_iter (self σ1) <=? t).
Qed.

(** a [break] leaves the loop: the iterations that follow are not run *)
Lemma for_range_break {L} (b : Z -> L -> M (loop_ctl * L)) (t : Z)
    (ts : list Z) (l l' : L) (σ σ' : state) :
  b t l σ = (inr (Break, l'), σ') ->
  for_range (t :: ts) b l σ = (inr l', σ').
Proof. intros Hb. cbn [for_range]. by rewrite run_bind, Hb. Qed.

(** C1.  During [fit], at a check (an iteration [t] with
    [t % check_freq == 0] whose updates have gone through and whose loss
    the scorer has computed; the callback, if there is one, returns and
    leaves the store as it is), the loop body records the loss and
    extends [pct_change], and the optimizer declares
    convergence, that is, prints ['converged'] and leaves the loop by
    [break], exactly when: at least 4 loss points exist, [t] is at or
    past the minimum-iteration floor, the magnitudes of the two most
    recent percent changes are both below [epsilon], and the losses are
    not at a local inflection, that is, it is not the case that the loss
    two checks back is smaller in magnitude than the previous loss while
    the previous loss is larger in magnitude than the current one.  When
    it is declared, no later iteration of the loop is run. *)
Theorem convergence_declared_iff (t : Z) (pct0 : list float64)
    (prev0 : option float64) (σ σ1 : state) (llh : float64) :
  updated t σ = (inr tt, σ1) ->
  scHPF.check_freq (self σ1) <> 0 ->
  t mod scHPF.check_freq (self σ1) = 0 ->
  pois_llh vX (Some theta) (Some beta) σ1 = (inr llh, σ1) ->
  let curr := ((- llh) / float_of_nat (length (X_data vX)))%float in
  let loss := scHPF.loss (self σ1) ++ [curr] in
  let epsilon := scHPF.epsilon (self σ1) in
  let rec := record_pct_change loss pct0 prev0 curr in
  (forall p, py_index rec.1 (-1) = Some p -> called t σ1 curr p) ->
  let declared (p : float64) (run : result _ * state) :=
    py_index rec.1 (-1) = Some p
    /\ run = (inr (Break, rec),
              recorded σ1 curr (iter_msg t curr p ++ [Said_converged])) in
  ((exists p, declared p (body t (pct0, prev0) σ))
   <->
   (4 <= length loss)%nat /\ min_iter <= t
   /\ exists p1 p2 l3 l2 : float64,
        py_index rec.1 (-1) = Some p1
        /\ py_index rec.1 (-2) = Some p2
        /\ py_index loss (-3) = Some l3
        /\ py_index loss (-2) = Some l2
        /\ (abs p1 <? epsilon)%float = true
        /\ (abs p2 <? epsilon)%float = true
        /\ ~ ((abs l3 <? abs l2)%float = true
              /\ (abs curr <? abs l2)%float = true))
  /\ (forall p, declared p (body t (pct0, prev0) σ) ->
      forall ts,
        for_range (t :: ts) body (pct0, prev0) σ
        = (inr rec,
           recorded σ1 curr (iter_msg t curr p ++ [Said_converged]))).
Proof.
  intros Hup Hz Hmod Hllh curr loss epsilon rec Hcb declared.
  set (s1 := scHPF.set_loss loss (self σ1)).
  assert (Hs1 : scHPF.loss s1 = loss /\ scHPF.epsilon s1 = epsilon)
    by (subst s1 epsilon; by destruct (self σ1)).
  destruct Hs1 as [Hloss Heps].
  destruct (iteration_check_run t pct0 prev0 σ σ1 llh Hup Hz Hmod Hllh)
    as (p & Hp & Hrun).
  { fold curr loss s1. by rewrite Hloss. }
  cbn zeta in Hrun. fold curr loss s1 in Hrun. rewrite Hloss in Hrun.
  fold rec in Hrun, Hp.
  pose proof (check_convergence_Converged_iff s1 (scHPF.loss (self σ1)) pct0
                prev0 curr t min_iter Hloss) as Hiff.
  cbn zeta in Hiff. rewrite Hloss, Heps in Hiff. fold rec in Hiff.
  assert (Hdecl : forall q, declared q (body t (pct0, prev0) σ) ->
            check_convergence s1 rec.1 rec.2 curr t min_iter
            = inr Converged).
  { intros q [_ Hq]. rewrite Hrun in Hq. clear Hrun.
    destruct (check_convergence s1 rec.1 rec.2 curr t min_iter) as [e|[]];
      [done| |done|];
      apply (f_equal (fun rs : _ * state => stdout rs.2)) in Hq;
      cbn in Hq; apply app_inv_head in Hq; destruct verbose;
      by simplify_eq. }
  split; [split|].
  - intros [q Hq]. apply Hiff. by eapply Hdecl.
  - intros Hc. apply Hiff in Hc. exists p. split; [done|].
    by rewrite Hrun, Hc.
  - intros q [_ Hq] ts. by apply for_range_break.
Qed.

(** C2, as the code has it.  During [fit], the degradation rule sits
    inside the block of the convergence test.  At a check (as for C1), a
    degradation stop, that is, ['getting worse break'] printed and the
    loop left by [break], implies that at least 4 loss points exist, that
    [t] is at or past the minimum-iteration floor, that convergence was
    not declared at this check, that more than [better_than_n_ago] loss
    points exist, that the window is nonzero and that the current loss is
    larger in magnitude than the immediately preceding one.  Conversely,
    inside the gate, when this is not the first check of the call (two
    percent changes are recorded), convergence is not declared, more than
    [better_than_n_ago] loss points exist and the window is nonzero, the
    loop stops whenever the current loss is larger in magnitude than the
    preceding loss and than the losses recorded [better_than_n_ago - 1]
    and [better_than_n_ago] checks back.  After the stop no later
    iteration is run. *)
Theorem degradation_stop_gated (t : Z) (pct0 : list float64)
    (prev0 : option float64) (σ σ1 : state) (llh : float64) :
  updated t σ = (inr tt, σ1) ->
  scHPF.check_freq (self σ1) <> 0 ->
  t mod scHPF.check_freq (self σ1) = 0 ->
  pois_llh vX (Some theta) (Some beta) σ1 = (inr llh, σ1) ->
  let curr := ((- llh) / float_of_nat (length (X_data vX)))%float in
  let loss := scHPF.loss (self σ1) ++ [curr] in
  let n := scHPF.better_than_n_ago (self σ1) in
  let rec := record_pct_change loss pct0 prev0 curr in
  (forall p, py_index rec.1 (-1) = Some p -> called t σ1 curr p) ->
  let ends_with (e : event) (p : float64) (run : result _ * state) :=
    py_index rec.1 (-1) = Some p
    /\ run = (inr (Break, rec),
              recorded σ1 curr (iter_msg t curr p ++ [e])) in
  let converged :=
    exists p, ends_with Said_converged p (body t (pct0, prev0) σ) in
  let stopped :=
    exists p, ends_with Said_getting_worse_break p
                (body t (pct0, prev0) σ) in
  (stopped ->
   (4 <= length loss)%nat /\ min_iter <= t /\ ~ converged
   /\ n < Z.of_nat (length loss) /\ n <> 0
   /\ exists l2 : float64,
        py_index loss (-2) = Some l2 /\ (abs l2 <? abs curr)%float = true)
  /\
  ((4 <= length loss)%nat -> min_iter <= t ->
   n < Z.of_nat (length loss) -> n <> 0 ->
   pct0 <> [] ->
   ~ converged ->
   (exists l2 : float64,
      py_index loss (-2) = Some l2 /\ (abs l2 <? abs curr)%float = true) ->
   (exists x : float64,
      py_index loss (- n) = Some x /\ (abs x <? abs curr)%float = true) ->
   (exists y : float64,
      py_index loss (- (n + 1)) = Some y
      /\ (abs y <? abs curr)%float = true) ->
   stopped)
  /\ (forall p,
        ends_with Said_getting_worse_break p (body t (pct0, prev0) σ) ->
        forall ts,
          for_range (t :: ts) body (pct0, prev0) σ
          = (inr rec,
             recorded σ1 curr
               (iter_msg t curr p ++ [Said_getting_worse_break]))).
Proof.
  intros Hup Hz Hmod Hllh curr loss n rec Hcb ends_with converged stopped.
  set (s1 := scHPF.set_loss loss (self σ1)).
  assert (Hs1 : scHPF.loss s1 = loss /\ scHPF.better_than_n_ago s1 = n)
    by (subst s1 n; by destruct (self σ1)).
  destruct Hs1 as [Hloss Hn].
  destruct (iteration_check_run t pct0 prev0 σ σ1 llh Hup Hz Hmod Hllh)
    as (p & Hp & Hrun).
  { fold curr loss s1. by rewrite Hloss. }
  cbn zeta in Hrun. fold curr loss s1 in Hrun. rewrite Hloss in Hrun.
  fold rec in Hrun, Hp.
  pose proof (check_convergence_Getting_worse s1 (scHPF.loss (self σ1)) pct0
                prev0 curr t min_iter Hloss) as [Hnec Hsuf].
  rewrite Hloss, Hn in Hnec, Hsuf. fold rec in Hnec, Hsuf.
  set (r := check_convergence s1 rec.1 rec.2 curr t min_iter) in *.
  assert (Hconv : converged <-> r = inr Converged).
  { subst converged ends_with. cbn beta. rewrite Hrun. split.
    - intros [q [_ Hq]]. destruct r as [e|[]]; [done| |done|];
        apply (f_equal (fun rs : _ * state => stdout rs.2)) in Hq;
        cbn in Hq; apply app_inv_head in Hq; destruct verbose;
        by simplify_eq.
    - intros ->. by exists p. }
  assert (Hstop : stopped <-> r = inr Getting_worse).
  { subst stopped ends_with. cbn beta. rewrite Hrun. split.
    - intros [q [_ Hq]]. destruct r as [e|[]]; [done| | |done];
        apply (f_equal (fun rs : _ * state => stdout rs.2)) in Hq;
        cbn in Hq; apply app_inv_head in Hq; destruct verbose;
        by simplify_eq.
    - intros ->. by exists p. }
  split_and!.
  - intros Hs. apply Hstop in Hs.
    destruct (Hnec Hs) as (H4 & Hmi & Hlt & Hnz & Hprev).
    split_and!; try done. rewrite Hconv, Hs. done.
  - intros H4 Hmi Hlt Hnz Hpct Hnc Hprev Hx Hy. apply Hstop.
    apply Hsuf; try done.
    + apply py_index_is_Some. subst rec. unfold record_pct_change.
      destruct (py_index loss (-2)); cbn [fst]; rewrite length_app; cbn;
        destruct pct0; cbn; try done; lia.
    + by rewrite <- Hconv.
  - intros q [_ Hq] ts. by apply for_range_break.
Qed.

End check.

(** ** Setup *)

(** What [random_gamma_factory] does, in one equation: for each of the
    two priors the range is checked and the numbers are drawn into a new
    array; then a new block is made when every drawn number is positive. *)
Lemma random_gamma_factory_run (dims : list nat) (sp rp : float64)
    (σ : state) :
  random_gamma_factory dims sp rp σ =
  if is_finite (1.5 * sp - 0.5 * sp)
  then
    let '(s, r1) :=
      np_random_uniform (0.5 * sp) (1.5 * sp) (size_of dims) (random σ) in
    if is_finite (1.5 * rp - 0.5 * rp)
    then
      let '(r, r2) :=
        np_random_uniform (0.5 * rp) (1.5 * rp) (size_of dims) r1 in
      let arrs := arrays σ ++ [NDArray dims s] ++ [NDArray dims r] in
      if forallb pos s && forallb pos r
      then (inr (length (gammas σ)),
            State arrs
              (gammas σ ++ [HPF_Gamma.Obj (length (arrays σ))
                              (S (length (arrays σ))) dims])
              (self σ) r2 (stdout σ))
      else (inl AssertionError, State arrs (gammas σ) (self σ) r2 (stdout σ))
    else (inl OverflowError,
          State (arrays σ ++ [NDArray dims s]) (gammas σ) (self σ) r1
            (stdout σ))
  else (inl OverflowError, σ).
Proof.
  unfold random_gamma_factory, uniform, draw, new_array, HPF_Gamma_init,
    get_array, assert, new_gamma, raise, mbind, M_bind, mret, M_ret.
  destruct (is_finite (1.5 * sp - 0.5 * sp)); [|reflexivity].
  cbn.
  destruct (np_random_uniform _ _ _ (random σ)) as [s r1]. cbn.
  destruct (is_finite (1.5 * rp - 0.5 * rp)); [|reflexivity].
  cbn. destruct (np_random_uniform _ _ _ r1) as [r r2]. cbn.
  rewrite length_app. cbn.
  rewrite <- (assoc_L (++)). cbn.
  rewrite (lookup_app_r (arrays σ)) by lia.
  rewrite Nat.sub_diag. cbn.
  rewrite (lookup_app_r (arrays σ)) by lia.
  replace (length (arrays σ) + 1 - length (arrays σ))%nat with 1%nat by lia.
  cbn. rewrite bool_decide_eq_true_2 by done. cbn.
  unfold all_pos. cbn.
  replace (length (arrays σ) + 1)%nat with (S (length (arrays σ))) by lia.
  destruct (forallb pos s); cbn; [|reflexivity].
  destruct (forallb pos r); reflexivity.
Qed.

Lemma quiet_factory (dims : list nat) (sp rp : float64) :
  quiet (random_gamma_factory dims sp rp).
Proof.
  intros σ. rewrite random_gamma_factory_run.
  destruct (is_finite (1.5 * sp - 0.5 * sp));
    [|cbn; repeat split; intros ? [=]; auto].
  destruct (np_random_uniform _ _ _ (random σ)) as [s r1].
  destruct (is_finite (1.5 * rp - 0.5 * rp));
    [|cbn; repeat split; intros ? [=]; auto].
  destruct (np_random_uniform _ _ _ r1) as [r r2]. cbn.
  destruct (forallb pos s && forallb pos r); cbn; repeat split;
    intros ? [=]; auto.
Qed.

Lemma quiet_reinit_or (reinit : bool) (g : option loc) (make : M loc) :
  quiet make -> quiet (reinit_or reinit g make).
Proof.
  intros Hm. unfold reinit_or. destruct g as [l|]; [|done].
  destruct reinit; [done|]. intros σ. by cbn.
Qed.

Lemma setup_blocks_spec (s : scHPF.obj) (X : coo_matrix)
    (freeze_genes reinit : bool) (bp dp : float64) (σ : state) :
  stdout (setup_blocks s X freeze_genes reinit bp dp σ).2 = stdout σ
  /\ self (setup_blocks s X freeze_genes reinit bp dp σ).2 = self σ
  /\ match (setup_blocks s X freeze_genes reinit bp dp σ).1 with
     | inl e =>
         e = AssertionError \/ e = OverflowError
         \/ (e = ValueError msg_freeze /\ freeze_genes = true
             /\ (scHPF.eta s = None \/ scHPF.beta s = None))
     | inr (bp', dp', _, _, _, _) => bp' = bp /\ dp' = dp
     end.
Proof.
  unfold setup_blocks. destruct (X_shape X) as [ncells ngenes].
  rewrite run_bind.
  match goal with |- context [reinit_or ?a ?b ?m σ] =>
    destruct (quiet_reinit_or a b m (quiet_factory _ _ _) σ) as (O1 & S1 & E1);
    destruct (reinit_or a b m σ) as [[e|xi] σ1] end; cbn in O1, S1, E1.
  { cbn. repeat split; try done. destruct (E1 _ eq_refl); auto. }
  rewrite run_bind.
  match goal with |- context [reinit_or ?a ?b ?m σ1] =>
    destruct (quiet_reinit_or a b m (quiet_factory _ _ _) σ1) as (O2 & S2 & E2);
    destruct (reinit_or a b m σ1) as [[e|theta] σ2] end; cbn in O2, S2, E2.
  { cbn. repeat split; try congruence. destruct (E2 _ eq_refl); auto. }
  rewrite run_bind.
  destruct freeze_genes.
  - destruct (scHPF.eta s) as [eta|], (scHPF.beta s) as [beta|]; cbn;
      repeat split; try congruence; right; right; repeat split; auto.
  - rewrite run_bind.
    match goal with |- context [reinit_or ?a ?b ?m σ2] =>
      destruct (quiet_reinit_or a b m (quiet_factory _ _ _) σ2)
        as (O3 & S3 & E3);
      destruct (reinit_or a b m σ2) as [[e|eta] σ3] end; cbn in O3, S3, E3.
    { cbn. repeat split; try congruence. destruct (E3 _ eq_refl); auto. }
    rewrite run_bind.
    match goal with |- context [reinit_or ?a ?b ?m σ3] =>
      destruct (quiet_reinit_or a b m (quiet_factory _ _ _) σ3)
        as (O4 & S4 & E4);
      destruct (reinit_or a b m σ3) as [[e|beta] σ4] end; cbn in O4, S4, E4.
    { cbn. repeat split; try congruence. destruct (E4 _ eq_refl); auto. }
    cbn. repeat split; congruence.
Qed.

(** [setup_hyperparameters] in one equation *)
Lemma setup_hyperparameters_run (s : scHPF.obj) (X : coo_matrix)
    (freeze_genes clip : bool) (σ : state) :
  let bp :=
    match scHPF.bp s with
    | None => (scHPF.ap s * mean_var_ratio X 1)%float
    | Some b => b
    end in
  let estimate := (scHPF.cp s * mean_var_ratio X 0)%float in
  setup_hyperparameters s X freeze_genes clip σ =
  match scHPF.dp s with
  | Some d => (inr (bp, d), σ)
  | None =>
      if freeze_genes then (inl (ValueError msg_dp), σ)
      else if clip && (1000 * estimate <? bp)%float
      then (inr (bp, (bp / 1000)%float),
            State (arrays σ) (gammas σ) (self σ) (random σ)
              (stdout σ ++ [Clipping_dp estimate (bp / 1000)%float]))
      else (inr (bp, estimate), σ)
  end.
Proof.
  intros bp estimate. unfold setup_hyperparameters.
  destruct (scHPF.dp s) as [d|]; [reflexivity|].
  destruct freeze_genes; [reflexivity|].
  fold bp estimate.
  destruct (clip && (1000 * estimate <? bp)%float); reflexivity.
Qed.

Ltac blocks_cases Ho Hs Hr :=
  match goal with
  | |- context [setup_blocks ?a1 ?a2 ?a3 ?a4 ?a5 ?a6 ?a7] =>
      destruct (setup_blocks_spec a1 a2 a3 a4 a5 a6 a7) as (Ho & Hs & Hr);
      destruct (setup_blocks a1 a2 a3 a4 a5 a6 a7)
        as [[?|[[[[[? ?] ?] ?] ?] ?]] ?]
  end;
  cbn [fst snd] in *.

(** C4, as the code has it.  The clip is applied to a [d'] that setup
    estimates itself: when the estimator has no [d'], the gene side is not
    frozen and clipping is on, then if [b'] exceeds 1000 times the
    estimate, [d'] becomes exactly [b'/1000] and the adjustment is printed;
    otherwise the estimate is kept and nothing is printed.  A [d'] that
    the estimator already holds is returned as it is and nothing is
    printed, however large [b'] is. *)
Theorem clip_applies_to_estimated_dp (X : coo_matrix)
    (freeze_genes reinit clip : bool) (σ : state) :
  let s := self σ in
  let bp :=
    match scHPF.bp s with
    | None => (scHPF.ap s * mean_var_ratio X 1)%float
    | Some b => b
    end in
  let estimate := (scHPF.cp s * mean_var_ratio X 0)%float in
  let run := _setup X freeze_genes reinit clip σ in
  match scHPF.dp s with
  | None =>
      freeze_genes = false -> clip = true ->
      if (1000 * estimate <? bp)%float
      then stdout run.2 = stdout σ ++ [Clipping_dp estimate (bp / 1000)%float]
           /\ returns_dp run.1 (bp / 1000)%float
      else stdout run.2 = stdout σ /\ returns_dp run.1 estimate
  | Some d => stdout run.2 = stdout σ /\ returns_dp run.1 d
  end.
Proof.
  intros s bp estimate run. subst run.
  unfold _setup. rewrite run_bind. cbn [get_self]. fold s.
  rewrite run_bind, setup_hyperparameters_run. fold bp estimate.
  destruct (scHPF.dp s) as [d|].
  - blocks_cases Ho Hs Hr; (split; [done|]); intros ? ? ? ? ? ? [=].
    subst. by destruct Hr.
  - intros -> ->. cbn [andb].
    destruct (1000 * estimate <? bp)%float.
    + blocks_cases Ho Hs Hr; (split; [done|]); intros ? ? ? ? ? ? [=].
      subst. by destruct Hr.
    + blocks_cases Ho Hs Hr; (split; [done|]); intros ? ? ? ? ? ? [=].
      subst. by destruct Hr.
Qed.

(** the configuration errors of [_setup], and the estimate of [d'] *)
Lemma setup_configuration_errors (X : coo_matrix)
    (freeze_genes reinit clip : bool) (σ : state) :
  let s := self σ in
  let run := _setup X freeze_genes reinit clip σ in
  (run.1 = inl (ValueError msg_dp)
   <-> scHPF.dp s = None /\ freeze_genes = true)
  /\ (scHPF.dp s = None -> freeze_genes = true ->
      run = (inl (ValueError msg_dp), σ))
  /\ (freeze_genes = false -> is_ValueError run.1 = false)
  /\ (scHPF.dp s = None -> freeze_genes = false ->
      let estimate := (scHPF.cp s * mean_var_ratio X 0)%float in
      let bp :=
        match scHPF.bp s with
        | None => (scHPF.ap s * mean_var_ratio X 1)%float
        | Some b => b
        end in
      returns_dp run.1
        (if clip && (1000 * estimate <? bp)%float
         then (bp / 1000)%float else estimate))
  /\ (is_ValueError run.1 = true ->
      freeze_genes = true
      /\ (scHPF.dp s = None \/ scHPF.eta s = None \/ scHPF.beta s = None)).
Proof.
  intros s run. subst run.
  assert (Hmsg : ValueError msg_freeze <> ValueError msg_dp) by (by intros [=]).
  unfold _setup. rewrite run_bind. cbn [get_self]. fold s.
  rewrite run_bind, setup_hyperparameters_run.
  destruct (scHPF.dp s) as [d|]; [|destruct freeze_genes].
  - blocks_cases Ho Hs Hr; split_and!; try split; intros;
      unfold returns_dp, is_ValueError in *; naive_solver.
  - cbn [fst snd]. split_and!; try split; intros;
      unfold returns_dp, is_ValueError in *; naive_solver.
  - destruct (clip && _) eqn:Hclip;
      blocks_cases Ho Hs Hr; split_and!; try split; intros;
      unfold returns_dp, is_ValueError in *; naive_solver.
Qed.

(** the cell side raises nothing but what the factory raises *)
Lemma cell_blocks_raises (s : scHPF.obj) (X : coo_matrix) (reinit : bool)
    (bp : float64) (σ : state) (e : exn) :
  (cell_blocks s X reinit bp σ).1 = inl e ->
  e = AssertionError \/ e = OverflowError.
Proof.
  unfold cell_blocks. rewrite run_bind.
  match goal with |- context [reinit_or ?a ?b ?m σ] =>
    destruct (quiet_reinit_or a b m (quiet_factory _ _ _) σ) as (_ & _ & E1);
    destruct (reinit_or a b m σ) as [[e1|xi] σ1] end; cbn in E1 |- *.
  { intros [= <-]. by apply E1. }
  rewrite run_bind.
  match goal with |- context [reinit_or ?a ?b ?m σ1] =>
    destruct (quiet_reinit_or a b m (quiet_factory _ _ _) σ1) as (_ & _ & E2);
    destruct (reinit_or a b m σ1) as [[e2|theta] σ2] end; cbn in E2 |- *.
  { intros [= <-]. by apply E2. }
  done.
Qed.

(** [_setup] with the gene side frozen and [d'] at hand: the cell side
    first, then the test of [eta] and [beta] *)
Lemma setup_frozen_run (X : coo_matrix) (reinit clip : bool) (d : float64)
    (σ : state) :
  scHPF.dp (self σ) = Some d ->
  _setup X true reinit clip σ =
  match cell_blocks (self σ) X reinit (resolved_bp (self σ) X) σ with
  | (inl e, σ') => (inl e, σ')
  | (inr (xi, theta), σ') =>
      match scHPF.eta (self σ), scHPF.beta (self σ) with
      | Some eta, Some beta =>
          (inr (resolved_bp (self σ) X, d, xi, eta, theta, beta), σ')
      | _, _ => (inl (ValueError msg_freeze), σ')
      end
  end.
Proof.
  intros Hd. unfold _setup. rewrite run_bind. cbn [get_self].
  rewrite run_bind, setup_hyperparameters_run, Hd.
  unfold setup_blocks, cell_blocks, resolved_bp.
  destruct (X_shape X) as [ncells ngenes]. cbn [fst].
  rewrite !run_bind.
  match goal with |- context [reinit_or ?a ?b ?m σ] =>
    destruct (reinit_or a b m σ) as [[e1|xi] σ1] end; [done|].
  rewrite !run_bind.
  match goal with |- context [reinit_or ?a ?b ?m σ1] =>
    destruct (reinit_or a b m σ1) as [[e2|theta] σ2] end; [done|].
  rewrite run_ret, run_bind.
  by destruct (scHPF.eta (self σ)), (scHPF.beta (self σ)).
Qed.

(** C7, as the code has it.  Setup raises the missing-[d'] configuration
    error, before it changes anything, exactly when the estimator has no
    [d'] and the gene side is frozen.  With the gene side not frozen setup
    raises no configuration error at all, and a missing [d'] is estimated
    from the data (and possibly clipped).  Setup raises its other
    configuration error, for missing gene blocks, exactly when the gene
    side is frozen, [d'] is at hand, [eta] or [beta] is missing and the
    cell side, which comes first, went through: [xi] and [theta] were
    reused, or created without failure.  So it does on a warm start
    ([reinit=False]) of an estimator that has [xi] and [theta], with the
    store unchanged; a failed creation of [xi] or [theta] raises
    [AssertionError] or [OverflowError] instead.  Any configuration error
    of setup comes with the gene side frozen and [d'], [eta] or [beta]
    missing. *)
Theorem missing_dp_error_iff (X : coo_matrix)
    (freeze_genes reinit clip : bool) (σ : state) :
  let s := self σ in
  let run := _setup X freeze_genes reinit clip σ in
  (run.1 = inl (ValueError msg_dp)
   <-> scHPF.dp s = None /\ freeze_genes = true)
  /\ (scHPF.dp s = None -> freeze_genes = true ->
      run = (inl (ValueError msg_dp), σ))
  /\ (freeze_genes = false -> is_ValueError run.1 = false)
  /\ (scHPF.dp s = None -> freeze_genes = false ->
      let estimate := (scHPF.cp s * mean_var_ratio X 0)%float in
      let bp :=
        match scHPF.bp s with
        | None => (scHPF.ap s * mean_var_ratio X 1)%float
        | Some b => b
        end in
      returns_dp run.1
        (if clip && (1000 * estimate <? bp)%float
         then (bp / 1000)%float else estimate))
  /\ (is_ValueError run.1 = true ->
      freeze_genes = true
      /\ (scHPF.dp s = None \/ scHPF.eta s = None \/ scHPF.beta s = None))
  /\ (run.1 = inl (ValueError msg_freeze)
      <-> freeze_genes = true
          /\ is_Some (scHPF.dp s)
          /\ (scHPF.eta s = None \/ scHPF.beta s = None)
          /\ exists cells,
               (cell_blocks s X reinit (resolved_bp s X) σ).1 = inr cells)
  /\ (freeze_genes = true -> is_Some (scHPF.dp s) ->
      scHPF.eta s = None \/ scHPF.beta s = None ->
      reinit = false -> is_Some (scHPF.xi s) -> is_Some (scHPF.theta s) ->
      run = (inl (ValueError msg_freeze), σ))
  /\ (freeze_genes = true -> is_Some (scHPF.dp s) ->
      forall e, (cell_blocks s X reinit (resolved_bp s X) σ).1 = inl e ->
      run.1 = inl e /\ (e = AssertionError \/ e = OverflowError)).
Proof.
  intros s run.
  destruct (setup_configuration_errors X freeze_genes reinit clip σ)
    as (H1 & H2 & H3 & H4 & H5).
  fold s run in H1, H2, H3, H4, H5.
  split_and!; try done.
  - split.
    + intros Hrun.
      assert (Hv : is_ValueError run.1 = true) by (by rewrite Hrun).
      destruct (H5 Hv) as [-> Hmiss].
      destruct (scHPF.dp s) as [d|] eqn:Hd.
      2:{ rewrite (H2 eq_refl eq_refl) in Hrun. by cbn in Hrun. }
      subst run. rewrite (setup_frozen_run X reinit clip d σ Hd) in Hrun.
      fold s in Hrun.
      destruct (cell_blocks s X reinit (resolved_bp s X) σ)
        as [[e|[xi theta]] σ'] eqn:Hcells; cbn in Hrun.
      { injection Hrun as ->.
        by destruct (cell_blocks_raises s X reinit (resolved_bp s X) σ
                       (ValueError msg_freeze)); [rewrite Hcells|..]. }
      split_and!; [done|by eexists| |by eexists].
      destruct (scHPF.eta s), (scHPF.beta s); auto; by cbn in Hrun.
    + intros (-> & [d Hd] & Hmiss & [[xi theta] Hcells]).
      subst run. rewrite (setup_frozen_run X reinit clip d σ Hd). fold s.
      destruct (cell_blocks s X reinit (resolved_bp s X) σ)
        as [[e|[xi' theta']] σ']; cbn in Hcells; [done|].
      by destruct Hmiss as [-> | ->]; [|destruct (scHPF.eta s)].
  - intros -> [d Hd] Hmiss -> [xi Hxi] [theta Hth].
    subst run. rewrite (setup_frozen_run X false clip d σ Hd). fold s.
    unfold cell_blocks. rewrite Hxi, Hth. cbn.
    by destruct Hmiss as [-> | ->]; [|destruct (scHPF.eta s)].
  - intros -> [d Hd] e He.
    split; [|by eapply cell_blocks_raises].
    subst run. rewrite (setup_frozen_run X reinit clip d σ Hd). fold s.
    by destruct (cell_blocks s X reinit (resolved_bp s X) σ)
      as [[e'|[xi theta]] σ']; cbn in *; simplify_eq.
Qed.

(** ** The likelihood scorer *)

Lemma row_zip_with {A} (f : float64 -> float64 -> A) (k : nat)
    (l m : list float64) (i : nat) :
  take k (drop (i * k) (zip_with f l m)) = zip_with f (row k l i) (row k m i).
Proof. unfold row. by rewrite zip_with_drop, zip_with_take. Qed.

Lemma forallb_ltb (n : nat) (l : list nat) :
  Forall (fun i => (i < n)%nat) l -> forallb (fun i => (i <? n)%nat) l = true.
Proof.
  intros Hl. apply forallb_forall. intros i Hi.
  rewrite Forall_forall in Hl. apply Nat.ltb_lt, Hl. by apply list_elem_of_In.
Qed.

(** the numpy branch on two blocks of [k] factors *)
Lemma pois_llh_numpy_run (X : coo_matrix) (n m k : nat)
    (ts tr bs br : list float64) :
  Forall (fun i => (i < n)%nat) (X_row X) ->
  Forall (fun j => (j < m)%nat) (X_col X) ->
  length (X_row X) = length (X_data X) ->
  length (X_col X) = length (X_data X) ->
  pois_llh_numpy X
    (NDArray [n; k] (zip_with PrimFloat.div ts tr))
    (NDArray [m; k] (zip_with PrimFloat.div bs br))
  = inr (NDArray [length (X_data X)]
           (zip_with pois_llh_entry (X_data X)
              (zip_with (dot_rate k ts tr bs br) (X_row X) (X_col X)))).
Proof.
  intros Hr Hc Hlr Hlc. unfold pois_llh_numpy, np_take_rows. cbn [shape data].
  rewrite (forallb_ltb _ _ Hr), (forallb_ltb _ _ Hc).
  rewrite !length_map.
  rewrite bool_decide_eq_true_2 by (split; congruence).
  rewrite zip_with_fmap_l, zip_with_fmap_r.
  assert (Hlen : length (zip_with
            (fun x y => np_sum (zip_with PrimFloat.mul
               (row k (zip_with PrimFloat.div ts tr) x)
               (row k (zip_with PrimFloat.div bs br) y)))
            (X_row X) (X_col X)) = length (X_data X)).
  { rewrite length_zip_with. lia. }
  rewrite bool_decide_eq_true_2 by done.
  rewrite Hlen. do 3 f_equal.
  apply zip_with_ext; [|done..].
  intros r c. unfold dot_rate. f_equal.
  unfold row at 1 2. by rewrite !row_zip_with.
Qed.

(** C6.  For two loading blocks of [k] factors, whichever way the scorer
    takes (the kernel of [hpf_numba], as the spec describes it, or the
    numpy expression), [pois_llh_pointwise] returns one number per
    observed entry, the store untouched: for the entry [i] of row [r],
    column [c] and value [v] it is [v * log(rate) - rate - logGamma(v + 1)]
    with [rate] the sum over the factors of [E[theta_(r,.)] * E[beta_(c,.)]],
    each expectation being [shape / rate] of the block; and [pois_llh] is
    the sum of these numbers. *)
Theorem pois_llh_pointwise_formula (X : coo_matrix) (σ : state)
    (theta beta : loc) (ot ob : HPF_Gamma.obj) (ts tr bs br : ndarray)
    (n m k : nat) :
  compute_pois_llh = None \/ compute_pois_llh = Some compute_pois_llh_spec ->
  gammas σ !! theta = Some ot -> gammas σ !! beta = Some ob ->
  arrays σ !! HPF_Gamma.vi_shape ot = Some ts ->
  arrays σ !! HPF_Gamma.vi_rate ot = Some tr ->
  arrays σ !! HPF_Gamma.vi_shape ob = Some bs ->
  arrays σ !! HPF_Gamma.vi_rate ob = Some br ->
  shape ts = [n; k] -> shape tr = [n; k] ->
  shape bs = [m; k] -> shape br = [m; k] ->
  Forall (fun i => (i < n)%nat) (X_row X) ->
  Forall (fun j => (j < m)%nat) (X_col X) ->
  length (X_row X) = length (X_data X) ->
  length (X_col X) = length (X_data X) ->
  exists llh : list float64,
    pois_llh_pointwise X (Some theta) (Some beta) σ
      = (inr (NDArray [length (X_data X)] llh), σ)
    /\ pois_llh X (Some theta) (Some beta) σ = (inr (np_sum llh), σ)
    /\ length llh = length (X_data X)
    /\ forall (i r c : nat) (v : float64),
         X_row X !! i = Some r -> X_col X !! i = Some c ->
         X_data X !! i = Some v ->
         let rate :=
           np_sum (zip_with PrimFloat.mul
                     (zip_with PrimFloat.div (row k (data ts) r)
                        (row k (data tr) r))
                     (zip_with PrimFloat.div (row k (data bs) c)
                        (row k (data br) c))) in
         llh !! i = Some (v * np_log rate - rate - gammaln (v + 1))%float.
Proof.
  intros Hk Ht Hb Hts Htr Hbs Hbr Sts Str Sbs Sbr Hr Hc Hlr Hlc.
  exists (zip_with pois_llh_entry (X_data X)
            (zip_with (dot_rate k (data ts) (data tr) (data bs) (data br))
               (X_row X) (X_col X))).
  assert (Hrun : pois_llh_pointwise X (Some theta) (Some beta) σ
            = (inr (NDArray [length (X_data X)]
                 (zip_with pois_llh_entry (X_data X)
                    (zip_with (dot_rate k (data ts) (data tr) (data bs)
                                 (data br)) (X_row X) (X_col X)))), σ)).
  { unfold pois_llh_pointwise. rewrite run_bind. cbn [get_self].
    destruct Hk as [-> | ->].
    - rewrite run_bind. cbn [attr]. rewrite run_ret.
      rewrite run_bind, (e_x_run _ _ _ _ _ Ht Hts Htr).
      unfold np_div at 1. rewrite Sts, Str, decide_True by done.
      rewrite run_bind. cbn [attr]. rewrite run_ret.
      rewrite run_bind, (e_x_run _ _ _ _ _ Hb Hbs Hbr).
      unfold np_div at 1. rewrite Sbs, Sbr, decide_True by done.
      unfold lift. by rewrite pois_llh_numpy_run.
    - rewrite run_bind. cbn [attr]. rewrite run_ret.
      rewrite run_bind, (vi_shape_run _ _ _ _ Ht Hts).
      rewrite run_bind, (vi_rate_run _ _ _ _ Ht Htr).
      rewrite run_bind. cbn [attr]. rewrite run_ret.
      rewrite run_bind, (vi_shape_run _ _ _ _ Hb Hbs).
      rewrite run_bind, (vi_rate_run _ _ _ _ Hb Hbr).
      rewrite run_ret. unfold compute_pois_llh_spec. by rewrite Sts. }
  split; [exact Hrun|]. split; [|split].
  - unfold pois_llh. by rewrite run_bind, Hrun.
  - rewrite !length_zip_with. lia.
  - intros i r c v Hi Hj Hv rate.
    rewrite lookup_zip_with, Hv. cbn.
    rewrite lookup_zip_with, Hi. cbn. rewrite Hj. cbn.
    reflexivity.
Qed.

(** ** What a run leaves untouched *)

Section Frame.
Variables (σ0 : state) (n0 m0 : nat).

Local Abbreviation kept := (kept_in σ0 n0 m0).
Local Abbreviation ok := (ok_in σ0 n0 m0).
Local Abbreviation new_blocks := (new_blocks_in σ0 m0).
Local Abbreviation keeps_frame := (keeps_frame_in σ0 n0 m0).

Lemma ok_ret {A} (x : A) (Φ : A -> Prop) : Φ x -> ok (mret x) Φ.
Proof. intros Hx σ Hσ. split; [done|]. by intros ? [= <-]. Qed.

Lemma ok_bind {A B} (m : M A) (k : A -> M B) (Φ : A -> Prop)
    (Ψ : B -> Prop) :
  ok m Φ -> (forall x, Φ x -> ok (k x) Ψ) -> ok (m ≫= k) Ψ.
Proof.
  intros Hm Hk σ Hσ. rewrite run_bind.
  destruct (Hm σ Hσ) as [Hkept HΦ].
  destruct (m σ) as [[e|x] σ']; cbn in *; [by split|].
  by apply Hk; [apply HΦ|].
Qed.

Lemma ok_mono {A} (m : M A) (Φ Ψ : A -> Prop) :
  ok m Φ -> (forall x, Φ x -> Ψ x) -> ok m Ψ.
Proof.
  intros Hm HΦ σ Hσ. destruct (Hm σ Hσ) as [? ?]. split; [done|]. auto.
Qed.

Lemma ok_reads {A} (m : M A) : reads m -> ok m (fun _ => True).
Proof. intros Hm σ Hσ. by rewrite Hm. Qed.

Lemma reads_ret {A} (x : A) : reads (mret x : M A).
Proof. by intros σ. Qed.

Lemma reads_raise {A} (e : exn) : reads (raise e : M A).
Proof. by intros σ. Qed.

Lemma reads_lift {A} (r : result A) : reads (lift r).
Proof. by intros σ. Qed.

Lemma reads_bind {A B} (m : M A) (k : A -> M B) :
  reads m -> (forall x, reads (k x)) -> reads (m ≫= k).
Proof.
  intros Hm Hk σ. rewrite run_bind. specialize (Hm σ).
  destruct (m σ) as [[e|x] σ']; cbn in *; [done|]. subst σ'. apply Hk.
Qed.

Lemma reads_get_array (l : loc) : reads (get_array l).
Proof. intros σ. unfold get_array. by destruct (arrays σ !! l). Qed.

Lemma reads_get_gamma (g : loc) : reads (get_gamma g).
Proof. intros σ. unfold get_gamma. by destruct (gammas σ !! g). Qed.

Lemma reads_get_self : reads get_self.
Proof. by intros σ. Qed.

Lemma reads_attr (o : option loc) : reads (attr o).
Proof. destruct o; [apply reads_ret|apply reads_raise]. Qed.

Lemma reads_vi_shape (g : loc) : reads (vi_shape g).
Proof.
  apply reads_bind; [apply reads_get_gamma|]. intros. apply reads_get_array.
Qed.

Lemma reads_vi_rate (g : loc) : reads (vi_rate g).
Proof.
  apply reads_bind; [apply reads_get_gamma|]. intros. apply reads_get_array.
Qed.

Lemma reads_e_x (g : loc) : reads (e_x g).
Proof.
  apply reads_bind; [apply reads_vi_shape|]. intros.
  apply reads_bind; [apply reads_vi_rate|]. intros. apply reads_lift.
Qed.

Lemma reads_pois_llh_pointwise (X : coo_matrix) (theta beta : option loc) :
  reads (pois_llh_pointwise X theta beta).
Proof.
  apply reads_bind; [apply reads_get_self|]. intros s.
  destruct compute_pois_llh as [kernel|].
  - repeat (apply reads_bind;
      [first [apply reads_attr | apply reads_vi_shape | apply reads_vi_rate]
      |intros]).
    apply reads_ret.
  - repeat (apply reads_bind;
      [first [apply reads_attr | apply reads_e_x]|intros]).
    apply reads_lift.
Qed.

Lemma reads_pois_llh (X : coo_matrix) (theta beta : option loc) :
  reads (pois_llh X theta beta).
Proof.
  apply reads_bind; [apply reads_pois_llh_pointwise|]. intros.
  apply reads_ret.
Qed.

(** the primitive commands *)

Lemma ok_new_array (x : ndarray) :
  ok (new_array x) (fun l => (n0 <= l)%nat).
Proof.
  intros σ (Ha & Hn & Hg & Hm & Hf & Hc & Hl). split.
  - unfold kept_in. cbn. rewrite length_app, take_app_le by done.
    split_and!; try done. lia.
  - cbn. by intros ? [= <-].
Qed.

Lemma ok_set_array (l : loc) (x : ndarray) :
  (n0 <= l)%nat -> ok (set_array l x) (fun _ => True).
Proof.
  intros Hfresh σ (Ha & Hn & Hg & Hm & Hf & Hc & Hl). split; [|done].
  unfold kept_in. cbn. rewrite length_insert, take_insert_ge by done.
  by split_and!.
Qed.

Lemma ok_new_gamma (o : HPF_Gamma.obj) :
  (n0 <= HPF_Gamma.vi_shape o)%nat -> (n0 <= HPF_Gamma.vi_rate o)%nat ->
  ok (new_gamma o) (fun g => (m0 <= g)%nat).
Proof.
  intros Hs Hr σ (Ha & Hn & Hg & Hm & Hf & Hc & Hl). split.
  - unfold kept_in. cbn. rewrite length_app, take_app_le by done.
    split_and!; try done; [lia|].
    intros g o' Hge Hlk.
    apply lookup_app_Some in Hlk as [Ho|[_ Ho]]; [eauto|].
    apply list_lookup_singleton_Some in Ho as [_ <-]. done.
  - cbn. by intros ? [= <-].
Qed.

Lemma ok_set_gamma (g : loc) (o : HPF_Gamma.obj) :
  (m0 <= g)%nat ->
  (n0 <= HPF_Gamma.vi_shape o)%nat -> (n0 <= HPF_Gamma.vi_rate o)%nat ->
  ok (set_gamma g o) (fun _ => True).
Proof.
  intros Hfresh Hs Hr σ (Ha & Hn & Hg & Hm & Hf & Hc & Hl). split; [|done].
  unfold kept_in. cbn. rewrite length_insert, take_insert_ge by done.
  split_and!; try done.
  intros g' o' Hge Hlk.
  apply list_lookup_insert_Some in Hlk as [(_ & <- & _)|[_ Ho]]; eauto.
Qed.

Lemma ok_get_gamma (g : loc) :
  (m0 <= g)%nat ->
  ok (get_gamma g)
    (fun o => (n0 <= HPF_Gamma.vi_shape o)%nat
              /\ (n0 <= HPF_Gamma.vi_rate o)%nat).
Proof.
  intros Hfresh σ Hσ. rewrite reads_get_gamma. split; [done|].
  intros o. unfold get_gamma.
  destruct (gammas σ !! g) as [o'|] eqn:Ho; cbn; [|done].
  intros [= <-]. destruct Hσ as (_ & _ & _ & _ & Hf & _). eauto.
Qed.

Lemma ok_get_self :
  ok get_self (fun s => same_config s (self σ0)).
Proof.
  intros σ Hσ. split; [done|]. cbn. intros s [= <-].
  by destruct Hσ as (_ & _ & _ & _ & _ & Hc & _).
Qed.

Lemma ok_print (e : event) : ok (print e) (fun _ => True).
Proof. by intros σ Hσ. Qed.

Lemma ok_draw {A} (f : rng -> A * rng) : ok (draw f) (fun _ => True).
Proof.
  intros σ Hσ. unfold draw. by destruct (f (random σ)) as [x r].
Qed.

(** [self.loss.append(x)] *)
Lemma ok_append (x : float64) : ok (loss_append x) (fun _ => True).
Proof.
  intros σ (Ha & Hn & Hg & Hm & Hf & Hc & Hl). split; [|done].
  unfold kept_in. cbn. split_and!; try done.
  by apply prefix_app_r.
Qed.

Lemma ok_raise {A} (e : exn) (Φ : A -> Prop) : ok (raise e) Φ.
Proof. by intros σ Hσ. Qed.

Lemma ok_assert (b : bool) : ok (assert b) (fun _ => True).
Proof. destruct b; [by apply ok_ret|apply ok_raise]. Qed.

(** the methods of [HPF_Gamma] *)

Lemma ok_set_vi_shape (g : loc) (x : ndarray) :
  (m0 <= g)%nat -> ok (set_vi_shape g x) (fun _ => True).
Proof.
  intros Hg. eapply ok_bind; [by apply ok_get_gamma|]. intros o [Hs Hr].
  eapply ok_bind; [apply ok_new_array|]. intros l Hl.
  by apply ok_set_gamma.
Qed.

Lemma ok_set_vi_rate (g : loc) (x : ndarray) :
  (m0 <= g)%nat -> ok (set_vi_rate g x) (fun _ => True).
Proof.
  intros Hg. eapply ok_bind; [by apply ok_get_gamma|]. intros o [Hs Hr].
  eapply ok_bind; [apply ok_new_array|]. intros l Hl.
  by apply ok_set_gamma.
Qed.

Lemma ok_fill_vi_shape (g : loc) (v : float64) :
  (m0 <= g)%nat -> ok (fill_vi_shape g v) (fun _ => True).
Proof.
  intros Hg. eapply ok_bind; [by apply ok_get_gamma|]. intros o [Hs Hr].
  eapply ok_bind; [apply ok_reads, reads_get_array|]. intros x _.
  by apply ok_set_array.
Qed.

Lemma ok_HPF_Gamma_init (ls lr : loc) :
  (n0 <= ls)%nat -> (n0 <= lr)%nat ->
  ok (HPF_Gamma_init ls lr) (fun g => (m0 <= g)%nat).
Proof.
  intros Hs Hr.
  eapply ok_bind; [apply ok_reads, reads_get_array|]. intros s _.
  eapply ok_bind; [apply ok_reads, reads_get_array|]. intros r _.
  do 3 (eapply ok_bind; [apply ok_assert|]; intros _ _).
  by apply ok_new_gamma.
Qed.

Lemma ok_uniform (low high : float64) (size : nat) :
  ok (uniform low high size) (fun _ => True).
Proof.
  unfold uniform. destruct (is_finite _); [apply ok_draw|apply ok_raise].
Qed.

Lemma ok_random_gamma_factory (dims : list nat) (sp rp : float64) :
  ok (random_gamma_factory dims sp rp) (fun g => (m0 <= g)%nat).
Proof.
  eapply ok_bind; [apply ok_uniform|]. intros s _.
  eapply ok_bind; [apply ok_new_array|]. intros ls Hs.
  eapply ok_bind; [apply ok_uniform|]. intros r _.
  eapply ok_bind; [apply ok_new_array|]. intros lr Hr.
  by apply ok_HPF_Gamma_init.
Qed.

Lemma ok_update_capacity_rate (g : loc) (prior : float64) (loading : loc) :
  (m0 <= g)%nat -> ok (update_capacity_rate g prior loading) (fun _ => True).
Proof.
  intros Hg. eapply ok_bind; [apply ok_reads, reads_e_x|]. intros e _.
  eapply ok_bind; [apply ok_reads, reads_lift|]. intros r _.
  by apply ok_set_vi_rate.
Qed.

(** setup: with [reinit] the blocks it returns are new ones (all four
    unless the gene side is frozen); without, nothing is said of them, and
    the frame must be the empty one *)

Lemma ok_reinit_or (reinit : bool) (g : option loc) (make : M loc) :
  reinit = true \/ m0 = 0%nat ->
  ok make (fun g => (m0 <= g)%nat) ->
  ok (reinit_or reinit g make) (fun g => (m0 <= g)%nat).
Proof.
  intros Hre Hmake. unfold reinit_or. destruct g as [l|]; [|done].
  destruct reinit; [done|]. apply ok_ret. destruct Hre; [done|lia].
Qed.

Lemma ok_setup_hyperparameters (s : scHPF.obj) (X : coo_matrix)
    (freeze_genes clip : bool) :
  ok (setup_hyperparameters s X freeze_genes clip)
     (fun r => r.1 = resolved_bp s X).
Proof.
  intros σ Hσ. rewrite setup_hyperparameters_run.
  destruct (scHPF.dp s); [|destruct freeze_genes; [|destruct (clip && _)]];
    cbn; (split; [done|]); by intros ? [= <-].
Qed.

Lemma ok_setup_blocks (s : scHPF.obj) (X : coo_matrix)
    (freeze_genes reinit : bool) (bp dp : float64) :
  reinit = true \/ m0 = 0%nat ->
  bp = resolved_bp (self σ0) X ->
  ok (setup_blocks s X freeze_genes reinit bp dp) (new_blocks X freeze_genes).
Proof.
  intros Hre Hbp. unfold setup_blocks. destruct (X_shape X) as [ncells ngenes].
  eapply ok_bind;
    [by apply ok_reinit_or, ok_random_gamma_factory|]. intros xi Hxi.
  eapply ok_bind;
    [by apply ok_reinit_or, ok_random_gamma_factory|]. intros theta Hth.
  eapply (ok_bind _ _ (fun r => freeze_genes = false ->
                                (m0 <= r.1)%nat /\ (m0 <= r.2)%nat)).
  - destruct freeze_genes.
    + destruct (scHPF.eta s), (scHPF.beta s);
        first [by apply ok_ret | apply ok_raise].
    + eapply ok_bind;
        [by apply ok_reinit_or, ok_random_gamma_factory|]. intros eta Heta.
      eapply ok_bind;
        [by apply ok_reinit_or, ok_random_gamma_factory|]. intros beta Hbe.
      by apply ok_ret.
  - intros [eta beta] Hgenes. by apply ok_ret.
Qed.

Lemma resolved_bp_same (s s' : scHPF.obj) (X : coo_matrix) :
  same_config s s' -> resolved_bp s X = resolved_bp s' X.
Proof.
  unfold same_config, resolved_bp. destruct s, s'. cbn. by intros [=]; subst.
Qed.

Lemma ok__setup (X : coo_matrix) (freeze_genes reinit clip : bool) :
  reinit = true \/ m0 = 0%nat ->
  ok (_setup X freeze_genes reinit clip) (new_blocks X freeze_genes).
Proof.
  intros Hre. eapply ok_bind; [apply ok_get_self|]. intros s Hs.
  eapply ok_bind; [apply ok_setup_hyperparameters|]. intros [bp dp] Hbp.
  apply ok_setup_blocks; [done|]. cbn in Hbp. subst bp.
  by apply resolved_bp_same.
Qed.

(** the loop *)

Lemma ok_for_range {L} (ts : list Z) (body : Z -> L -> M (loop_ctl * L))
    (l : L) :
  (forall t l, ok (body t l) (fun _ => True)) ->
  ok (for_range ts body l) (fun _ => True).
Proof.
  intros Hbody. revert l. induction ts as [|t ts IH]; intros l; cbn.
  - by apply ok_ret.
  - eapply ok_bind; [apply Hbody|]. intros [[] l'] _; [apply IH|].
    by apply ok_ret.
Qed.

Section loop.
Variables (X : coo_matrix) (validation_data : option coo_matrix).
Variables (freeze_genes reinit verbose : bool) (min_iter : Z).
Variable message_function : option (loc -> loc -> Z -> M unit).
Variables (nfactors ncells ngenes : nat) (a c bp dp : float64).
Variables (xi eta theta beta : loc).
Hypothesis Hcallback : keeps_frame message_function.
Hypothesis Hxi : (m0 <= xi)%nat.
Hypothesis Htheta : (m0 <= theta)%nat.
Hypothesis Hgenes : freeze_genes = false -> (m0 <= eta)%nat /\ (m0 <= beta)%nat.

Lemma ok_responsibilities (t : Z) :
  ok (responsibilities X reinit nfactors theta beta t) (fun _ => True).
Proof using Type.
  unfold responsibilities. destruct ((t =? 0) && reinit).
  - eapply ok_bind; [apply ok_draw|]. intros phi _. by apply ok_ret.
  - do 2 (eapply ok_bind; [apply ok_reads; first
        [apply reads_vi_shape|apply reads_vi_rate]|]; intros ? _;
      eapply ok_bind; [apply ok_reads; first
        [apply reads_vi_shape|apply reads_vi_rate]|]; intros ? _).
    by apply ok_ret.
Qed.

Lemma ok_gene_updates (Xphi_data : ndarray) :
  ok (gene_updates X freeze_genes ngenes c dp eta theta beta Xphi_data)
     (fun _ => True).
Proof using Hgenes.
  unfold gene_updates. destruct freeze_genes; cbn [negb]; [by apply ok_ret|].
  destruct Hgenes as [Heta Hbeta]; [done|].
  eapply ok_bind; [by apply ok_set_vi_shape|]. intros _ _.
  do 2 (eapply ok_bind; [apply ok_reads; first
        [apply reads_vi_shape|apply reads_vi_rate]|]; intros ? _;
      eapply ok_bind; [apply ok_reads; first
        [apply reads_vi_shape|apply reads_vi_rate]|]; intros ? _).
  eapply ok_bind; [by apply ok_set_vi_rate|]. intros _ _.
  by apply ok_update_capacity_rate.
Qed.

Lemma ok_cell_updates (Xphi_data : ndarray) :
  ok (cell_updates X ncells a bp xi theta beta Xphi_data) (fun _ => True).
Proof using Hxi Htheta.
  unfold cell_updates.
  eapply ok_bind; [by apply ok_set_vi_shape|]. intros _ _.
  do 2 (eapply ok_bind; [apply ok_reads; first
        [apply reads_vi_shape|apply reads_vi_rate]|]; intros ? _;
      eapply ok_bind; [apply ok_reads; first
        [apply reads_vi_shape|apply reads_vi_rate]|]; intros ? _).
  eapply ok_bind; [by apply ok_set_vi_rate|]. intros _ _.
  by apply ok_update_capacity_rate.
Qed.

Lemma ok_record_and_check (t : Z) (l : list float64 * option float64) :
  ok (record_and_check X validation_data verbose min_iter message_function
        theta beta t l) (fun _ => True).
Proof using Hcallback.
  unfold record_and_check. destruct l as [pct_change prev].
  eapply ok_bind; [apply ok_reads, reads_pois_llh|]. intros llh _.
  eapply ok_bind; [apply ok_append|]. intros _ _.
  eapply ok_bind; [apply ok_get_self|]. intros s _.
  destruct (record_pct_change _ _ _ _) as [pct_change' prev'].
  eapply (ok_bind _ _ (fun _ => True)).
  { destruct verbose; [|by apply ok_ret].
    eapply ok_bind; [apply ok_reads, reads_lift|]. intros p _.
    apply ok_print. }
  intros _ _.
  eapply (ok_bind _ _ (fun _ => True)).
  { destruct message_function as [f|] eqn:Hf; [|by apply ok_ret].
    by apply Hcallback. }
  intros _ _.
  eapply ok_bind; [apply ok_get_self|]. intros s' _.
  eapply ok_bind; [apply ok_reads, reads_lift|]. intros [] _.
  - by apply ok_ret.
  - eapply ok_bind; [apply ok_print|]. intros _ _. by apply ok_ret.
  - eapply ok_bind; [apply ok_print|]. intros _ _. by apply ok_ret.
Qed.

Lemma ok_iteration (t : Z) (l : list float64 * option float64) :
  ok (iteration X validation_data freeze_genes reinit verbose min_iter
        message_function nfactors ncells ngenes a c bp dp xi eta theta beta
        t l) (fun _ => True).
Proof using Hcallback Hxi Htheta Hgenes.
  unfold iteration.
  eapply ok_bind; [apply ok_responsibilities|]. intros Xphi _.
  eapply ok_bind; [apply ok_gene_updates|]. intros _ _.
  eapply ok_bind; [apply ok_cell_updates|]. intros _ _.
  eapply ok_bind; [apply ok_get_self|]. intros s _.
  eapply (ok_bind _ _ (fun _ => True)).
  { destruct (scHPF.check_freq s =? 0); [apply ok_raise|].
    destruct (t mod scHPF.check_freq s =? 0);
      [apply ok_record_and_check|by apply ok_ret]. }
  intros [[] l'] _; [|by apply ok_ret].
  eapply ok_bind; [apply ok_get_self|]. intros s' _.
  destruct (scHPF.max_iter s' <=? t); by apply ok_ret.
Qed.

End loop.

Lemma ok__fit (X : coo_matrix) (validation_data : option coo_matrix)
    (freeze_genes reinit verbose : bool) (min_iter : option Z)
    (message_function : option (loc -> loc -> Z -> M unit)) :
  reinit = true \/ m0 = 0%nat ->
  keeps_frame message_function ->
  ok (_fit X validation_data freeze_genes reinit verbose min_iter
        message_function) (new_blocks X freeze_genes).
Proof.
  intros Hre Hcb. unfold _fit.
  eapply ok_bind; [apply ok_get_self|]. intros s _.
  destruct (X_shape X) as [ncells ngenes].
  eapply ok_bind; [by apply ok__setup|].
  intros [[[[[bp dp] xi] eta] theta] beta] (Hbp & Hxi & Hth & Hgenes).
  eapply ok_bind; [by apply ok_fill_vi_shape|]. intros _ _.
  eapply ok_bind; [by apply ok_update_capacity_rate|]. intros _ _.
  eapply (ok_bind _ _ (fun _ => True)).
  { destruct freeze_genes; cbn [negb]; [by apply ok_ret|].
    destruct Hgenes as [Heta Hbeta]; [done|].
    eapply ok_bind; [by apply ok_fill_vi_shape|]. intros _ _.
    by apply ok_update_capacity_rate. }
  intros _ _.
  eapply ok_bind; [apply ok_get_self|]. intros s' _.
  eapply ok_bind; [by apply ok_for_range; intros; apply ok_iteration|].
  intros _ _. by apply ok_ret.
Qed.

Lemma ok_project (X : coo_matrix) (validation_data : option coo_matrix)
    (min_iter : Z) :
  ok (project X validation_data min_iter)
     (fun r => r.1.1 = resolved_bp (self σ0) X
               /\ (m0 <= r.1.2)%nat /\ (m0 <= r.2)%nat).
Proof.
  unfold project.
  eapply ok_bind; [apply ok__fit; [by left|by intros ? [=]]|].
  intros [[[[[bp dp] xi] eta] theta] beta] (Hbp & Hxi & Hth & _).
  by apply ok_ret.
Qed.

End Frame.

Lemma kept_start (σ : state) :
  kept_in σ (length (arrays σ)) (length (gammas σ)) σ.
Proof.
  unfold kept_in. split_and!; try done.
  intros g o Hg Ho. apply lookup_lt_Some in Ho. lia.
Qed.

Lemma kept_start_empty (σ : state) : kept_in σ 0 0 σ.
Proof.
  unfold kept_in. split_and!; try done; try lia.
Qed.

Lemma kept_lookup_array (σ σ' : state) (m0 : nat) (l : loc) (x : ndarray) :
  kept_in σ (length (arrays σ)) m0 σ' ->
  arrays σ !! l = Some x -> arrays σ' !! l = Some x.
Proof.
  intros (Ha & _) Hl. rewrite firstn_all in Ha.
  rewrite <- Ha in Hl. by apply lookup_take_Some in Hl as [? _].
Qed.

Lemma kept_lookup_gamma (σ σ' : state) (n0 : nat) (g : loc)
    (o : HPF_Gamma.obj) :
  kept_in σ n0 (length (gammas σ)) σ' ->
  gammas σ !! g = Some o -> gammas σ' !! g = Some o.
Proof.
  intros (_ & _ & Hg & _) Hl. rewrite firstn_all in Hg.
  rewrite <- Hg in Hl. by apply lookup_take_Some in Hl as [? _].
Qed.

Lemma same_config_fields (s s' : scHPF.obj) :
  same_config s s' ->
  scHPF.xi s = scHPF.xi s' /\ scHPF.eta s = scHPF.eta s'
  /\ scHPF.theta s = scHPF.theta s' /\ scHPF.beta s = scHPF.beta s'
  /\ scHPF.bp s = scHPF.bp s' /\ scHPF.dp s = scHPF.dp s'.
Proof.
  unfold same_config. destruct s, s'. cbn. intros [=]. by subst.
Qed.

(** ** Projection *)

(** C5, as the code has it.  A call of [project], whether it returns or
    raises, leaves every array and every block that the store held as it
    was, and leaves the estimator's [eta] and [beta] bound to the blocks
    they were bound to: the shape and rate arrays of the gene blocks read
    the same before and after.  When it returns, it returns three things
    only: the [b'] that setup resolved (the one the estimator holds, as
    it does after [fit]; an estimate from the new data only when it holds
    none), and the cell blocks [xi] and [theta], which are blocks created
    by this call. *)
Theorem project_leaves_gene_blocks (X : coo_matrix)
    (validation_data : option coo_matrix) (min_iter : Z) (σ : state) :
  let run := project X validation_data min_iter σ in
  (forall l x, arrays σ !! l = Some x -> arrays run.2 !! l = Some x)
  /\ (forall g o, gammas σ !! g = Some o -> gammas run.2 !! g = Some o)
  /\ scHPF.eta (self run.2) = scHPF.eta (self σ)
  /\ scHPF.beta (self run.2) = scHPF.beta (self σ)
  /\ (forall g o s r,
        scHPF.eta (self σ) = Some g \/ scHPF.beta (self σ) = Some g ->
        gammas σ !! g = Some o ->
        arrays σ !! HPF_Gamma.vi_shape o = Some s ->
        arrays σ !! HPF_Gamma.vi_rate o = Some r ->
        vi_shape g σ = (inr s, σ) /\ vi_rate g σ = (inr r, σ)
        /\ vi_shape g run.2 = (inr s, run.2)
        /\ vi_rate g run.2 = (inr r, run.2))
  /\ (forall bp xi theta,
        run.1 = inr (bp, xi, theta) ->
        bp = resolved_bp (self σ) X
        /\ (length (gammas σ) <= xi)%nat
        /\ (length (gammas σ) <= theta)%nat).
Proof.
  intros run.
  destruct (ok_project σ (length (arrays σ)) (length (gammas σ))
              X validation_data min_iter σ (kept_start σ)) as [Hkept Hret].
  fold run in Hkept, Hret.
  assert (Harr : forall l x,
            arrays σ !! l = Some x -> arrays run.2 !! l = Some x)
    by (intros; by eapply kept_lookup_array).
  assert (Hgam : forall g o,
            gammas σ !! g = Some o -> gammas run.2 !! g = Some o)
    by (intros; by eapply kept_lookup_gamma).
  destruct Hkept as (_ & _ & _ & _ & _ & Hc & _).
  apply same_config_fields in Hc as (_ & Heta & _ & Hbeta & _).
  split_and!; try done.
  - intros g o s r _ Hg Hs Hr. split_and!.
    + by eapply vi_shape_run.
    + by eapply vi_rate_run.
    + eapply vi_shape_run; eauto.
    + eapply vi_rate_run; eauto.
  - intros bp xi theta Hrun. by apply (Hret _ Hrun).
Qed.

(** ** The loss history across calls of [fit] *)

(** C3, which the code does not meet: [fit] never empties [self.loss]; it
    only appends.  With a callback that only reads the store (or none),
    the history that the estimator holds at the call is still there, in
    front, when the call ends, by return or by exception. *)
Theorem fit_keeps_old_losses (X : coo_matrix)
    (validation_data : option coo_matrix) (freeze_genes reinit verbose : bool)
    (min_iter : option Z)
    (message_function : option (loc -> loc -> Z -> M unit)) (σ : state) :
  (forall f, message_function = Some f ->
     forall theta beta t, reads (f theta beta t)) ->
  scHPF.loss (self σ) `prefix_of`
  scHPF.loss (self (fit X validation_data freeze_genes reinit verbose
                      min_iter message_function σ).2).
Proof.
  intros Hcb. unfold fit. rewrite run_bind.
  destruct (ok__fit σ 0 0 X validation_data freeze_genes reinit verbose
              min_iter message_function) with (σ := σ) as [Hkept _].
  - by right.
  - intros f Hf theta beta t. apply ok_reads. by eapply Hcb.
  - apply kept_start_empty.
  - destruct (_fit _ _ _ _ _ _ _ σ) as [[e|[[[[[bp dp] xi] eta] theta] beta]] σ'];
      cbn in *; by destruct Hkept as (_ & _ & _ & _ & _ & _ & Hl).
Qed.

(** ** [project] and its [min_iter] parameter *)

Lemma bind_ext_kept {A B} (σ0 : state) (n0 m0 : nat) (m : M A)
    (Φ : A -> Prop) (k1 k2 : A -> M B) (σ : state) :
  ok_in σ0 n0 m0 m Φ ->
  (forall x σ', Φ x -> kept_in σ0 n0 m0 σ' -> k1 x σ' = k2 x σ') ->
  kept_in σ0 n0 m0 σ ->
  (m ≫= k1) σ = (m ≫= k2) σ.
Proof.
  intros Hm Hk Hσ. rewrite !run_bind.
  destruct (Hm σ Hσ) as [Hkept HΦ].
  destruct (m σ) as [[e|x] σ']; [done|]. cbn in *. by apply Hk; [apply HΦ|].
Qed.

(** [min_iter=None] stands for the estimator's own [min_iter] *)
Lemma _fit_min_iter_default (X : coo_matrix)
    (validation_data : option coo_matrix) (freeze_genes reinit verbose : bool)
    (message_function : option (loc -> loc -> Z -> M unit)) (σ : state) :
  _fit X validation_data freeze_genes reinit verbose None message_function σ
  = _fit X validation_data freeze_genes reinit verbose
      (Some (scHPF.min_iter (self σ))) message_function σ.
Proof.
  unfold _fit. rewrite !run_bind. cbn [get_self].
  destruct (X_shape X) as [ncells ngenes].
  eapply (bind_ext_kept σ 0 0); [by apply ok__setup; right| |
                                 apply kept_start_empty].
  intros [[[[[bp dp] xi] eta] theta] beta] σ1 (_ & Hxi & Hth & Hgenes) Hσ1.
  eapply bind_ext_kept; [by apply ok_fill_vi_shape| |done].
  intros _ σ2 _ Hσ2.
  eapply bind_ext_kept; [by apply ok_update_capacity_rate| |done].
  intros _ σ3 _ Hσ3.
  eapply (bind_ext_kept _ _ _ _ (fun _ => True)); [| |done].
  { destruct freeze_genes; cbn [negb]; [by apply ok_ret|].
    eapply ok_bind; [apply ok_fill_vi_shape; lia|]. intros _ _.
    apply ok_update_capacity_rate. lia. }
  intros _ σ4 _ Hσ4.
  rewrite !run_bind. cbn [get_self].
  destruct Hσ4 as (_ & _ & _ & _ & _ & Hc & _).
  assert (scHPF.min_iter (self σ4) = scHPF.min_iter (self σ)) as ->; [|done].
  unfold same_config in Hc. destruct (self σ4), (self σ). cbn in *.
  by injection Hc.
Qed.

(** C10.  [project] never reads its [min_iter] parameter: any two values
    give the same result and the same final store, which are those of
    [_fit] run with the gene side frozen and the estimator's own
    [min_iter]. *)
Theorem project_ignores_min_iter (X : coo_matrix)
    (validation_data : option coo_matrix) (m1 m2 : Z) (σ : state) :
  project X validation_data m1 σ = project X validation_data m2 σ
  /\ project X validation_data m1 σ =
     match _fit X validation_data true true true
             (Some (scHPF.min_iter (self σ))) None σ with
     | (inr (bp, _, xi, _, theta, _), σ') => (inr (bp, xi, theta), σ')
     | (inl e, σ') => (inl e, σ')
     end.
Proof.
  split; [reflexivity|].
  unfold project. rewrite run_bind, _fit_min_iter_default.
  destruct (_fit X validation_data true true true _ None σ)
    as [[e|[[[[[bp dp] xi] eta] theta] beta]] σ']; reflexivity.
Qed.

End Properties.

(** * Further properties: what the methods do to the estimator and to the
      store *)

Section Effects.
Context `{Imports}.

(** ** Commands that leave the estimator as it is *)

Lemma keeps_self_reads {A} (m : M A) : reads m -> keeps_self m.
Proof. intros Hm σ. by rewrite Hm. Qed.

Lemma keeps_self_ret {A} (x : A) : keeps_self (mret x : M A).
Proof. done. Qed.

Lemma keeps_self_raise {A} (e : exn) : keeps_self (raise e : M A).
Proof. done. Qed.

Lemma keeps_self_bind {A B} (m : M A) (k : A -> M B) :
  keeps_self m -> (forall x, keeps_self (k x)) -> keeps_self (m ≫= k).
Proof.
  intros Hm Hk σ. rewrite run_bind. specialize (Hm σ).
  destruct (m σ) as [[e|x] σ']; cbn in *; [done|]. by rewrite Hk.
Qed.

Lemma keeps_self_new_array (x : ndarray) : keeps_self (new_array x).
Proof. done. Qed.

Lemma keeps_self_set_array (l : loc) (x : ndarray) :
  keeps_self (set_array l x).
Proof. done. Qed.

Lemma keeps_self_new_gamma (o : HPF_Gamma.obj) : keeps_self (new_gamma o).
Proof. done. Qed.

Lemma keeps_self_set_gamma (g : loc) (o : HPF_Gamma.obj) :
  keeps_self (set_gamma g o).
Proof. done. Qed.

Lemma keeps_self_print (e : event) : keeps_self (print e).
Proof. done. Qed.

Lemma keeps_self_draw {A} (f : rng -> A * rng) : keeps_self (draw f).
Proof. intros σ. unfold draw. by destruct (f (random σ)). Qed.

Lemma keeps_self_lift {A} (r : result A) : keeps_self (lift r).
Proof. done. Qed.

Lemma keeps_self_get_gamma (g : loc) : keeps_self (get_gamma g).
Proof. apply keeps_self_reads, reads_get_gamma. Qed.

Lemma keeps_self_get_array (l : loc) : keeps_self (get_array l).
Proof. apply keeps_self_reads, reads_get_array. Qed.

Lemma keeps_self_vi_shape (g : loc) : keeps_self (vi_shape g).
Proof. apply keeps_self_reads, reads_vi_shape. Qed.

Lemma keeps_self_vi_rate (g : loc) : keeps_self (vi_rate g).
Proof. apply keeps_self_reads, reads_vi_rate. Qed.

Lemma keeps_self_e_x (g : loc) : keeps_self (e_x g).
Proof. apply keeps_self_reads, reads_e_x. Qed.

Create HintDb keeps.
#[local] Hint Resolve keeps_self_ret keeps_self_raise keeps_self_bind
  keeps_self_new_array keeps_self_set_array keeps_self_new_gamma
  keeps_self_set_gamma keeps_self_print keeps_self_draw keeps_self_lift
  keeps_self_get_gamma keeps_self_get_array keeps_self_vi_shape
  keeps_self_vi_rate keeps_self_e_x : keeps.

Lemma keeps_self_set_vi_shape (g : loc) (x : ndarray) :
  keeps_self (set_vi_shape g x).
Proof. unfold set_vi_shape. eauto 10 with keeps. Qed.

Lemma keeps_self_set_vi_rate (g : loc) (x : ndarray) :
  keeps_self (set_vi_rate g x).
Proof. unfold set_vi_rate. eauto 10 with keeps. Qed.

Lemma keeps_self_fill_vi_shape (g : loc) (v : float64) :
  keeps_self (fill_vi_shape g v).
Proof. unfold fill_vi_shape. eauto 10 with keeps. Qed.

#[local] Hint Resolve keeps_self_set_vi_shape keeps_self_set_vi_rate
  keeps_self_fill_vi_shape : keeps.

Lemma keeps_self_update_capacity_rate (g : loc) (prior : float64)
    (loading : loc) :
  keeps_self (update_capacity_rate g prior loading).
Proof. unfold update_capacity_rate. eauto 10 with keeps. Qed.

Lemma keeps_self_factory (dims : list nat) (sp rp : float64) :
  keeps_self (random_gamma_factory dims sp rp).
Proof. intros σ. apply quiet_factory. Qed.

Lemma keeps_self_setup (X : coo_matrix) (freeze_genes reinit clip : bool) :
  keeps_self (_setup X freeze_genes reinit clip).
Proof.
  unfold _setup. apply keeps_self_bind; [done|]. intros s.
  apply keeps_self_bind.
  - intros σ. rewrite setup_hyperparameters_run.
    destruct (scHPF.dp s); [done|]. destruct freeze_genes; [done|].
    by destruct (clip && _).
  - intros [bp dp] σ. apply setup_blocks_spec.
Qed.

#[local] Hint Resolve keeps_self_update_capacity_rate keeps_self_factory
  keeps_self_setup : keeps.

Lemma keeps_self_responsibilities (X : coo_matrix) (reinit : bool)
    (nfactors : nat) (theta beta : loc) (t : Z) :
  keeps_self (responsibilities X reinit nfactors theta beta t).
Proof.
  unfold responsibilities. destruct ((t =? 0) && reinit); eauto 10 with keeps.
Qed.

Lemma keeps_self_gene_updates (X : coo_matrix) (freeze_genes : bool)
    (ngenes : nat) (c dp : float64) (eta theta beta : loc) (x : ndarray) :
  keeps_self (gene_updates X freeze_genes ngenes c dp eta theta beta x).
Proof.
  unfold gene_updates. destruct freeze_genes; cbn [negb];
    eauto 20 with keeps.
Qed.

Lemma keeps_self_cell_updates (X : coo_matrix) (ncells : nat)
    (a bp : float64) (xi theta beta : loc) (x : ndarray) :
  keeps_self (cell_updates X ncells a bp xi theta beta x).
Proof. unfold cell_updates. eauto 20 with keeps. Qed.

#[local] Hint Resolve keeps_self_responsibilities keeps_self_gene_updates
  keeps_self_cell_updates : keeps.

(** ** The loss history *)

Lemma appended_refl (n : nat) (s : scHPF.obj) : appended n s s.
Proof.
  exists []. split; [|cbn; lia]. rewrite app_nil_r. by destruct s.
Qed.

Lemma appended_trans (n k : nat) (s s' s'' : scHPF.obj) :
  appended n s s' -> appended k s' s'' -> appended (n + k) s s''.
Proof.
  intros (l1 & -> & H1) (l2 & -> & H2). exists (l1 ++ l2). split.
  - destruct s; cbn. by rewrite (assoc_L (++)).
  - rewrite length_app. lia.
Qed.

Lemma appended_mono (n k : nat) (s s' : scHPF.obj) :
  (n <= k)%nat -> appended n s s' -> appended k s s'.
Proof. intros Hn (l & -> & Hl). exists l. split; [done|lia]. Qed.

Lemma appended_fields (n : nat) (s s' : scHPF.obj) :
  appended n s s' ->
  scHPF.check_freq s' = scHPF.check_freq s
  /\ scHPF.max_iter s' = scHPF.max_iter s
  /\ scHPF.min_iter s' = scHPF.min_iter s.
Proof. intros (l & -> & _). by destruct s. Qed.

(** a command that leaves the estimator as it is, followed by another *)
Lemma bind_keeps {A B} (m : M A) (k : A -> M B)
    (P : result B -> scHPF.obj -> Prop) (σ : state) :
  keeps_self m ->
  (forall e, P (inl e) (self σ)) ->
  (forall x σ', self σ' = self σ -> P (k x σ').1 (self (k x σ').2)) ->
  P ((m ≫= k) σ).1 (self ((m ≫= k) σ).2).
Proof.
  intros Hm He Hk. rewrite run_bind. specialize (Hm σ).
  destruct (m σ) as [[e|x] σ']; cbn in *; [rewrite Hm; apply He|].
  by apply Hk.
Qed.

(** one check appends one value, or none when the scorer raises *)
Lemma record_and_check_appended (X : coo_matrix)
    (validation_data : option coo_matrix) (verbose : bool) (min_iter : Z)
    (theta beta : loc) (t : Z) (l : list float64 * option float64)
    (σ : state) :
  appended 1 (self σ)
    (self (record_and_check X validation_data verbose min_iter None theta
             beta t l σ).2).
Proof.
  destruct l as [pct prev].
  set (vX := match validation_data with Some v => v | None => X end).
  pose proof (reads_pois_llh vX (Some theta) (Some beta) σ) as Hr.
  destruct (pois_llh vX (Some theta) (Some beta) σ) as [[e|llh] σ'] eqn:E;
    cbn in Hr; subst σ'.
  - unfold record_and_check. fold vX. rewrite run_bind, E.
    apply appended_refl.
  - destruct (record_and_check_run X validation_data verbose min_iter theta
                beta t pct prev llh σ E) as (p & _ & ->).
    cbn zeta. destruct (check_convergence _ _ _ _ _ _) as [e|[]]; cbn;
      eexists [_]; split; try reflexivity; cbn; lia.
Qed.

Section loop_effects.
Variables (X : coo_matrix) (validation_data : option coo_matrix).
Variables (freeze_genes reinit verbose : bool) (min_iter : Z).
Variables (nfactors ncells ngenes : nat) (a c bp dp : float64).
Variables (xi eta theta beta : loc).

Local Abbreviation body message_function :=
  (iteration X validation_data freeze_genes reinit verbose min_iter
     message_function nfactors ncells ngenes a c bp dp xi eta theta beta).

(** an iteration appends a value at a check, and nothing else *)
Lemma iteration_appended (t : Z) (l : list float64 * option float64)
    (σ : state) :
  appended (if decide (t mod scHPF.check_freq (self σ) = 0) then 1 else 0)
    (self σ) (self (body None t l σ).2).
Proof.
  unfold iteration.
  apply (bind_keeps _ _ (fun _ s' => appended _ (self σ) s'));
    [auto with keeps|intros; apply appended_refl|].
  intros Xphi σ1 <-. clear σ.
  apply (bind_keeps _ _ (fun _ s' => appended _ (self σ1) s'));
    [auto with keeps|intros; apply appended_refl|].
  intros _ σ2 <-. clear σ1.
  apply (bind_keeps _ _ (fun _ s' => appended _ (self σ2) s'));
    [auto with keeps|intros; apply appended_refl|].
  intros _ σ <-. clear σ2.
  rewrite run_bind. cbn [get_self]. rewrite run_bind.
  destruct (Z.eqb_spec (scHPF.check_freq (self σ)) 0) as [Hz|Hz];
    [apply appended_refl|].
  destruct (Z.eqb_spec (t mod scHPF.check_freq (self σ)) 0) as [Hc|Hc].
  - rewrite decide_True by done.
    pose proof (record_and_check_appended X validation_data verbose min_iter
                  theta beta t l σ) as Hr.
    destruct (record_and_check _ _ _ _ _ _ _ _ _ σ) as [[e|[[] l']] σ'];
      cbn in *; try done.
    rewrite run_bind. cbn [get_self].
    by destruct (scHPF.max_iter (self σ') <=? t).
  - rewrite decide_False by done. cbn. rewrite run_bind. cbn [get_self].
    destruct (scHPF.max_iter (self σ) <=? t); apply appended_refl.
Qed.

(** the loop appends at most one value for each check among its
    iterations *)
Lemma for_range_appended (ts : list Z) (l : list float64 * option float64)
    (σ : state) :
  appended
    (length (filter (fun t => t mod scHPF.check_freq (self σ) = 0) ts))
    (self σ) (self (for_range ts (body None) l σ).2).
Proof.
  revert l σ. induction ts as [|t ts IH]; intros l σ; [apply appended_refl|].
  cbn [for_range]. rewrite run_bind.
  pose proof (iteration_appended t l σ) as Ht.
  rewrite filter_cons.
  destruct (body None t l σ) as [[e|[[] l']] σ'] eqn:E; cbn [fst snd] in *.
  - eapply appended_mono; [|exact Ht]. destruct (decide _); cbn; lia.
  - specialize (IH l' σ').
    destruct (appended_fields _ _ _ Ht) as (Hcf & _). rewrite Hcf in IH.
    eapply appended_mono; [|exact (appended_trans _ _ _ _ _ Ht IH)].
    destruct (decide _); cbn; lia.
  - eapply appended_mono; [|exact Ht]. destruct (decide _); cbn; lia.
Qed.

(** with [check_freq = 0] an iteration raises, whatever the callback: at
    [t % self.check_freq] at the latest *)
Lemma iteration_check_freq_zero
    (message_function : option (loc -> loc -> Z -> M unit)) (t : Z)
    (l : list float64 * option float64) (σ : state) :
  scHPF.check_freq (self σ) = 0 ->
  (exists e, (body message_function t l σ).1 = inl e)
  /\ self (body message_function t l σ).2 = self σ.
Proof.
  intros Hz. unfold iteration.
  apply (bind_keeps _ _ (fun r s' => (exists e, r = inl e) /\ s' = self σ));
    [auto with keeps|by eauto|].
  intros Xphi σ1 H1.
  apply (bind_keeps _ _ (fun r s' => (exists e, r = inl e) /\ s' = self σ));
    [auto with keeps|by eauto|].
  intros _ σ2 H2. rewrite H1 in H2. clear σ1 H1.
  apply (bind_keeps _ _ (fun r s' => (exists e, r = inl e) /\ s' = self σ));
    [auto with keeps|by eauto|].
  intros _ σ3 H3. rewrite H2 in H3. clear σ2 H2.
  rewrite run_bind. cbn [get_self]. rewrite run_bind, H3, Hz. cbn.
  by eauto.
Qed.

Lemma keeps_self_updates (t : Z) :
  keeps_self (updates X freeze_genes reinit nfactors ncells ngenes a c bp dp
                xi eta theta beta t).
Proof. unfold updates. eauto 10 with keeps. Qed.

(** once the updates have gone through, the exception is the one of
    [t % self.check_freq] *)
Lemma iteration_ZeroDivisionError
    (message_function : option (loc -> loc -> Z -> M unit)) (t : Z)
    (l : list float64 * option float64) (σ σ1 : state) :
  scHPF.check_freq (self σ) = 0 ->
  updates X freeze_genes reinit nfactors ncells ngenes a c bp dp xi eta theta
    beta t σ = (inr tt, σ1) ->
  body message_function t l σ = (inl ZeroDivisionError, σ1).
Proof.
  intros Hz Hup.
  pose proof (keeps_self_updates t σ) as Hs. rewrite Hup in Hs. cbn in Hs.
  unfold iteration. unfold updates in Hup.
  rewrite run_bind in Hup. rewrite run_bind.
  destruct (responsibilities _ _ _ _ _ _ σ) as [[e|Xphi] σa]; [done|].
  rewrite run_bind in Hup. rewrite run_bind.
  destruct (gene_updates _ _ _ _ _ _ _ _ _ σa) as [[e|[]] σb]; [done|].
  rewrite run_bind, Hup.
  rewrite run_bind. cbn [get_self]. rewrite run_bind, Hs, Hz. reflexivity.
Qed.

End loop_effects.

(** [_fit] without a callback changes the estimator by appending to its
    loss history only, at most one value for each check *)
Lemma _fit_appended (X : coo_matrix) (validation_data : option coo_matrix)
    (freeze_genes reinit verbose : bool) (min_iter : option Z) (σ : state) :
  appended
    (length (checks (scHPF.check_freq (self σ)) (scHPF.max_iter (self σ))))
    (self σ)
    (self (_fit X validation_data freeze_genes reinit verbose min_iter None
             σ).2).
Proof.
  unfold _fit. rewrite run_bind. cbn [get_self].
  destruct (X_shape X) as [ncells ngenes].
  set (n := length _).
  apply (bind_keeps _ _ (fun _ s' => appended n (self σ) s'));
    [auto with keeps|intros; apply appended_refl|].
  intros [[[[[bp dp] xi] eta] theta] beta] σ1 H1.
  apply (bind_keeps _ _ (fun _ s' => appended n (self σ) s'));
    [auto with keeps|intros; rewrite H1; apply appended_refl|].
  intros _ σ2 H2. rewrite H1 in H2. clear σ1 H1.
  apply (bind_keeps _ _ (fun _ s' => appended n (self σ) s'));
    [auto with keeps|intros; rewrite H2; apply appended_refl|].
  intros _ σ3 H3. rewrite H2 in H3. clear σ2 H2.
  apply (bind_keeps _ _ (fun _ s' => appended n (self σ) s'));
    [|intros; rewrite H3; apply appended_refl|].
  { destruct freeze_genes; cbn [negb]; auto with keeps. }
  intros _ σ4 H4. rewrite H3 in H4. clear σ3 H3.
  rewrite run_bind. cbn [get_self]. rewrite run_bind.
  match goal with |- context [for_range ?ts ?b ?l σ4] =>
    pose proof (for_range_appended X validation_data freeze_genes reinit
                  verbose
                  match min_iter with
                  | Some m => m
                  | None => scHPF.min_iter (self σ4)
                  end
                  (scHPF.nfactors (self σ)) ncells ngenes
                  (scHPF.a (self σ)) (scHPF.c (self σ)) bp dp xi eta theta
                  beta ts l σ4) as Hloop;
    destruct (for_range ts b l σ4) as [[e|l'] σ5]
  end; cbn [fst snd] in *; by rewrite !H4 in Hloop.
Qed.

Lemma range_pos (n : Z) :
  0 < n -> exists ts, range n = 0 :: ts.
Proof.
  intros Hn. unfold range. destruct (Z.to_nat n) as [|k] eqn:E; [lia|].
  cbn. by eauto.
Qed.

Lemma _fit_check_freq_zero (X : coo_matrix)
    (validation_data : option coo_matrix) (freeze_genes reinit verbose : bool)
    (min_iter : option Z)
    (message_function : option (loc -> loc -> Z -> M unit)) (σ : state) :
  scHPF.check_freq (self σ) = 0 ->
  0 < scHPF.max_iter (self σ) ->
  let run := _fit X validation_data freeze_genes reinit verbose min_iter
               message_function σ in
  (exists e, run.1 = inl e) /\ self run.2 = self σ.
Proof.
  intros Hz Hmax. cbn zeta. unfold _fit. rewrite run_bind. cbn [get_self].
  destruct (X_shape X) as [ncells ngenes].
  apply (bind_keeps _ _ (fun r s' => (exists e, r = inl e) /\ s' = self σ));
    [auto with keeps|by eauto|].
  intros [[[[[bp dp] xi] eta] theta] beta] σ1 H1.
  apply (bind_keeps _ _ (fun r s' => (exists e, r = inl e) /\ s' = self σ));
    [auto with keeps|by eauto|].
  intros _ σ2 H2. rewrite H1 in H2. clear σ1 H1.
  apply (bind_keeps _ _ (fun r s' => (exists e, r = inl e) /\ s' = self σ));
    [auto with keeps|by eauto|].
  intros _ σ3 H3. rewrite H2 in H3. clear σ2 H2.
  apply (bind_keeps _ _ (fun r s' => (exists e, r = inl e) /\ s' = self σ));
    [|by eauto|].
  { destruct freeze_genes; cbn [negb]; auto with keeps. }
  intros _ σ4 H4. rewrite H3 in H4. clear σ3 H3.
  rewrite run_bind. cbn [get_self]. rewrite run_bind, H4.
  destruct (range_pos _ Hmax) as [ts ->]. cbn [for_range]. rewrite run_bind.
  match goal with |- context [iteration ?a1 ?a2 ?a3 ?a4 ?a5 ?a6 ?a7 ?a8 ?a9
                                ?a10 ?a11 ?a12 ?a13 ?a14 ?a15 ?a16 ?a17 ?a18
                                0 ?l σ4] =>
    destruct (iteration_check_freq_zero a1 a2 a3 a4 a5 a6 a8 a9 a10 a11 a12
                a13 a14 a15 a16 a17 a18 a7 0 l σ4) as [[e He] Hs];
      [by rewrite H4|];
    destruct (iteration a1 a2 a3 a4 a5 a6 a7 a8 a9 a10 a11 a12 a13 a14 a15
                a16 a17 a18 0 l σ4) as [[e'|x] σ5]
  end; cbn [fst snd] in *; [|done].
  split; [by eauto|]. by rewrite Hs.
Qed.

(** ** What [fit] does to the estimator *)

(** X1.  What [fit] assigns to the attributes of the estimator.  Without
    a callback, a call of [fit] changes the attributes of the estimator
    object (its configuration, its hyperparameters, the blocks its names
    are bound to, its loss history) in two ways only.  It appends to
    [self.loss], at most one value for each iteration number below
    [max_iter] that is a multiple of [check_freq]; and, when it returns,
    it binds the six fitted attributes ([bp], [dp], [xi], [eta], [theta],
    [beta]).  A call that raises binds none of them: apart from the
    appended losses, every attribute holds what it held.  This is about
    the attributes, not about the contents of the block objects they
    name, to which a warm start ([reinit=False]) writes. *)
Theorem fit_changes_estimator_by (X : coo_matrix)
    (validation_data : option coo_matrix) (freeze_genes reinit verbose : bool)
    (min_iter : option Z) (σ : state) :
  let run := fit X validation_data freeze_genes reinit verbose min_iter None
               σ in
  exists new,
    (length new <=
       length (checks (scHPF.check_freq (self σ))
                 (scHPF.max_iter (self σ))))%nat
    /\ match run.1 with
       | inr _ =>
           exists bp dp xi eta theta beta,
             self run.2 =
             scHPF.set_fitted bp dp xi eta theta beta
               (scHPF.set_loss (scHPF.loss (self σ) ++ new) (self σ))
       | inl _ =>
           self run.2 = scHPF.set_loss (scHPF.loss (self σ) ++ new) (self σ)
       end.
Proof.
  cbn zeta. unfold fit. rewrite run_bind.
  destruct (_fit_appended X validation_data freeze_genes reinit verbose
              min_iter σ) as (new & Hs & Hl).
  exists new. split; [done|].
  destruct (_fit _ _ _ _ _ _ _ σ)
    as [[e|[[[[[bp dp] xi] eta] theta] beta]] σ']; cbn in *; [done|].
  rewrite run_bind. cbn [get_self put_self fst snd self].
  rewrite Hs. by eexists _, _, _, _, _, _.
Qed.

(** X2.  An estimator with [check_freq = 0] cannot be fitted.  Whenever
    [max_iter] is positive, [fit] raises, whatever the data, the options
    and the callback, and it changes no attribute of the estimator: no
    loss is recorded and nothing is bound (the block objects themselves
    may have been written to by then, on a warm start).  In the loop body
    the exception is [ZeroDivisionError], from [t % self.check_freq], as
    soon as the updates of the iteration have gone through, and it leaves
    the store as the updates left it. *)
Theorem fit_check_freq_zero_raises (X : coo_matrix)
    (validation_data : option coo_matrix) (freeze_genes reinit verbose : bool)
    (min_iter : option Z)
    (message_function : option (loc -> loc -> Z -> M unit)) (σ : state) :
  scHPF.check_freq (self σ) = 0 ->
  0 < scHPF.max_iter (self σ) ->
  let run := fit X validation_data freeze_genes reinit verbose min_iter
               message_function σ in
  (exists e, run.1 = inl e)
  /\ self run.2 = self σ
  /\ forall (floor : Z) (nfactors ncells ngenes : nat) (a c bp dp : float64)
        (xi eta theta beta : loc) (t : Z)
        (l : list float64 * option float64) (σ0 σ1 : state),
        scHPF.check_freq (self σ0) = 0 ->
        updates X freeze_genes reinit nfactors ncells ngenes a c bp dp xi eta
          theta beta t σ0 = (inr tt, σ1) ->
        iteration X validation_data freeze_genes reinit verbose floor
          message_function nfactors ncells ngenes a c bp dp xi eta theta
          beta t l σ0
        = (inl ZeroDivisionError, σ1).
Proof.
  intros Hz Hmax. cbn zeta. unfold fit. rewrite run_bind.
  destruct (_fit_check_freq_zero X validation_data freeze_genes reinit
              verbose min_iter message_function σ Hz Hmax) as [[e He] Hs].
  split_and!.
  - destruct (_fit _ _ _ _ _ _ _ σ) as [[e'|r] σ']; cbn in *; [|done].
    by eauto.
  - by destruct (_fit _ _ _ _ _ _ _ σ) as [[e'|r] σ']; cbn in *.
  - intros. by apply iteration_ZeroDivisionError.
Qed.

(** ** What [_setup] does to the store *)

Lemma allocates_reads {A} (m : M A) : reads m -> allocates m.
Proof. intros Hm σ. by rewrite Hm. Qed.

Lemma allocates_ret {A} (x : A) : allocates (mret x : M A).
Proof. done. Qed.

Lemma allocates_raise {A} (e : exn) : allocates (raise e : M A).
Proof. done. Qed.

Lemma allocates_bind {A B} (m : M A) (k : A -> M B) :
  allocates m -> (forall x, allocates (k x)) -> allocates (m ≫= k).
Proof.
  intros Hm Hk σ. rewrite run_bind. destruct (Hm σ) as (Ha & Hg & Hs).
  destruct (m σ) as [[e|x] σ']; cbn in *; [done|].
  destruct (Hk x σ') as (Ha' & Hg' & Hs'). split_and!.
  - by etrans.
  - by etrans.
  - congruence.
Qed.

Lemma allocates_new_array (x : ndarray) : allocates (new_array x).
Proof. intros σ. cbn. split_and!; [by apply prefix_app_r|done..]. Qed.

Lemma allocates_new_gamma (o : HPF_Gamma.obj) : allocates (new_gamma o).
Proof. intros σ. cbn. split_and!; [done|by apply prefix_app_r|done]. Qed.

Lemma allocates_draw {A} (f : rng -> A * rng) : allocates (draw f).
Proof. intros σ. unfold draw. by destruct (f (random σ)). Qed.

Lemma allocates_print (e : event) : allocates (print e).
Proof. done. Qed.

Lemma allocates_assert (b : bool) : allocates (assert b).
Proof. by destruct b. Qed.

Lemma allocates_get_array (l : loc) : allocates (get_array l).
Proof. apply allocates_reads, reads_get_array. Qed.

Create HintDb allocs.
#[local] Hint Resolve allocates_ret allocates_raise allocates_bind
  allocates_new_array allocates_new_gamma allocates_draw allocates_print
  allocates_assert allocates_get_array : allocs.

Lemma allocates_HPF_Gamma_init (ls lr : loc) :
  allocates (HPF_Gamma_init ls lr).
Proof. unfold HPF_Gamma_init. eauto 20 with allocs. Qed.

#[local] Hint Resolve allocates_HPF_Gamma_init : allocs.

Lemma allocates_uniform (low high : float64) (size : nat) :
  allocates (uniform low high size).
Proof. unfold uniform. destruct (is_finite _); auto with allocs. Qed.

#[local] Hint Resolve allocates_uniform : allocs.

Lemma allocates_factory (dims : list nat) (sp rp : float64) :
  allocates (random_gamma_factory dims sp rp).
Proof. unfold random_gamma_factory. eauto 20 with allocs. Qed.

Lemma allocates_reinit_or (reinit : bool) (g : option loc) (make : M loc) :
  allocates make -> allocates (reinit_or reinit g make).
Proof.
  intros Hm. unfold reinit_or. destruct g; [destruct reinit|]; auto with allocs.
Qed.

#[local] Hint Resolve allocates_factory allocates_reinit_or : allocs.

Lemma allocates_setup_blocks (s : scHPF.obj) (X : coo_matrix)
    (freeze_genes reinit : bool) (bp dp : float64) :
  allocates (setup_blocks s X freeze_genes reinit bp dp).
Proof.
  unfold setup_blocks. destruct (X_shape X) as [ncells ngenes].
  apply allocates_bind; [auto with allocs|]. intros xi.
  apply allocates_bind; [auto with allocs|]. intros theta.
  apply allocates_bind; [|intros [eta beta]; auto with allocs].
  destruct freeze_genes; [|eauto 10 with allocs].
  destruct (scHPF.eta s), (scHPF.beta s); auto with allocs.
Qed.

Lemma allocates_setup_hyperparameters (s : scHPF.obj) (X : coo_matrix)
    (freeze_genes clip : bool) :
  allocates (setup_hyperparameters s X freeze_genes clip).
Proof.
  intros σ. rewrite setup_hyperparameters_run.
  destruct (scHPF.dp s); [done|]. destruct freeze_genes; [done|].
  by destruct (clip && _).
Qed.

Lemma allocates_setup (X : coo_matrix) (freeze_genes reinit clip : bool) :
  allocates (_setup X freeze_genes reinit clip).
Proof.
  unfold _setup. apply allocates_bind; [done|]. intros s.
  apply allocates_bind; [apply allocates_setup_hyperparameters|].
  intros [bp dp]. apply allocates_setup_blocks.
Qed.

(** X3.  [_setup] writes to nothing that exists.  Whatever its options,
    and whether it returns or raises, the arrays and the blocks that the
    store held are still there, at their addresses and with their
    contents (all it does to the objects is to create new ones, after
    them); the estimator is as it was; and the only thing it may print is
    the one message of the clip of [dp]. *)
Theorem setup_only_allocates (X : coo_matrix)
    (freeze_genes reinit clip : bool) (σ : state) :
  let run := _setup X freeze_genes reinit clip σ in
  arrays σ `prefix_of` arrays run.2
  /\ gammas σ `prefix_of` gammas run.2
  /\ self run.2 = self σ
  /\ (stdout run.2 = stdout σ
      \/ exists old new, stdout run.2 = stdout σ ++ [Clipping_dp old new]).
Proof.
  cbn zeta.
  destruct (allocates_setup X freeze_genes reinit clip σ) as (H1 & H2 & H3).
  split_and!; try done.
  unfold _setup. rewrite run_bind. cbn [get_self]. rewrite run_bind.
  rewrite setup_hyperparameters_run.
  destruct (scHPF.dp (self σ)) as [d|].
  { left. apply setup_blocks_spec. }
  destruct freeze_genes; [by left|].
  destruct (clip && _).
  - right. eexists _, _.
    match goal with |- context [setup_blocks ?a1 ?a2 ?a3 ?a4 ?a5 ?a6 ?a7] =>
      destruct (setup_blocks_spec a1 a2 a3 a4 a5 a6 a7) as (Ho & _) end.
    exact Ho.
  - left. apply setup_blocks_spec.
Qed.

(** X4.  A warm start reuses the estimator's objects.  When the estimator
    holds [dp] and the four blocks, [_setup] with [reinit=False] draws no
    random number, creates no object and prints nothing: the store is
    exactly as it was, and setup returns the estimator's own [dp] and
    blocks (the same objects, not copies), with [bp] its own or, when it
    has none, the estimate from the data. *)
Theorem setup_warm_start_reuses (X : coo_matrix) (freeze_genes clip : bool)
    (d : float64) (xi eta theta beta : loc) (σ : state) :
  scHPF.dp (self σ) = Some d ->
  scHPF.xi (self σ) = Some xi ->
  scHPF.eta (self σ) = Some eta ->
  scHPF.theta (self σ) = Some theta ->
  scHPF.beta (self σ) = Some beta ->
  _setup X freeze_genes false clip σ
  = (inr (resolved_bp (self σ) X, d, xi, eta, theta, beta), σ).
Proof.
  intros Hd Hxi Heta Hth Hbe. unfold _setup.
  rewrite run_bind. cbn [get_self]. rewrite run_bind.
  rewrite setup_hyperparameters_run, Hd.
  unfold setup_blocks. rewrite Hxi, Heta, Hth, Hbe.
  destruct (X_shape X) as [ncells ngenes]. by destruct freeze_genes.
Qed.

(** ** New blocks *)

(** X5.  [fit] with [reinit=True] (the default) and no callback works on
    new objects only.  Whether it returns or raises, every array and
    every block that the store held is as it was, so the blocks that the
    estimator was bound to before the call are still valid and unchanged.
    When it returns, the estimator's [xi] and [theta] (and [eta] and
    [beta], unless the gene side is frozen) are blocks created by this
    call, and its [bp] is the one setup resolved: the estimator's own
    when it had one, the estimate from [X] otherwise. *)
Theorem fit_reinit_works_on_new_blocks (X : coo_matrix)
    (validation_data : option coo_matrix) (freeze_genes verbose : bool)
    (min_iter : option Z) (σ : state) :
  let run := fit X validation_data freeze_genes true verbose min_iter None
               σ in
  (forall l x, arrays σ !! l = Some x -> arrays run.2 !! l = Some x)
  /\ (forall g o, gammas σ !! g = Some o -> gammas run.2 !! g = Some o)
  /\ (run.1 = inr tt ->
      scHPF.bp (self run.2) = Some (resolved_bp (self σ) X)
      /\ (exists xi theta,
            scHPF.xi (self run.2) = Some xi
            /\ scHPF.theta (self run.2) = Some theta
            /\ (length (gammas σ) <= xi)%nat
            /\ (length (gammas σ) <= theta)%nat)
      /\ (freeze_genes = false ->
          exists eta beta,
            scHPF.eta (self run.2) = Some eta
            /\ scHPF.beta (self run.2) = Some beta
            /\ (length (gammas σ) <= eta)%nat
            /\ (length (gammas σ) <= beta)%nat)).
Proof.
  cbn zeta. unfold fit. rewrite run_bind.
  destruct (ok__fit σ (length (arrays σ)) (length (gammas σ)) X
              validation_data freeze_genes true verbose min_iter None)
    with (σ := σ) as [Hkept Hret];
    [by left|by intros f [=]|apply kept_start|].
  destruct (_fit _ _ _ _ _ _ _ σ)
    as [[e|[[[[[bp dp] xi] eta] theta] beta]] σ']; cbn [fst snd] in *.
  - split_and!; [intros; by eapply kept_lookup_array|
                 intros; by eapply kept_lookup_gamma|done].
  - rewrite run_bind. cbn [get_self put_self fst snd arrays gammas self].
    split_and!; [intros; by eapply kept_lookup_array|
                 intros; by eapply kept_lookup_gamma|].
    intros _. destruct (Hret _ eq_refl) as (-> & Hxi & Hth & Hg).
    destruct (self σ'). cbn. split_and!; [done|by exists xi, theta|].
    intros Hfr. destruct (Hg Hfr). by exists eta, beta.
Qed.

(** X6.  [_initialize] binds the estimator to new random blocks and does
    nothing else.  When it returns, the estimator is the one of the call
    with its six fitted attributes bound: [bp] to the resolved value and
    [xi], [theta] (and [eta], [beta], unless frozen) to blocks created by
    this call; the loss history and the configuration are untouched.
    When it raises, the estimator is as it was.  In both cases the arrays
    and blocks that the store held are as they were. *)
Theorem initialize_binds_new_blocks (X : coo_matrix) (freeze_genes : bool)
    (σ : state) :
  let run := _initialize X freeze_genes σ in
  arrays σ `prefix_of` arrays run.2
  /\ gammas σ `prefix_of` gammas run.2
  /\ match run.1 with
     | inl _ => self run.2 = self σ
     | inr _ =>
         exists dp xi eta theta beta,
           self run.2 =
           scHPF.set_fitted (resolved_bp (self σ) X) dp xi eta theta beta
             (self σ)
           /\ (length (gammas σ) <= xi)%nat
           /\ (length (gammas σ) <= theta)%nat
           /\ (freeze_genes = false ->
               (length (gammas σ) <= eta)%nat
               /\ (length (gammas σ) <= beta)%nat)
     end.
Proof.
  cbn zeta. unfold _initialize. rewrite run_bind.
  destruct (allocates_setup X freeze_genes true true σ) as (Ha & Hg & Hs).
  destruct (ok__setup σ (length (arrays σ)) (length (gammas σ)) X
              freeze_genes true true)
    with (σ := σ) as [_ Hret]; [by left|apply kept_start|].
  destruct (_setup _ _ _ _ σ)
    as [[e|[[[[[bp dp] xi] eta] theta] beta]] σ']; cbn [fst snd] in *;
    [done|].
  rewrite run_bind. cbn [get_self put_self fst snd arrays gammas self].
  split_and!; try done.
  destruct (Hret _ eq_refl) as (-> & Hxi & Hth & Hgenes).
  rewrite Hs. by eexists _, _, _, _, _.
Qed.

(** ** What [_fit] returns *)

(** X7.  The loop of [_fit] never rebinds the six names that [_setup]
    bound: when [_fit] returns, it returns exactly what [_setup] returned
    on the store of the call, the same hyperparameters and the same block
    objects (the updates were written to these objects), whatever the
    options and the callback. *)
Theorem fit_returns_what_setup_returned (X : coo_matrix)
    (validation_data : option coo_matrix) (freeze_genes reinit verbose : bool)
    (min_iter : option Z)
    (message_function : option (loc -> loc -> Z -> M unit)) (σ : state)
    (r : float64 * float64 * loc * loc * loc * loc) :
  (_fit X validation_data freeze_genes reinit verbose min_iter
     message_function σ).1 = inr r ->
  (_setup X freeze_genes reinit true σ).1 = inr r.
Proof.
  unfold _fit. rewrite run_bind. cbn [get_self].
  destruct (X_shape X) as [ncells ngenes]. rewrite run_bind.
  destruct (_setup _ _ _ _ σ)
    as [[e|[[[[[bp dp] xi] eta] theta] beta]] σ1]; cbn [fst snd]; [done|].
  repeat (rewrite run_bind;
          match goal with
          | |- context [match ?m ?s with _ => _ end] =>
              destruct (m s) as [[?|?] ?]
          end; cbn [fst snd]; [done|]).
  rewrite run_ret. cbn. congruence.
Qed.

(** ** How the loop is left *)

Lemma bind_keeps_state {A B} (m : M A) (k : A -> M B)
    (P : result B * state -> Prop) (σ : state) :
  keeps_self m ->
  (forall e σ', P (inl e, σ')) ->
  (forall x σ', self σ' = self σ -> P (k x σ')) ->
  P ((m ≫= k) σ).
Proof.
  intros Hm He Hk. rewrite run_bind. specialize (Hm σ).
  destruct (m σ) as [[e|x] σ']; cbn in *; [apply He|by apply Hk].
Qed.

(** X15.  Every early exit of the loop is announced.  Without a callback,
    an iteration [t] below [max_iter] (as all iterations of
    [range(self.max_iter)] are) that leaves the loop by [break] has just
    printed ['converged'] or ['getting worse break']: the test
    [t >= self.max_iter] at the end of the body never fires, and the loop
    is never left silently before [max_iter]. *)
Theorem loop_exit_is_announced (X : coo_matrix)
    (validation_data : option coo_matrix) (freeze_genes reinit verbose : bool)
    (min_iter : Z) (nfactors ncells ngenes : nat) (a c bp dp : float64)
    (xi eta theta beta : loc) (t : Z) (l l' : list float64 * option float64)
    (σ : state) :
  let run := iteration X validation_data freeze_genes reinit verbose min_iter
               None nfactors ncells ngenes a c bp dp xi eta theta beta t l
               σ in
  t < scHPF.max_iter (self σ) ->
  run.1 = inr (Break, l') ->
  exists out,
    stdout run.2 = out ++ [Said_converged]
    \/ stdout run.2 = out ++ [Said_getting_worse_break].
Proof.
  cbn zeta. intros Ht. unfold iteration.
  set (P := fun rs : result (loop_ctl * (list float64 * option float64))
                     * state =>
              rs.1 = inr (Break, l') ->
              exists out, stdout rs.2 = out ++ [Said_converged]
                          \/ stdout rs.2 = out ++ [Said_getting_worse_break]).
  apply (bind_keeps_state _ _ P); [auto with keeps|by intros ? ? [=]|].
  intros Xphi σ1 H1.
  apply (bind_keeps_state _ _ P); [auto with keeps|by intros ? ? [=]|].
  intros _ σ2 H2. rewrite H1 in H2. clear σ1 H1.
  apply (bind_keeps_state _ _ P); [auto with keeps|by intros ? ? [=]|].
  intros _ σ3 H3. rewrite H2 in H3. clear σ2 H2.
  rewrite <- H3 in Ht. clear H3. subst P. cbn beta.
  rewrite run_bind. cbn [get_self]. rewrite run_bind.
  destruct (scHPF.check_freq (self σ3) =? 0); [by intros [=]|].
  destruct (t mod scHPF.check_freq (self σ3) =? 0).
  - destruct l as [pct prev].
    set (vX := match validation_data with Some v => v | None => X end).
    pose proof (reads_pois_llh vX (Some theta) (Some beta) σ3) as Hr.
    destruct (pois_llh vX (Some theta) (Some beta) σ3) as [[e|llh] σ'] eqn:E;
      cbn in Hr; subst σ'.
    { unfold record_and_check. fold vX. rewrite run_bind, E. by intros [=]. }
    destruct (record_and_check_run X validation_data verbose min_iter theta
                beta t pct prev llh σ3 E) as (p & _ & ->).
    cbn zeta. destruct (check_convergence _ _ _ _ _ _) as [e|[]];
      cbn [fst snd].
    + by intros [=].
    + rewrite run_bind. cbn [get_self self].
      replace (scHPF.max_iter (scHPF.set_loss _ (self σ3)))
        with (scHPF.max_iter (self σ3)) by (by destruct (self σ3)).
      destruct (Z.leb_spec (scHPF.max_iter (self σ3)) t); [lia|].
      by intros [=].
    + intros _. cbn. by eauto.
    + intros _. cbn. by eauto.
  - cbn. rewrite run_bind. cbn [get_self].
    destruct (Z.leb_spec (scHPF.max_iter (self σ3)) t); [lia|].
    by intros [=].
Qed.

(** ** Defaults *)

(** X16.  [min_iter=None] stands for the estimator's own [min_iter], as
    it is when [fit] is called: the two calls give the same result and
    the same store, whatever the other options and the callback. *)
Theorem fit_min_iter_default (X : coo_matrix)
    (validation_data : option coo_matrix) (freeze_genes reinit verbose : bool)
    (message_function : option (loc -> loc -> Z -> M unit)) (σ : state) :
  fit X validation_data freeze_genes reinit verbose None message_function σ
  = fit X validation_data freeze_genes reinit verbose
      (Some (scHPF.min_iter (self σ))) message_function σ.
Proof.
  unfold fit. by rewrite !run_bind, _fit_min_iter_default.
Qed.

End Effects.

(** * Further properties: the blocks *)

Section Blocks.
Context `{Imports}.

(** X8.  What [random_gamma_factory] draws and when it fails.  For the
    shape parameters first and for the rate parameters second, it asks
    [np.random.uniform] for [size_of dims] numbers between 0.5 and 1.5
    times the prior and stores them in a new array of shape [dims].  A
    prior whose range [1.5 * prior - 0.5 * prior] is not finite makes the
    draw raise [OverflowError]: for the shape prior before anything is
    drawn or created, for the rate prior after the first draw and the
    first array.  With both ranges finite, the factory returns a new block
    on the two arrays exactly when every drawn number is greater than 0,
    and raises [AssertionError] otherwise: no block is created then, but
    both draws have been consumed and both arrays made.  It raises nothing
    else. *)
Theorem random_gamma_factory_outcome (dims : list nat)
    (shape_prior rate_prior : float64) (σ : state) :
  let run := random_gamma_factory dims shape_prior rate_prior σ in
  let shape_ok := is_finite (1.5 * shape_prior - 0.5 * shape_prior) in
  let rate_ok := is_finite (1.5 * rate_prior - 0.5 * rate_prior) in
  let '(s, r1) :=
    np_random_uniform (0.5 * shape_prior) (1.5 * shape_prior) (size_of dims)
      (random σ) in
  let '(r, r2) :=
    np_random_uniform (0.5 * rate_prior) (1.5 * rate_prior) (size_of dims)
      r1 in
  (forall e, run.1 = inl e -> e = OverflowError \/ e = AssertionError)
  /\ (run.1 = inl OverflowError <-> shape_ok = false \/ rate_ok = false)
  /\ (shape_ok = false -> run.2 = σ)
  /\ (shape_ok = true -> rate_ok = false ->
      run.2 = State (arrays σ ++ [NDArray dims s]) (gammas σ) (self σ) r1
                (stdout σ))
  /\ (shape_ok = true -> rate_ok = true ->
      random run.2 = r2
      /\ arrays run.2 = arrays σ ++ [NDArray dims s; NDArray dims r]
      /\ ((exists g, run.1 = inr g)
          <-> Forall (fun x => (0 <? x)%float = true) (s ++ r))
      /\ (forall g, run.1 = inr g ->
            g = length (gammas σ)
            /\ gammas run.2
               = gammas σ ++ [HPF_Gamma.Obj (length (arrays σ))
                                (S (length (arrays σ))) dims]
            /\ vi_shape g run.2 = (inr (NDArray dims s), run.2)
            /\ vi_rate g run.2 = (inr (NDArray dims r), run.2))
      /\ (forall e, run.1 = inl e ->
            e = AssertionError /\ gammas run.2 = gammas σ)).
Proof.
  cbn zeta. rewrite random_gamma_factory_run.
  destruct (np_random_uniform _ _ _ (random σ)) as [s r1].
  destruct (np_random_uniform _ _ _ r1) as [r r2].
  destruct (is_finite (1.5 * shape_prior - 0.5 * shape_prior)).
  2:{ cbn. split_and!; try done.
      - intros e [= <-]. by left.
      - split; [by left|done]. }
  destruct (is_finite (1.5 * rate_prior - 0.5 * rate_prior)).
  2:{ cbn. split_and!; try done.
      - intros e [= <-]. by left.
      - split; [by right|done]. }
  cbn zeta.
  assert (Hpos : forallb pos s && forallb pos r = true
                 <-> Forall (fun x => (0 <? x)%float = true) (s ++ r)).
  { rewrite Forall_app, andb_true_iff.
    by rewrite <- (all_pos_Forall (NDArray dims s)),
               <- (all_pos_Forall (NDArray dims r)). }
  destruct (forallb pos s && forallb pos r); cbn [fst snd random arrays gammas].
  - split_and!; try done.
    + split; [done|]. by intros [|].
    + intros _ _. split_and!; try done.
      * split; [intros _; by apply Hpos|intros _; by eexists].
      * intros g [= <-]. split_and!; try done.
        -- eapply vi_shape_run; cbn [gammas arrays];
             [by apply list_lookup_middle|]. cbn [HPF_Gamma.vi_shape].
           rewrite lookup_app_r by lia. by rewrite Nat.sub_diag.
        -- eapply vi_rate_run; cbn [gammas arrays];
             [by apply list_lookup_middle|]. cbn [HPF_Gamma.vi_rate].
           rewrite lookup_app_r by lia.
           by replace (S (length (arrays σ)) - length (arrays σ))%nat
             with 1%nat by lia.
  - split_and!; try done.
    + intros e [= <-]. by right.
    + split; [done|]. by intros [|].
    + intros _ _. split_and!; try done.
      * split; [by intros [g ?]|]. intros Hall. by apply Hpos in Hall.
      * by intros e [= <-].
Qed.

(** X9.  [HPF_Gamma.__init__] keeps the arrays it is given, not copies of
    them.  Once a block is constructed on the arrays at [ls] and [lr], a
    later in-place write to either array is seen through the block: its
    [vi_shape] (its [vi_rate]) reads whatever the array now holds,
    positive or not, since the check of the constructor is not run
    again. *)
Theorem HPF_Gamma_init_keeps_its_arrays (ls lr : loc) (σ σ' : state)
    (g : loc) (x : ndarray) :
  HPF_Gamma_init ls lr σ = (inr g, σ') ->
  vi_shape g (set_array ls x σ').2 = (inr x, (set_array ls x σ').2)
  /\ vi_rate g (set_array lr x σ').2 = (inr x, (set_array lr x σ').2).
Proof.
  unfold HPF_Gamma_init, get_array, assert, new_gamma, raise, mbind, M_bind,
    mret, M_ret.
  destruct (arrays σ !! ls) as [s|] eqn:Hs; [|done].
  destruct (arrays σ !! lr) as [r|] eqn:Hr; [|done].
  destruct (bool_decide _); [|done].
  destruct (all_pos s); [|done]. destruct (all_pos r); [|done].
  intros [= <- <-]. cbn.
  apply lookup_lt_Some in Hs, Hr.
  split.
  - eapply vi_shape_run; cbn; [by apply list_lookup_middle|].
    by apply list_lookup_insert_eq.
  - eapply vi_rate_run; cbn; [by apply list_lookup_middle|].
    by apply list_lookup_insert_eq.
Qed.

(** X17.  The mean of a block that the constructor accepted is always
    defined.  Right after [HPF_Gamma.__init__] has returned a block on the
    arrays [s] and [r], its [e_x] returns, without raising and without
    changing the store, the array of the shape of [s] that holds the
    quotients [s_i / r_i]: the equal shapes that the constructor asserted
    are what the division needs. *)
Theorem constructed_block_has_mean (ls lr : loc) (σ σ' : state) (g : loc) :
  HPF_Gamma_init ls lr σ = (inr g, σ') ->
  exists s r,
    arrays σ !! ls = Some s /\ arrays σ !! lr = Some r
    /\ e_x g σ'
       = (inr (NDArray (shape s) (zip_with PrimFloat.div (data s) (data r))),
          σ').
Proof.
  unfold HPF_Gamma_init, get_array, assert, new_gamma, raise, mbind, M_bind,
    mret, M_ret.
  destruct (arrays σ !! ls) as [s|] eqn:Hs; [|done].
  destruct (arrays σ !! lr) as [r|] eqn:Hr; [|done].
  destruct (bool_decide_reflect (shape s = shape r)) as [Hsh|]; [|done].
  destruct (all_pos s); [|done]. destruct (all_pos r); [|done].
  intros [= <- <-]. exists s, r. split_and!; try done.
  erewrite e_x_run; cbn [gammas arrays];
    [|by apply list_lookup_middle|done..].
  unfold np_div. by rewrite decide_True.
Qed.

End Blocks.

(** * Further properties: the stopping rules *)

Section Stopping.

Lemma ltb_irrefl (x : float64) : (x <? x)%float = false.
Proof.
  rewrite ltb_spec. unfold SFltb.
  destruct (Prim2SF x) as [[]| [] | |[] m e]; cbn; try done;
    by rewrite Z.compare_refl, Pos.compare_cont_refl.
Qed.

(** X10.  The degradation stop needs a window of two checks at least.
    In the loop (the history ends with the current loss), an estimator
    with [better_than_n_ago = 0] or [better_than_n_ago = 1] is never
    stopped as getting worse: with 0 the rule is switched off, and with 1
    the loss [self.loss[-1]] that the current loss is compared with is the
    current loss itself. *)
Theorem degradation_needs_window_of_two (s : scHPF.obj) (h : list float64)
    (curr : float64) (pct_change : list float64) (prev : option float64)
    (t min_iter : Z) :
  scHPF.loss s = h ++ [curr] ->
  0 <= scHPF.better_than_n_ago s <= 1 ->
  check_convergence s pct_change prev curr t min_iter <> inr Getting_worse.
Proof.
  intros Hl Hn. unfold check_convergence, index, bound. rewrite Hl.
  destruct (_ && _); [|done].
  destruct (py_index pct_change (-1)); [|done].
  destruct (py_index pct_change (-2)); [|done].
  destruct (py_index (h ++ [curr]) (-3)); [|done].
  destruct prev as [p|]; [|done].
  destruct (_ && _ && _); [done|].
  destruct (Z.eqb_spec (scHPF.better_than_n_ago s) 0) as [->|Hz].
  { by rewrite andb_false_r. }
  replace (scHPF.better_than_n_ago s) with 1 by lia.
  destruct (_ && _); [|done].
  change (- (1)) with (-1). rewrite py_index_last, ltb_irrefl. done.
Qed.

(** X11.  When the check itself fails.  In the loop (the history ends
    with the current loss and [pct_change] has just been extended) and
    with [better_than_n_ago >= 0], the convergence check raises nothing
    but [IndexError], and it raises it exactly when the 4-point gate opens
    at the first check of the call: the history already holds three
    losses of an earlier call, [t >= min_iter], and [pct_change] has one
    entry only, so that [pct_change[-2]] does not exist. *)
Theorem check_raises_on_inherited_history (s : scHPF.obj)
    (h : list float64) (curr : float64) (pct0 : list float64)
    (prev0 : option float64) (t min_iter : Z) :
  scHPF.loss s = h ++ [curr] ->
  0 <= scHPF.better_than_n_ago s ->
  let rec := record_pct_change (scHPF.loss s) pct0 prev0 curr in
  let r := check_convergence s rec.1 rec.2 curr t min_iter in
  (forall e, r = inl e -> e = IndexError)
  /\ (r = inl IndexError
      <-> (3 <= length h)%nat /\ min_iter <= t /\ pct0 = []).
Proof.
  intros Hl Hn. cbn zeta. unfold check_convergence, record_pct_change.
  rewrite Hl.
  assert (HL : length (h ++ [curr]) = S (length h))
    by (rewrite length_app; cbn; lia).
  rewrite HL.
  destruct (Z.ltb_spec 3 (Z.of_nat (S (length h)))) as [H3|H3]; cbn [andb];
    [|split; [done|]; split; [done|lia]].
  destruct (Z.leb_spec min_iter t) as [Hm|Hm];
    [|split; [done|]; split; [done|lia]].
  destruct (py_index_is_Some (h ++ [curr]) (-2)) as [_ [p Hp]]; [lia|].
  destruct (py_index_is_Some (h ++ [curr]) (-3)) as [_ [l3 Hl3]]; [lia|].
  rewrite Hp. cbn [fst snd]. unfold index, bound.
  rewrite py_index_last, Hl3.
  match goal with |- context [py_index (pct0 ++ [?y]) (-2)] =>
    destruct (py_index (pct0 ++ [y]) (-2)) as [p2|] eqn:E2 end.
  - assert (Hne : pct0 <> []).
    { intros ->. cbn in E2. done. }
    destruct (_ && _ && _); [split; [done|]; split; [done|tauto]|].
    destruct (Z.ltb_spec (scHPF.better_than_n_ago s)
                (Z.of_nat (S (length h)))) as [Hlt|Hlt]; cbn [andb];
      [|split; [done|]; split; [done|tauto]].
    destruct (Z.eqb_spec (scHPF.better_than_n_ago s) 0) as [Hz|Hz];
      cbn [negb]; [split; [done|]; split; [done|tauto]|].
    destruct (py_index_is_Some (h ++ [curr]) (- scHPF.better_than_n_ago s))
      as [_ [np Hnp]]; [lia|].
    rewrite Hnp. destruct (_ && _); split; try done; split; try done; tauto.
  - assert (pct0 = []) as ->.
    { apply py_index_None in E2. rewrite length_app in E2. cbn in E2.
      destruct pct0; [done|]. cbn in E2. lia. }
    split; [by intros e [= <-]|]. split; [intros _; split_and!; [lia|done..]|done].
Qed.

End Stopping.

(** * Further properties: scores *)

Section Scores.
Context `{Imports}.

Lemma lookup_concat_rows {A} (ls : list (list A)) (k i j : nat) :
  Forall (fun l => length l = k) ls -> (j < k)%nat ->
  concat ls !! (i * k + j)%nat = ls !! i ≫= (.!! j).
Proof.
  intros Hls Hj. revert i. induction Hls as [|l ls Hl _ IH]; intros i.
  { by destruct i. }
  cbn [concat]. destruct i as [|i]; cbn.
  - rewrite lookup_app_l by lia. done.
  - rewrite lookup_app_r by lia. rewrite <- IH. f_equal. lia.
Qed.

Lemma length_concat_rows {A} (ls : list (list A)) (k : nat) :
  Forall (fun l => length l = k) ls ->
  length (concat ls) = (length ls * k)%nat.
Proof.
  induction 1 as [|l ls Hl _ IH]; [done|]. cbn. rewrite length_app. lia.
Qed.

Lemma lookup_row (k : nat) (d : list float64) (i j : nat) :
  (j < k)%nat -> row k d i !! j = d !! (i * k + j)%nat.
Proof.
  intros Hj. unfold row. rewrite lookup_take_lt by done.
  by rewrite lookup_drop.
Qed.

Lemma length_row (k n : nat) (d : list float64) (i : nat) :
  length d = (n * k)%nat -> (i < n)%nat -> length (row k d i) = k.
Proof.
  intros Hd Hi. unfold row. rewrite length_take, length_drop. nia.
Qed.

(** [x * d[:,None]], entry by entry *)
Lemma np_mul_column_run (x d : ndarray) (n k : nat) :
  shape x = [n; k] -> shape d = [n] ->
  length (data x) = (n * k)%nat -> length (data d) = n ->
  exists out,
    np_mul_column x d = inr out
    /\ shape out = [n; k]
    /\ length (data out) = (n * k)%nat
    /\ forall i j u v,
         (j < k)%nat ->
         data x !! (i * k + j)%nat = Some u -> data d !! i = Some v ->
         data out !! (i * k + j)%nat = Some (u * v)%float.
Proof.
  intros Hx Hd Hlx Hld. unfold np_mul_column. rewrite Hx, Hd.
  rewrite decide_True by done. eexists. split; [done|]. cbn [shape data].
  set (f := fun (i : nat) (v : float64) =>
              map (fun u => (u * v)%float) (row k (data x) i)).
  assert (Hrows : Forall (fun l => length l = k) (imap f (data d))).
  { apply Forall_lookup. intros i l Hl. rewrite list_lookup_imap in Hl.
    destruct (data d !! i) as [v|] eqn:Hv; [|done]. cbn in Hl.
    injection Hl as <-. unfold f. rewrite length_map.
    apply (length_row k n); [done|]. apply lookup_lt_Some in Hv. lia. }
  split; [done|]. split.
  { rewrite (length_concat_rows _ k) by done. by rewrite length_imap, Hld. }
  intros i j u v Hj Hu Hv.
  rewrite lookup_concat_rows by done.
  rewrite list_lookup_imap, Hv. cbn. unfold f.
  rewrite list_lookup_fmap, lookup_row by done. by rewrite Hu.
Qed.

(** X12.  The scores, entry by entry.  For a capacity block ([xi] or
    [eta]) on two 1-D arrays of [n] numbers and a loading block ([theta]
    or [beta]) on two 2-D arrays of [n] rows and [k] columns, the score
    ([cell_score], [gene_score], through [_score]) is an [n] by [k] array
    whose entry at row [i] and factor [j] is the expectation of the
    loading at [(i, j)] times the expectation of the capacity at [i]:
    [(shape_ij / rate_ij) * (shape_i / rate_i)].  The blocks are those
    given as arguments or, for an argument left out, those the estimator
    is bound to.  The store is not changed. *)
Theorem score_formula (σ : state) (capacity loading : loc)
    (oc ol : HPF_Gamma.obj) (cs cr ls lr : ndarray) (n k : nat) :
  gammas σ !! capacity = Some oc ->
  arrays σ !! HPF_Gamma.vi_shape oc = Some cs ->
  arrays σ !! HPF_Gamma.vi_rate oc = Some cr ->
  gammas σ !! loading = Some ol ->
  arrays σ !! HPF_Gamma.vi_shape ol = Some ls ->
  arrays σ !! HPF_Gamma.vi_rate ol = Some lr ->
  shape cs = [n] -> shape cr = [n] ->
  length (data cs) = n -> length (data cr) = n ->
  shape ls = [n; k] -> shape lr = [n; k] ->
  length (data ls) = (n * k)%nat -> length (data lr) = (n * k)%nat ->
  exists out,
    shape out = [n; k]
    /\ length (data out) = (n * k)%nat
    /\ (forall i j a b c d,
          (j < k)%nat ->
          data ls !! (i * k + j)%nat = Some a ->
          data lr !! (i * k + j)%nat = Some b ->
          data cs !! i = Some c -> data cr !! i = Some d ->
          data out !! (i * k + j)%nat = Some (a / b * (c / d))%float)
    /\ (forall c_arg l_arg,
          (c_arg = Some capacity
           \/ c_arg = None /\ scHPF.xi (self σ) = Some capacity) ->
          (l_arg = Some loading
           \/ l_arg = None /\ scHPF.theta (self σ) = Some loading) ->
          cell_score c_arg l_arg σ = (inr out, σ))
    /\ (forall c_arg l_arg,
          (c_arg = Some capacity
           \/ c_arg = None /\ scHPF.eta (self σ) = Some capacity) ->
          (l_arg = Some loading
           \/ l_arg = None /\ scHPF.beta (self σ) = Some loading) ->
          gene_score c_arg l_arg σ = (inr out, σ)).
Proof.
  intros Hc Hcs Hcr Hl Hls Hlr Sc Sc' Lc Lc' Sl Sl' Ll Ll'.
  destruct (np_mul_column_run
              (NDArray [n; k] (zip_with PrimFloat.div (data ls) (data lr)))
              (NDArray [n] (zip_with PrimFloat.div (data cs) (data cr)))
              n k) as (out & Hout & Hsh & Hlen & Hent); cbn [shape data];
    try done; try (rewrite length_zip_with; lia).
  assert (Hscore : _score (Some capacity) (Some loading) σ = (inr out, σ)).
  { unfold _score. cbn [attr]. rewrite run_bind, run_ret.
    rewrite run_bind, (e_x_run _ _ _ _ _ Hl Hls Hlr).
    unfold np_div. rewrite decide_True by congruence.
    rewrite run_bind, run_ret.
    rewrite run_bind, (e_x_run _ _ _ _ _ Hc Hcs Hcr).
    unfold np_div. rewrite decide_True by congruence.
    unfold lift. by rewrite Sl, Sc, Hout. }
  exists out. split_and!; try done.
  - intros i j a b c d Hj Ha Hb Hci Hdi. apply Hent; [done| |].
    + cbn [data]. rewrite lookup_zip_with, Ha. cbn. by rewrite Hb.
    + cbn [data]. rewrite lookup_zip_with, Hci. cbn. by rewrite Hdi.
  - intros c_arg l_arg [->|[-> Hx]] [->|[-> Ht]]; unfold cell_score;
      rewrite run_bind; cbn [get_self]; rewrite ?Hx, ?Ht; exact Hscore.
  - intros c_arg l_arg [->|[-> Hx]] [->|[-> Ht]]; unfold gene_score;
      rewrite run_bind; cbn [get_self]; rewrite ?Hx, ?Ht; exact Hscore.
Qed.

Lemma reads__score (capacity loading : option loc) :
  reads (_score capacity loading).
Proof.
  unfold _score.
  repeat (apply reads_bind; [first [apply reads_attr|apply reads_e_x]|];
          intros ?).
  apply reads_lift.
Qed.

(** X13.  The scores only read, and need blocks.  [cell_score] and
    [gene_score] never change the store, whether they return or raise.
    On an estimator that was never fitted (its [theta], its [beta], is
    [None]) and with no loading block given, they raise
    [AttributeError]. *)
Theorem scores_only_read (capacity loading : option loc) (σ : state) :
  (cell_score capacity loading σ).2 = σ
  /\ (gene_score capacity loading σ).2 = σ
  /\ (loading = None -> scHPF.theta (self σ) = None ->
      (cell_score capacity loading σ).1 = inl AttributeError)
  /\ (loading = None -> scHPF.beta (self σ) = None ->
      (gene_score capacity loading σ).1 = inl AttributeError).
Proof.
  split_and!.
  - unfold cell_score. rewrite run_bind. cbn [get_self]. apply reads__score.
  - unfold gene_score. rewrite run_bind. cbn [get_self]. apply reads__score.
  - intros -> Ht. unfold cell_score. rewrite run_bind. cbn [get_self].
    by rewrite Ht.
  - intros -> Hb. unfold gene_score. rewrite run_bind. cbn [get_self].
    by rewrite Hb.
Qed.

(** X14.  The likelihood only reads, and needs blocks.  [pois_llh] and
    [pois_llh_pointwise] never change the store, whether they return or
    raise, with the compiled kernel or without it.  On an estimator that
    was never fitted (its [theta] is [None]) and with no [theta] given,
    they raise [AttributeError]. *)
Theorem pois_llh_only_reads (X : coo_matrix) (theta beta : option loc)
    (σ : state) :
  (pois_llh_pointwise X theta beta σ).2 = σ
  /\ (pois_llh X theta beta σ).2 = σ
  /\ (theta = None -> scHPF.theta (self σ) = None ->
      (pois_llh_pointwise X theta beta σ).1 = inl AttributeError
      /\ (pois_llh X theta beta σ).1 = inl AttributeError).
Proof.
  split_and!; [apply reads_pois_llh_pointwise|apply reads_pois_llh|].
  intros -> Ht.
  assert (Hp : (pois_llh_pointwise X None beta σ).1 = inl AttributeError).
  { unfold pois_llh_pointwise. rewrite run_bind. cbn [get_self]. rewrite Ht.
    by destruct compute_pois_llh. }
  split; [done|]. unfold pois_llh. rewrite run_bind.
  by destruct (pois_llh_pointwise X None beta σ) as [[e|x] σ']; cbn in *;
    simplify_eq.
Qed.

End Scores.

(** * The properties at concrete inputs

    All runs below use the executable instance [reference] of the
    imports. *)

#[local] Existing Instance reference.

(** ** C8 *)

Lemma HPF_Gamma_init_validates_witness :
  let σ := State (H := reference) two_arrays [] (estimator 1 None None)
             0%nat [] in
  exists g σ',
    HPF_Gamma_init 0%nat 1%nat σ = (inr g, σ')
    /\ vi_shape g σ' = (inr (NDArray [2%nat] [1%float; 2%float]), σ').
Proof.
  intros σ.
  destruct (HPF_Gamma_init_validates σ 0%nat 1%nat
              (NDArray [2%nat] [1%float; 2%float])
              (NDArray [2%nat] [3%float; 4%float])
              eq_refl eq_refl) as [_ Hok].
  destruct Hok as (g & σ' & Hrun & _ & Hs & _).
  - reflexivity.
  - repeat constructor.
  - repeat constructor.
  - by exists g, σ'.
Defined.

(** a non-positive rate is refused *)
Example HPF_Gamma_init_refuses_zero :
  let σ := State (H := reference)
             [NDArray [1%nat] [1%float]; NDArray [1%nat] [0%float]] []
             (estimator 1 None None) 0%nat [] in
  HPF_Gamma_init 0%nat 1%nat σ = (inl AssertionError, σ).
Proof. reflexivity. Qed.

(** ** C1 *)

(** An iteration that checks, on a store whose three recorded losses
    equal the loss 1.175 that the iteration computes: the percent change
    is 0 twice, [t = 10] is past the floor 0, and the body records the
    loss, prints its message and ['converged'], and breaks. *)
Lemma convergence_declared_iff_witness :
  let σ := store_with_losses [1.175%float; 1.175%float; 1.175%float] 2 in
  let run := iteration X22 None true false true 0 None 2 2 2 0.3 0.3 1 1
               0%nat 0%nat 1%nat 2%nat 10 ([0%float], None) σ in
  run.1 = inr (Break, ([0%float; 0%float], Some 1.175%float))
  /\ stdout run.2 = [Iter_msg 10 1.175 0; Said_converged]
  /\ scHPF.loss (self run.2)
     = [1.175%float; 1.175%float; 1.175%float; 1.175%float].
Proof.
  intros σ run.
  destruct (convergence_declared_iff (H := reference) X22 None true false
              true 0 2 2 2 0.3 0.3 1 1 0%nat 0%nat 1%nat 2%nat None 10
              [0%float] None σ
              (updates X22 true false 2 2 2 0.3 0.3 1 1 0%nat 0%nat 1%nat
                 2%nat 10 σ).2
              (-2.35)%float)
    as [[_ Hdeclared] _];
    [by vm_compute|by vm_compute|by vm_compute|by vm_compute|
     by intros p _ f [=]|].
  destruct Hdeclared as (p & Hp & Hrun).
  { split; [vm_compute; lia|]. split; [lia|].
    exists 0%float, 0%float, 1.175%float, 1.175%float.
    split_and!; try (by vm_compute).
    intros [Hlt _]. by vm_compute in Hlt. }
  subst run. rewrite Hrun. vm_compute in Hp. injection Hp as <-.
  clear Hrun. vm_compute. repeat split.
Defined.

(** the same losses before the minimum-iteration floor: no test *)
Example no_convergence_before_min_iter :
  let s := with_loss [5%float; 5%float; 5%float; 5%float] 5 in
  check_convergence s [100%float; 0%float; 0%float; 0%float] (Some 5%float)
    5%float 20 30 = inr Continue.
Proof. reflexivity. Qed.

(** a local bounce is not convergence *)
Example no_convergence_at_inflection :
  let s := with_loss [5%float; 5%float; 5.00001%float; 5%float] 0 in
  check_convergence s [100%float; 0%float; 0.0002%float; (-0.0002)%float]
    (Some 5.00001%float) 5%float 30 30 = inr Continue.
Proof. reflexivity. Qed.

(** ** C2 *)

(** The rule as C2 states it fails, in two iterations that check.  In
    the first the history holds two losses equal to 0 and the window is
    2: once the loss 1.175 is recorded, 3 loss points exist, more than the
    window, and the current loss is worse than the previous one and than
    the one two checks back; yet the loop goes on, because fewer than 4
    points exist.  In the second the history holds three such losses, so
    that 4 points exist, but [t = 10] is below the floor [min_iter = 30]:
    the loop goes on as well. *)
Lemma degradation_rule_is_gated :
  (let σ := store_with_losses [0%float; 0%float] 2 in
   let run := iteration X22 None true false true 0 None 2 2 2 0.3 0.3 1 1
                0%nat 0%nat 1%nat 2%nat 10 ([0%float], None) σ in
   scHPF.loss (self run.2) = [0%float; 0%float; 1.175%float]
   /\ scHPF.better_than_n_ago (self run.2) = 2
   /\ (abs 0 <? abs 1.175)%float = true
   /\ run.1 = inr (Next, ([0%float; infinity], Some 0%float))
   /\ stdout run.2 = [Iter_msg 10 1.175 infinity])
  /\
  (let run := iteration X22 None true false true 30 None 2 2 2 0.3 0.3 1 1
                0%nat 0%nat 1%nat 2%nat 10 ([0%float], None) loop_store in
   scHPF.loss (self run.2) = [0%float; 0%float; 0%float; 1.175%float]
   /\ scHPF.better_than_n_ago (self run.2) = 2
   /\ run.1 = inr (Next, ([0%float; infinity], Some 0%float))
   /\ stdout run.2 = [Iter_msg 10 1.175 infinity]).
Proof. by vm_compute. Qed.

(** Three losses equal to 0, a window of 2, [t = 10] past the floor 0 and
    a second percent change: the loss 1.175 is worse than the previous
    loss and than the ones two and three checks back, and the body prints
    ['getting worse break'] and breaks. *)
Lemma degradation_stop_gated_witness :
  let run := iteration X22 None true false true 0 None 2 2 2 0.3 0.3 1 1
               0%nat 0%nat 1%nat 2%nat 10 ([0%float], None) loop_store in
  run.1 = inr (Break, ([0%float; infinity], Some 0%float))
  /\ stdout run.2 = [Iter_msg 10 1.175 infinity; Said_getting_worse_break].
Proof.
  intros run.
  destruct (degradation_stop_gated (H := reference) X22 None true false
              true 0 2 2 2 0.3 0.3 1 1 0%nat 0%nat 1%nat 2%nat None 10
              [0%float] None loop_store
              (updates X22 true false 2 2 2 0.3 0.3 1 1 0%nat 0%nat 1%nat
                 2%nat 10 loop_store).2
              (-2.35)%float)
    as (_ & Hstop & _);
    [by vm_compute|by vm_compute|by vm_compute|by vm_compute|
     by intros p _ f [=]|].
  destruct Hstop as (p & Hp & Hrun).
  - vm_compute. lia.
  - lia.
  - by vm_compute.
  - by vm_compute.
  - done.
  - intros (q & _ & Hq). vm_compute in Hq. discriminate Hq.
  - exists 0%float. by vm_compute.
  - exists 0%float. by vm_compute.
  - exists 0%float. by vm_compute.
  - subst run. rewrite Hrun. vm_compute in Hp. injection Hp as <-.
    clear Hrun. vm_compute. repeat split.
Defined.

(** the first check of a call never stops the loop this way: with
    [pct_change] empty before it, the check raises [IndexError] *)
Example degradation_at_first_check :
  (iteration X22 None true false true 0 None 2 2 2 0.3 0.3 1 1
     0%nat 0%nat 1%nat 2%nat 10 ([], None) loop_store).1 = inl IndexError.
Proof. by vm_compute. Qed.

(** ** C4 *)

(** Estimated [b' = 2000] and [d' = 1]: [d'] becomes exactly [2.0] and
    the adjustment is printed.  Estimated [b' = 5] and [d' = 1]: nothing
    changes. *)
Lemma clip_applies_to_estimated_dp_witness :
  (let run := _setup X_unit false true true
                (fresh_store (estimator 2000 None None)) in
   stdout run.2 = [Clipping_dp 1 2]
   /\ returns_dp run.1 2%float
   /\ exists xi eta theta beta,
        run.1 = inr (2000%float, 2%float, xi, eta, theta, beta))
  /\
  (let run := _setup X_unit false true true
                (fresh_store (estimator 5 None None)) in
   stdout run.2 = []
   /\ returns_dp run.1 1%float
   /\ exists xi eta theta beta,
        run.1 = inr (5%float, 1%float, xi, eta, theta, beta)).
Proof.
  split.
  - pose proof (clip_applies_to_estimated_dp (H := reference) X_unit false
                  true true (fresh_store (estimator 2000 None None))
                  eq_refl eq_refl) as [Hout Hdp].
    split; [exact Hout|]. split; [exact Hdp|].
    vm_compute. by eexists _, _, _, _.
  - pose proof (clip_applies_to_estimated_dp (H := reference) X_unit false
                  true true (fresh_store (estimator 5 None None))
                  eq_refl eq_refl) as [Hout Hdp].
    split; [exact Hout|]. split; [exact Hdp|].
    vm_compute. by eexists _, _, _, _.
Defined.

(** The clip as C4 states it fails: the estimator holds both
    [b' = 2000] and [d' = 1], [b'] exceeds 1000 times [d'], and setup
    returns [d' = 1] and prints nothing. *)
Lemma supplied_dp_is_not_clipped :
  let s := estimator 1 (Some 2000%float) (Some 1%float) in
  let run := _setup X_unit false true true (fresh_store s) in
  scHPF.bp s = Some 2000%float /\ scHPF.dp s = Some 1%float
  /\ (1000 * 1 <? 2000)%float = true
  /\ (exists xi eta theta beta,
        run.1 = inr (2000%float, 1%float, xi, eta, theta, beta))
  /\ stdout run.2 = [].
Proof. vm_compute. repeat split. by eexists _, _, _, _. Qed.

(** ** C7 *)

(** The error as C7 states it fails: the estimator holds [d'],
    the gene side is frozen, and setup raises a configuration error all
    the same, because [eta] and [beta] are missing. *)
Lemma configuration_error_with_dp :
  let s := estimator 1 (Some 1%float) (Some 1%float) in
  let run := _setup X22 true true true (fresh_store s) in
  scHPF.dp s = Some 1%float
  /\ run.1 = inl (ValueError msg_freeze)
  /\ is_ValueError run.1 = true.
Proof. vm_compute. repeat split. Qed.

(** no [d'] and the gene side frozen: the error, and the store as it was *)
Lemma missing_dp_error_iff_witness :
  _setup X22 true true true (fresh_store (estimator 1 None None))
  = (inl (ValueError msg_dp), fresh_store (estimator 1 None None)).
Proof.
  by apply (missing_dp_error_iff (H := reference) X22 true true true
              (fresh_store (estimator 1 None None))).
Defined.

(** a warm start with the gene side frozen, [d'], [xi] and [theta] at
    hand and no [eta]: the second configuration error, the store as it
    was *)
Example frozen_warm_start_without_eta :
  let s := scHPF.Obj 2 0.3 1 (Some 1%float) 0.3 1 (Some 1%float) 1 3 1 0.001
             5 (Some 0%nat) None (Some 1%nat) None [] in
  _setup X22 true false true (fresh_store s)
  = (inl (ValueError msg_freeze), fresh_store s).
Proof. by vm_compute. Qed.

(** the same estimator with a negative [a], on a cold start: the creation
    of [theta] fails first, and the error is not a configuration error *)
Example frozen_cell_side_fails_first :
  let s := scHPF_init 2 (-1) 1 (Some 1%float) 0.3 1 (Some 1%float) 1 3 1
             0.001 5 None None None None None in
  (_setup X22 true true true (fresh_store s)).1 = inl AssertionError.
Proof. by vm_compute. Qed.

(** data whose rows have the same sum: the estimate of [b'] is not
    finite, and the draw of the rates of [xi] raises [OverflowError] *)
Example setup_on_even_rows :
  (_setup X_even false true true (fresh_store (estimator 1 None None))).1
  = inl OverflowError.
Proof. by vm_compute. Qed.

(** ** C6 *)

Lemma pois_llh_pointwise_formula_witness :
  exists llh : list float64,
    pois_llh X22 (Some 0%nat) (Some 1%nat) scored_store
      = (inr (np_sum llh), scored_store)
    /\ length llh = 2%nat
    /\ llh !! 0%nat =
       Some (let rate := (1 / 2 * (1 / 4) + 2 / 2 * (1 / 4))%float in
             2 * np_log rate - rate - gammaln (2 + 1))%float.
Proof.
  destruct (pois_llh_pointwise_formula (H := reference) X22 scored_store
              0%nat 1%nat (HPF_Gamma.Obj 0%nat 1%nat [2; 2]%nat)
              (HPF_Gamma.Obj 2%nat 3%nat [2; 2]%nat)
              (NDArray [2; 2]%nat [1%float; 2%float; 3%float; 4%float])
              (NDArray [2; 2]%nat [2%float; 2%float; 2%float; 2%float])
              (NDArray [2; 2]%nat [1%float; 1%float; 1%float; 1%float])
              (NDArray [2; 2]%nat [4%float; 4%float; 4%float; 4%float])
              2%nat 2%nat 2%nat)
    as (llh & _ & Hsum & Hlen & Hentry);
    try reflexivity; try (repeat constructor; fail).
  - exists llh. split; [exact Hsum|]. split; [exact Hlen|].
    rewrite (Hentry 0%nat 0%nat 0%nat 2%float eq_refl eq_refl eq_refl).
    vm_compute. reflexivity.
Defined.

(** ** C3 *)

(** A second [fit(X)] on the same estimator: the three losses of the
    first call are still in front of the history, which now has five
    entries; the call recorded two. *)
Lemma fit_keeps_old_losses_witness :
  let σ2 := (fit X22 None false true true None None fitted_once).2 in
  length (scHPF.loss (self fitted_once)) = 3%nat
  /\ length (scHPF.loss (self σ2)) = 5%nat
  /\ scHPF.loss (self fitted_once) `prefix_of` scHPF.loss (self σ2)
  /\ take 3 (scHPF.loss (self σ2)) = scHPF.loss (self fitted_once).
Proof.
  intros σ2. split; [by vm_compute|]. split; [by vm_compute|].
  split; [|by vm_compute].
  apply (fit_keeps_old_losses (H := reference) X22 None false true true None
           None fitted_once).
  intros f Hf. discriminate Hf.
Defined.

(** With [min_iter=0] the second call does not even finish: at its first
    check the stale history passes the 4-point gate while [pct_change]
    holds a single entry. *)
Example refit_raises_IndexError :
  let s := scHPF_init 2 0.3 1 None 0.3 1 None 0 3 1 0.001 5 None None None
             None None in
  let σ1 := (fit X22 None false true true None None (fresh_store s)).2 in
  (fit X22 None false true true None None σ1).1 = inl IndexError.
Proof. by vm_compute. Qed.

(** ** C5 *)

(** [project(X)] on the fitted estimator returns [b'] and two new blocks;
    the gene blocks at addresses 2 and 3 are as they were. *)
Example project_after_fit :
  let run := project X22 None 10 fitted_once in
  run.1 = inr (6%float, 4%nat, 5%nat)
  /\ scHPF.eta (self run.2) = Some 2%nat
  /\ scHPF.beta (self run.2) = Some 3%nat
  /\ (vi_shape 2%nat run.2).1 = (vi_shape 2%nat fitted_once).1
  /\ (vi_rate 2%nat run.2).1 = (vi_rate 2%nat fitted_once).1
  /\ (vi_shape 3%nat run.2).1 = (vi_shape 3%nat fitted_once).1
  /\ (vi_rate 3%nat run.2).1 = (vi_rate 3%nat fitted_once).1.
Proof. by vm_compute. Qed.

(** The return value as C5 states it fails: the fitted estimator
    holds [b' = 6], from the data it was fitted on; on new data whose own
    estimate of [b'] is 1, [project] returns 6. *)
Lemma project_returns_stored_bp :
  let run := project X_unit None 10 fitted_once in
  scHPF.eta (self fitted_once) = Some 2%nat
  /\ scHPF.beta (self fitted_once) = Some 3%nat
  /\ scHPF.bp (self fitted_once) = Some 6%float
  /\ (scHPF.ap (self fitted_once) * mean_var_ratio X_unit 1)%float = 1%float
  /\ run.1 = inr (6%float, 4%nat, 5%nat).
Proof. by vm_compute. Qed.

(** ** Further properties at concrete inputs *)

(** an estimator with [check_freq = 0]: [fit] raises, and the estimator is
    as it was *)
Lemma fit_check_freq_zero_raises_witness :
  let s := scHPF_init 2 0.3 1 None 0.3 1 None 1 3 0 0.001 5 None None None
             None None in
  let run := fit X22 None false true true None None (fresh_store s) in
  (exists e, run.1 = inl e) /\ self run.2 = s.
Proof.
  intros s run.
  destruct (fit_check_freq_zero_raises (H := reference) X22 None false true
              true None None (fresh_store s) eq_refl eq_refl)
    as (Hraises & Hself & _).
  by split.
Defined.

(** the exception is the one of [t % self.check_freq] *)
Example fit_check_freq_zero_ZeroDivisionError :
  let s := scHPF_init 2 0.3 1 None 0.3 1 None 1 3 0 0.001 5 None None None
             None None in
  (fit X22 None false true true None None (fresh_store s)).1
  = inl ZeroDivisionError.
Proof. by vm_compute. Qed.

(** a warm start on an estimator bound to four blocks: they are handed
    back, and the store is as it was *)
Lemma setup_warm_start_reuses_witness :
  _setup X22 false false true bound_store
  = (inr (6%float, 6%float, 0%nat, 2%nat, 1%nat, 3%nat), bound_store).
Proof.
  exact (setup_warm_start_reuses (H := reference) X22 false true 6%float
           0%nat 2%nat 1%nat 3%nat bound_store eq_refl eq_refl eq_refl
           eq_refl eq_refl).
Defined.

(** the first [fit] of a new estimator returns the blocks of its setup *)
Lemma fit_returns_what_setup_returned_witness :
  (_setup X22 false true true (fresh_store (estimator 1 None None))).1
  = inr (6%float, 6%float, 0%nat, 2%nat, 1%nat, 3%nat).
Proof.
  apply (fit_returns_what_setup_returned (H := reference) X22 None false
           true true None None (fresh_store (estimator 1 None None))).
  by vm_compute.
Defined.

(** a block on two positive arrays, then zeros written to its shape
    array: the block reads the zeros *)
Lemma HPF_Gamma_init_keeps_its_arrays_witness :
  let σ := State (H := reference) two_arrays [] (estimator 1 None None)
             0%nat [] in
  let σ' := State (H := reference) two_arrays
              [HPF_Gamma.Obj 0%nat 1%nat [2%nat]] (estimator 1 None None)
              0%nat [] in
  let zeros := NDArray [2%nat] [0%float; 0%float] in
  HPF_Gamma_init 0%nat 1%nat σ = (inr 0%nat, σ')
  /\ vi_shape 0%nat (set_array 0%nat zeros σ').2
     = (inr zeros, (set_array 0%nat zeros σ').2)
  /\ vi_rate 0%nat (set_array 1%nat zeros σ').2
     = (inr zeros, (set_array 1%nat zeros σ').2).
Proof.
  intros σ σ' zeros. split; [reflexivity|].
  apply (HPF_Gamma_init_keeps_its_arrays (H := reference) 0%nat 1%nat σ σ'
           0%nat zeros).
  reflexivity.
Defined.

(** the mean of a block on the arrays [1, 2] and [3, 4] *)
Lemma constructed_block_has_mean_witness :
  let σ := State (H := reference) two_arrays [] (estimator 1 None None)
             0%nat [] in
  let σ' := State (H := reference) two_arrays
              [HPF_Gamma.Obj 0%nat 1%nat [2%nat]] (estimator 1 None None)
              0%nat [] in
  exists s r,
    arrays σ !! 0%nat = Some s /\ arrays σ !! 1%nat = Some r
    /\ e_x 0%nat σ'
       = (inr (NDArray (shape s) (zip_with PrimFloat.div (data s) (data r))),
          σ').
Proof.
  intros σ σ'.
  apply (constructed_block_has_mean (H := reference) 0%nat 1%nat σ σ' 0%nat).
  reflexivity.
Defined.

(** a window of 1 on a history that gets worse at every check: no stop *)
Lemma degradation_needs_window_of_two_witness :
  check_convergence (with_loss [1%float; 2%float; 3%float; 4%float] 1)
    [50%float; 33%float] (Some 3%float) 4 30 30
  <> inr Getting_worse.
Proof.
  apply (degradation_needs_window_of_two
           (with_loss [1%float; 2%float; 3%float; 4%float] 1)
           [1%float; 2%float; 3%float] 4 [50%float; 33%float] (Some 3%float)
           30 30); [reflexivity|cbn; lia].
Defined.

(** the same history with a window of 2 is stopped *)
Example degradation_with_window_of_two :
  check_convergence (with_loss [1%float; 2%float; 3%float; 4%float] 2)
    [50%float; 33%float] (Some 3%float) 4 30 30
  = inr Getting_worse.
Proof. by vm_compute. Qed.

(** three losses inherited, [min_iter = 0], first check of the call *)
Lemma check_raises_on_inherited_history_witness :
  let s := with_loss [1%float; 1%float; 1%float; 1%float] 5 in
  let rec := record_pct_change (scHPF.loss s) [] None 1 in
  check_convergence s rec.1 rec.2 1 0 0 = inl IndexError.
Proof.
  intros s rec.
  destruct (check_raises_on_inherited_history s
              [1%float; 1%float; 1%float] 1 [] None 0 0) as [_ [_ Hraise]];
    [reflexivity|cbn; lia|].
  apply Hraise. cbn. split_and!; [lia|lia|reflexivity].
Defined.

(** the cell scores of two cells and two factors *)
Lemma score_formula_witness :
  exists out,
    cell_score (Some 0%nat) (Some 1%nat) loop_store = (inr out, loop_store)
    /\ shape out = [2; 2]%nat
    /\ data out !! 2%nat = Some (3 / 2 * (3 / 2))%float.
Proof.
  destruct (score_formula (H := reference) loop_store 0%nat 1%nat
              (HPF_Gamma.Obj 0%nat 1%nat [2]%nat)
              (HPF_Gamma.Obj 2%nat 3%nat [2; 2]%nat)
              (NDArray [2]%nat [1%float; 3%float])
              (NDArray [2]%nat [1%float; 2%float])
              (NDArray [2; 2]%nat [1%float; 2%float; 3%float; 4%float])
              (NDArray [2; 2]%nat [2%float; 2%float; 2%float; 2%float])
              2%nat 2%nat)
    as (out & Hshape & _ & Hentry & Hcell & _); try reflexivity.
  exists out. split; [|split; [exact Hshape|]].
  - apply Hcell; by left.
  - apply (Hentry 1%nat 0%nat 3%float 2%float 3%float 2%float);
      [lia|reflexivity..].
Defined.

Example cell_score_values :
  (cell_score (Some 0%nat) (Some 1%nat) loop_store).1
  = inr (NDArray [2; 2]%nat [0.5%float; 1%float; 2.25%float; 3%float]).
Proof. by vm_compute. Qed.

(** an iteration that gets worse: it prints its reason and breaks *)
Lemma loop_exit_is_announced_witness :
  let run := iteration X22 None true false false 0 None 2 2 2 0.3 0.3 1 1
               0%nat 0%nat 1%nat 2%nat 10 ([0%float], None) loop_store in
  run.1 = inr (Break, ([0%float; infinity], Some 0%float))
  /\ exists out,
       stdout run.2 = out ++ [Said_converged]
       \/ stdout run.2 = out ++ [Said_getting_worse_break].
Proof.
  intros run. split; [by vm_compute|].
  apply (loop_exit_is_announced (H := reference) X22 None true false false 0
           2 2 2 0.3 0.3 1 1 0%nat 0%nat 1%nat 2%nat 10 ([0%float], None)
           ([0%float; infinity], Some 0%float) loop_store);
    [reflexivity|by vm_compute].
Defined.

(** ** Runs of the other properties *)

(** [fit] of a new estimator with [max_iter = 3] and [check_freq = 1]:
    three checks, three losses *)
Example fit_records_one_loss_per_check :
  let σ := fresh_store (estimator 1 None None) in
  checks (scHPF.check_freq (self σ)) (scHPF.max_iter (self σ)) = [0; 1; 2]
  /\ length (scHPF.loss (self fitted_once)) = 3%nat.
Proof. by vm_compute. Qed.

(** [_initialize] on a new estimator: four blocks, no loss *)
Example _initialize_new_estimator :
  let run := _initialize X22 false (fresh_store (estimator 1 None None)) in
  run.1 = inr tt
  /\ scHPF.xi (self run.2) = Some 0%nat
  /\ scHPF.theta (self run.2) = Some 1%nat
  /\ scHPF.eta (self run.2) = Some 2%nat
  /\ scHPF.beta (self run.2) = Some 3%nat
  /\ scHPF.bp (self run.2) = Some 6%float
  /\ scHPF.loss (self run.2) = [].
Proof. by vm_compute. Qed.

(** the scores and the likelihood of an estimator that was never fitted *)
Example unfitted_estimator_has_no_scores :
  let σ := fresh_store (estimator 1 None None) in
  (cell_score None None σ).1 = inl AttributeError
  /\ (gene_score None None σ).1 = inl AttributeError
  /\ (pois_llh X22 None None σ).1 = inl AttributeError.
Proof. by vm_compute. Qed.

(** a factory with a rate prior of 0 fails *)
Example random_gamma_factory_zero_prior :
  (random_gamma_factory [2%nat] 1 0 (fresh_store (estimator 1 None None))).1
  = inl AssertionError.
Proof. by vm_compute. Qed.

